(** * Risk-Radar: portfolio analytics and sector-rotation recommendations

    A shallow embedding of the numeric core of the repository
    ([app.py], [risk_metrics.py], [stress_test.py], and the computations of
    [utils.py] and [portfolio_analyzer.py]) and the properties its
    specification states about it.

    Layout:
    - [PyFloat]: the arithmetic the code performs on [float]/[numpy.float64]
      values, with two instances: [binary64] (the machine arithmetic, on the
      kernel's IEEE 754 floats) and [ideal] (real arithmetic with one
      undefined value, for the algebraic identities the specification states
      over the reals);
    - the Python run time the code relies on: exceptions, insertion-ordered
      dictionaries, [sorted];
    - the pandas/numpy operations the code calls;
    - the functions of the repository, in the order of the source files;
    - the properties the specification states, and further properties of
      the code. *)

From Stdlib Require Import ZArith String Ascii Bool Lia.
From Stdlib Require Import List Permutation Sorted.
From Stdlib Require Import Floats Uint63.
From Stdlib Require Import Reals Lra.
Import ListNotations.

Set Implicit Arguments.
Unset Strict Implicit.
Set Warnings "-inexact-float".

(* ================================================================== *)
(** * 1. Numbers                                                       *)
(* ================================================================== *)

(** The operations the source applies to floating-point values.  [fdiv] is
    numpy's division (it never raises); the division of two Python scalars,
    which raises [ZeroDivisionError], is [py_div] below.  [fpow] is [**]. *)
Class PyFloat (F : Type) : Type := {
  fadd : F -> F -> F;
  fsub : F -> F -> F;
  fmul : F -> F -> F;
  fdiv : F -> F -> F;
  fsqrt : F -> F;
  flt : F -> F -> bool;
  feq : F -> F -> bool;
  isnan : F -> bool;
  nan : F;
  of_int : Z -> F
}.

(** [x ** y].  The kernel's floats have no power function: for [binary64]
    it is the C library's [pow], kept abstract. *)
Class PyPow (F : Type) : Type := { fpow : F -> F -> F }.

(** [abs(x)] *)
Class PyAbs (F : Type) : Type := { fabs : F -> F }.

Declare Scope py_scope.
Delimit Scope py_scope with py.
Notation "x + y" := (fadd x y) : py_scope.
Notation "x - y" := (fsub x y) : py_scope.
Notation "x * y" := (fmul x y) : py_scope.
Notation "x / y" := (fdiv x y) : py_scope.
Notation "x ** y" := (fpow x y) (at level 30, right associativity) : py_scope.
Notation "x <? y" := (flt x y) : py_scope.
Notation "x =? y" := (feq x y) : py_scope.

Section Literals.
Context {F : Type} `{PyFloat F}.
Local Open Scope py_scope.

(** A decimal literal [n/d]: the float nearest to the quotient (the
    quotient of two exactly represented integers is correctly rounded). *)
Definition dec (n d : Z) : F := of_int n / of_int d.

Definition zero : F := of_int 0.
Definition one : F := of_int 1.
(** [0.3], [0.10], [0.02], [365.25], [252]: the constants of the source. *)
Definition c0_3 : F := dec 3 10.
Definition c0_10 : F := dec 10 100.
Definition c0_02 : F := dec 2 100.
Definition c365_25 : F := dec 36525 100.
Definition c252 : F := of_int 252.

End Literals.

(** ** The machine instance: IEEE 754 binary64 *)

(** Conversion of a Python [int]: exact below [2^53] in absolute value
    (the integers converted are day counts and lengths). *)
Definition float_of_Z (z : Z) : float :=
  match z with
  | Z0 => PrimFloat.zero
  | Zpos _ => PrimFloat.of_uint63 (Uint63.of_Z z)
  | Zneg p => PrimFloat.opp (PrimFloat.of_uint63 (Uint63.of_Z (Zpos p)))
  end.

#[export] Instance binary64 : PyFloat float := {|
  fadd := PrimFloat.add;
  fsub := PrimFloat.sub;
  fmul := PrimFloat.mul;
  fdiv := PrimFloat.div;
  fsqrt := PrimFloat.sqrt;
  flt := PrimFloat.ltb;
  feq := PrimFloat.eqb;
  isnan := PrimFloat.is_nan;
  nan := PrimFloat.nan;
  of_int := float_of_Z
|}.

(** ** The ideal instance: the reals and one undefined value *)

Inductive xreal : Type :=
| XNaN : xreal
| XR : R -> xreal.

Definition xlift2 (f : R -> R -> R) (x y : xreal) : xreal :=
  match x, y with
  | XR a, XR b => XR (f a b)
  | _, _ => XNaN
  end.

Definition xdiv (x y : xreal) : xreal :=
  match x, y with
  | XR a, XR b => if Req_EM_T b 0 then XNaN else XR (a / b)
  | _, _ => XNaN
  end.

Definition xsqrt (x : xreal) : xreal :=
  match x with
  | XR a => if Rlt_dec a 0 then XNaN else XR (sqrt a)
  | XNaN => XNaN
  end.

Definition xlt (x y : xreal) : bool :=
  match x, y with
  | XR a, XR b => if Rlt_dec a b then true else false
  | _, _ => false
  end.

Definition xeq (x y : xreal) : bool :=
  match x, y with
  | XR a, XR b => if Req_EM_T a b then true else false
  | _, _ => false
  end.

Definition xisnan (x : xreal) : bool :=
  match x with XNaN => true | XR _ => false end.

(** [x ** y] over the reals: defined for a positive base, and for base [0]
    with a non-negative exponent.  As in C, [1 ** y] is [1] and [x ** 0] is
    [1] whatever the other argument is. *)
Definition xpow (x y : xreal) : xreal :=
  match x, y with
  | XR a, XR b =>
      if Rlt_dec 0 a then XR (Rpower a b)
      else if Req_EM_T a 0 then
        (if Rlt_dec 0 b then XR 0 else if Req_EM_T b 0 then XR 1 else XNaN)
      else XNaN
  | XR a, XNaN => if Req_EM_T a 1 then XR 1 else XNaN
  | XNaN, XR b => if Req_EM_T b 0 then XR 1 else XNaN
  | XNaN, XNaN => XNaN
  end.

#[export] Instance ideal : PyFloat xreal := {|
  fadd := xlift2 Rplus;
  fsub := xlift2 Rminus;
  fmul := xlift2 Rmult;
  fdiv := xdiv;
  fsqrt := xsqrt;
  flt := xlt;
  feq := xeq;
  isnan := xisnan;
  nan := XNaN;
  of_int := fun z => XR (IZR z)
|}.

#[export] Instance ideal_pow : PyPow xreal := {| fpow := xpow |}.

Definition xabs (x : xreal) : xreal :=
  match x with
  | XR a => XR (Rabs a)
  | XNaN => XNaN
  end.

#[export] Instance binary64_abs : PyAbs float := {| fabs := PrimFloat.abs |}.
#[export] Instance ideal_abs : PyAbs xreal := {| fabs := xabs |}.

(** Tests on reals do not compute: the operations that make them are
    unfolded by the lemmas that decide them, not by [simpl]. *)
Arguments xdiv : simpl never.
Arguments xlt : simpl never.
Arguments xeq : simpl never.
Arguments xpow : simpl never.
Arguments xsqrt : simpl never.

(* ================================================================== *)
(** * 2. The Python run time                                           *)
(* ================================================================== *)

(** The exceptions the modelled code can raise.  [StopException] is what
    [st.stop()] raises to end the script run. *)
Inductive exn : Type :=
| IndexError
| KeyError
| ValueError
| ZeroDivisionError
| StopException.

(** The outcome of running a piece of code: a value, or an exception. *)
Inductive outcome (A : Type) : Type :=
| Returned : A -> outcome A
| Raised : exn -> outcome A.
Arguments Returned {A} _.
Arguments Raised {A} _.

Definition bind {A B : Type} (c : outcome A) (k : A -> outcome B) : outcome B :=
  match c with
  | Returned a => k a
  | Raised e => Raised e
  end.

Notation "x <- c ;; k" := (bind c (fun x => k))
  (at level 61, c at next level, right associativity).

(** [for x in l: acc = body(acc, x)], where the body may raise. *)
Fixpoint for_each {A S : Type} (body : S -> A -> outcome S) (l : list A) (acc : S)
  : outcome S :=
  match l with
  | [] => Returned acc
  | x :: r => acc' <- body acc x ;; for_each body r acc'
  end.

(** [l[-1]] and [l[0]] on a sequence. *)
Definition py_last {A : Type} (l : list A) : outcome A :=
  match rev l with
  | [] => Raised IndexError
  | x :: _ => Returned x
  end.

Definition py_first {A : Type} (l : list A) : outcome A :=
  match l with
  | [] => Raised IndexError
  | x :: _ => Returned x
  end.

(** [l.index(x)]: the first position of [x], [ValueError] when absent. *)
Fixpoint list_index (x : string) (l : list string) : outcome nat :=
  match l with
  | [] => Raised ValueError
  | y :: r => if String.eqb y x then Returned 0%nat
              else (i <- list_index x r ;; Returned (S i))
  end.

(** ** Dictionaries

    A [dict] keeps its keys in insertion order, and assigning to a key that
    is present keeps the key's position. *)
Definition dict (V : Type) : Type := list (string * V).

Fixpoint dict_get {V : Type} (d : dict V) (k : string) : option V :=
  match d with
  | [] => None
  | (k', v) :: r => if String.eqb k' k then Some v else dict_get r k
  end.

(** [d.get(k, default)] *)
Definition dict_get_default {V : Type} (d : dict V) (k : string) (default : V) : V :=
  match dict_get d k with Some v => v | None => default end.

(** [d[k] = v] *)
Fixpoint dict_set {V : Type} (d : dict V) (k : string) (v : V) : dict V :=
  match d with
  | [] => [(k, v)]
  | (k', v') :: r => if String.eqb k' k then (k', v) :: r
                     else (k', v') :: dict_set r k v
  end.

Definition dict_keys {V : Type} (d : dict V) : list string := map fst d.

(** ** [sorted(items, key=..., reverse=True)]

    Python's sort is stable, also with [reverse=True]: the result is in
    descending key order and items whose keys compare equal keep their
    input order.  Keys are compared with [<] only.  For keys that [<]
    orders totally up to ties (floats other than NaN) that result is
    unique, and the insertion sort below computes it: an item inserted
    from the left moves right past the strictly greater ones only. *)
Section Sorted.
Context {A K : Type} (key : A -> K) (lt : K -> K -> bool).

Fixpoint insert_desc (x : A) (l : list A) : list A :=
  match l with
  | [] => [x]
  | y :: r => if lt (key x) (key y) then y :: insert_desc x r else x :: y :: r
  end.

Fixpoint sorted_desc (l : list A) : list A :=
  match l with
  | [] => []
  | x :: r => insert_desc x (sorted_desc r)
  end.

(** Two keys tie when neither is less than the other. *)
Definition tie (a b : K) : bool := negb (lt a b) && negb (lt b a).

(** Descending order: no later item has a strictly greater key. *)
Definition descending (l : list A) : Prop :=
  StronglySorted (fun x y => lt (key x) (key y) = false) l.

End Sorted.

(* ================================================================== *)
(** * 3. pandas and numpy                                              *)
(* ================================================================== *)

(** The operations of the two libraries that the source calls, on the data
    it gives them.  A [Series] is a column of values labelled by dates (day
    numbers); a [DataFrame] is a table with named columns, one row per
    date.  Sums are taken from left to right (numpy's own order for fewer
    than 8 addends; the blocked order it uses for longer arrays differs in
    rounding only). *)
Section Pandas.
Context {F : Type} `{PyFloat F}.
Local Open Scope py_scope.

Definition Series : Type := list (Z * F).

Definition values (s : Series) : list F := map snd s.
Definition index (s : Series) : list Z := map fst s.

Definition notna (x : F) : bool := negb (isnan x).

(** [s.pct_change()]: a missing price is first filled with the price
    before it (the default [fill_method='pad'] of pandas before version 3),
    then comes [s / s.shift(1) - 1]; the first entry has no predecessor and
    is NaN.  [prev] is the filled price of the entry before. *)
Fixpoint pct_change_from (prev : F) (s : Series) : Series :=
  match s with
  | [] => []
  | (d, p) :: r =>
      let filled := if isnan p then prev else p in
      (d, filled / prev - one) :: pct_change_from filled r
  end.

Definition pct_change (s : Series) : Series :=
  match s with
  | [] => []
  | (d, p) :: r => (d, nan) :: pct_change_from p r
  end.

(** [s.dropna()] *)
Definition dropna (s : Series) : Series :=
  filter (fun e => notna (snd e)) s.

(** [s.pct_change().dropna()]: the daily simple returns of a price
    series, as [calculate_cagr] and [get_sector_etf_performance] compute
    them. *)
Definition daily_returns (s : Series) : Series := dropna (pct_change s).

(** [1 + s] *)
Definition one_plus (s : Series) : Series :=
  map (fun e => (fst e, one + snd e)) s.

(** [s.cumprod()]: the running product; a NaN entry stays NaN and is left
    out of the product ([skipna]). *)
Fixpoint cumprod_from (acc : F) (s : Series) : Series :=
  match s with
  | [] => []
  | (d, x) :: r =>
      if isnan x then (d, nan) :: cumprod_from acc r
      else (d, acc * x) :: cumprod_from (acc * x) r
  end.

Fixpoint cumprod (s : Series) : Series :=
  match s with
  | [] => []
  | (d, x) :: r =>
      if isnan x then (d, nan) :: cumprod r
      else (d, x) :: cumprod_from x r
  end.

(** [a.sum()] on a numpy array, from [0.0] on: NaN is not skipped. *)
Definition np_sum (l : list F) : F := fold_left fadd l zero.

(** pandas reductions skip NaN: they sum the values with NaN replaced by
    [0], and count the values that are not NaN. *)
Definition fillna0 (l : list F) : list F :=
  map (fun x => if isnan x then zero else x) l.

Definition nansum (l : list F) : F := np_sum (fillna0 l).

Definition count (l : list F) : nat := length (filter notna l).

(** [s.mean()] *)
Definition mean (l : list F) : F :=
  if Nat.eqb (count l) 0 then nan
  else nansum l / of_int (Z.of_nat (count l)).

(** [s.var(ddof)]: the squared deviations from the mean, summed and
    divided by [count - ddof]; NaN when [count <= ddof]. *)
Definition var (ddof : nat) (l : list F) : F :=
  let n := count l in
  if Nat.leb n ddof then nan
  else
    let avg := nansum l / of_int (Z.of_nat n) in
    let sqr := map (fun x => if isnan x then zero else (avg - x) * (avg - x)) l in
    np_sum sqr / of_int (Z.of_nat (n - ddof)).

(** [s.std(ddof)] *)
Definition std (ddof : nat) (l : list F) : F := fsqrt (var ddof l).

(** [s.std()]: pandas' default is [ddof=1]. *)
Definition pd_std (l : list F) : F := std 1 l.

(** [np.std(s)] on a Series: numpy hands over to [s.std] with its own
    default, [ddof=0]. *)
Definition np_std (l : list F) : F := std 0 l.

(** [a /= a.sum()] on a numpy array: element-wise, never raising. *)
Definition normalize (w : list F) : list F :=
  let s := np_sum w in map (fun x => x / s) w.

(** ** Tables *)

Record DataFrame : Type := {
  columns : list string;
  rows : list (Z * list F)
}.

Definition df_index (df : DataFrame) : list Z := map fst (rows df).

(** Every row has one value per column. *)
Definition well_formed (df : DataFrame) : Prop :=
  Forall (fun r => length (snd r) = length (columns df)) (rows df).

(** A row with its missing prices filled from the (filled) row before. *)
Definition row_fill (prev cur : list F) : list F :=
  map (fun pq => if isnan (snd pq) then fst pq else snd pq) (combine prev cur).

Definition row_pct (prev cur : list F) : list F :=
  map (fun pq => snd pq / fst pq - one) (combine prev cur).

Fixpoint rows_pct_from (prev : list F) (rs : list (Z * list F)) : list (Z * list F) :=
  match rs with
  | [] => []
  | (d, r) :: t =>
      let filled := row_fill prev r in
      (d, row_pct prev filled) :: rows_pct_from filled t
  end.

(** [df.pct_change()], column by column as [pct_change]. *)
Definition df_pct_change (df : DataFrame) : DataFrame :=
  {| columns := columns df;
     rows := match rows df with
             | [] => []
             | (d, r) :: t => (d, map (fun _ => nan) r) :: rows_pct_from r t
             end |}.

(** [df.dropna()]: the rows with a NaN in any column are dropped. *)
Definition df_dropna (df : DataFrame) : DataFrame :=
  {| columns := columns df;
     rows := filter (fun r => forallb notna (snd r)) (rows df) |}.

(** [df * w] for an array [w]: one factor per column, [ValueError] when
    the lengths differ. *)
Definition df_mul (df : DataFrame) (w : list F) : outcome DataFrame :=
  if Nat.eqb (length w) (length (columns df)) then
    Returned {| columns := columns df;
                rows := map (fun r => (fst r, map (fun xw => fst xw * snd xw)
                                                  (combine (snd r) w)))
                            (rows df) |}
  else Raised ValueError.

(** [df.sum(axis=1)]: the sum of each row, NaN skipped. *)
Definition df_sum_rows (df : DataFrame) : Series :=
  map (fun r => (fst r, nansum (snd r))) (rows df).

Fixpoint position (t : string) (l : list string) : option nat :=
  match l with
  | [] => None
  | y :: r => if String.eqb y t then Some 0%nat
              else option_map S (position t r)
  end.

(** [df[t]]: the column named [t], [KeyError] when there is none. *)
Definition df_col (df : DataFrame) (t : string) : outcome Series :=
  match position t (columns df) with
  | None => Raised KeyError
  | Some j => Returned (map (fun r => (fst r, nth j (snd r) nan)) (rows df))
  end.

(** Division of two Python scalars. *)
Definition py_div (x y : F) : outcome F :=
  if y =? zero then Raised ZeroDivisionError else Returned (x / y).

End Pandas.
Arguments Series F : clear implicits.
Arguments DataFrame F : clear implicits.

(* ================================================================== *)
(** * 4. app.py                                                        *)
(* ================================================================== *)

Local Open Scope string_scope.
Local Open Scope list_scope.

(** [INDIAN_SECTOR_ETFS]: sector -> proxy instrument. *)
Definition INDIAN_SECTOR_ETFS : dict string :=
  [ ("Banking", "NSEBANK.NS");
    ("IT", "NSEIT.NS");
    ("Pharma", "NSEPHARMA.NS");
    ("Energy", "NSEOIL.NS");
    ("FMCG", "NSEFMCG.NS");
    ("Infrastructure", "NSEINFRA.NS");
    ("Auto", "NSEAUTO.NS");
    ("Metal", "NSEMETAL.NS");
    ("Finance", "NSEFIN.NS") ].

(** ** [get_sector_of_stock]

    [yf.Ticker(ticker).info] is the external metadata service.  A lookup
    either fails, or yields a table in which ['sector'] is absent, [None]
    or a string.  The service is taken to answer the same for the same
    ticker throughout a run. *)
Inductive sector_field : Type :=
| Absent
| IsNone
| Label (s : string).

(** A label is held as the bytes of its UTF-8 encoding.  The white space
    that [str.strip()] removes is the code points 9-13, 28-32, U+0085,
    U+00A0, U+1680, U+2000-U+200A, U+2028, U+2029, U+202F, U+205F and
    U+3000.  [is_space] is the white space of one byte. *)
Definition is_space (c : ascii) : bool :=
  let n := nat_of_ascii c in
  ((9 <=? n) && (n <=? 13) || (28 <=? n) && (n <=? 32))%nat.

(** The white space of two bytes, after the lead byte [C2]: U+0085, U+00A0. *)
Definition is_space_C2 (c1 : ascii) : bool :=
  let n1 := nat_of_ascii c1 in
  ((n1 =? 133) || (n1 =? 160))%nat.

(** The white space of three bytes: [E1 9A 80] (U+1680), [E2 80 80] to
    [E2 80 8A] (U+2000-U+200A), [E2 80 A8], [E2 80 A9], [E2 80 AF],
    [E2 81 9F] (U+205F) and [E3 80 80] (U+3000). *)
Definition is_space_3 (c c1 c2 : ascii) : bool :=
  let n := nat_of_ascii c in
  let n1 := nat_of_ascii c1 in
  let n2 := nat_of_ascii c2 in
  ((n =? 225) && (n1 =? 154) && (n2 =? 128)
   || (n =? 226) && (n1 =? 128)
      && ((128 <=? n2) && (n2 <=? 138) || (n2 =? 168) || (n2 =? 169) || (n2 =? 175))
   || (n =? 226) && (n1 =? 129) && (n2 =? 159)
   || (n =? 227) && (n1 =? 128) && (n2 =? 128))%nat.

(** [s.strip() == ""]: every character of [s] is white space. *)
Fixpoint blank (s : string) : bool :=
  match s with
  | EmptyString => true
  | String c r =>
      if is_space c then blank r
      else
        match r with
        | String c1 r1 =>
            if (nat_of_ascii c =? 194)%nat then is_space_C2 c1 && blank r1
            else
              match r1 with
              | String c2 r2 => is_space_3 c c1 c2 && blank r2
              | EmptyString => false
              end
        | EmptyString => false
        end
  end.

Definition get_sector_of_stock (info : string -> outcome sector_field)
    (ticker : string) : string :=
  match info ticker with
  | Raised _ => "Unknown"
  | Returned Absent => "Unknown"
  | Returned IsNone => "Unknown"
  | Returned (Label s) => if blank s then "Unknown" else s
  end.

Section App.
Context {F : Type} `{PyFloat F} `{PyPow F}.
Local Open Scope py_scope.

(** ** [get_sector_etf_performance]

    [data] is the table of closing prices that [yf.download] returned, one
    column per proxy it found.  [sector_cagr] is the body of the loop. *)
Definition sector_cagr (data : DataFrame F) (ticker : string) : outcome F :=
  match position ticker (columns data) with
  | None => Returned nan
  | Some _ =>
      column <- df_col data ticker ;;
      let prices := dropna column in
      if (length prices <? 2)%nat then Returned nan
      else
        let returns := daily_returns prices in
        let cum_ret := cumprod (one_plus returns) in
        last_day <- py_last (index prices) ;;
        first_day <- py_first (index prices) ;;
        let years := of_int (last_day - first_day) / c365_25 in
        growth <- py_last (values cum_ret) ;;
        exponent <- py_div one years ;;
        Returned (growth ** exponent - one)
  end.

Definition get_sector_etf_performance (etfs : dict string) (data : DataFrame F)
  : outcome (dict F) :=
  for_each (fun perf e =>
              cagr <- sector_cagr data (snd e) ;;
              Returned (dict_set perf (fst e) cagr))
           etfs [].

(** ** [portfolio_sector_weights]: a [defaultdict(float)] accumulated with
    [+=]. *)
Definition portfolio_sector_weights (info : string -> outcome sector_field)
    (tickers : list string) (weights : list F) : dict F :=
  fold_left (fun sector_wts tw =>
               let sector := get_sector_of_stock info (fst tw) in
               dict_set sector_wts sector
                        (dict_get_default sector_wts sector zero + snd tw))
            (combine tickers weights) [].

(** ** [calculate_cagr] *)
Definition calculate_cagr (adj_close : Series F) : outcome F :=
  let cumulative_returns := cumprod (one_plus (daily_returns adj_close)) in
  last_day <- py_last (index adj_close) ;;
  first_day <- py_first (index adj_close) ;;
  let total_years := of_int (last_day - first_day) / c365_25 in
  growth <- py_last (values cumulative_returns) ;;
  exponent <- py_div one total_years ;;
  Returned (growth ** exponent - one).

(** ** [recommend_replacements] *)

(** [{k: v for k, v in sector_perf.items() if not np.isnan(v)}] *)
Definition valid_sectors (sector_perf : dict F) : dict F :=
  filter (fun kv => notna (snd kv)) sector_perf.

(** [sorted(valid_sectors.items(), key=lambda x: x[1], reverse=True)] *)
Definition sorted_sectors (sector_perf : dict F) : list (string * F) :=
  sorted_desc snd flt (valid_sectors sector_perf).

(** [[s for s, _ in sorted_sectors[:3]]] *)
Definition top_sectors (sector_perf : dict F) : list string :=
  map fst (firstn 3 (sorted_sectors sector_perf)).

(** The inner loop: the first top sector that passes the test, [None] when
    the loop ends without a [break]. *)
Fixpoint first_eligible (under_sector : string) (portfolio_sector_wts : dict F)
    (tops : list string) : option string :=
  match tops with
  | [] => None
  | sector :: rest =>
      if negb (String.eqb sector under_sector)
         && (dict_get_default portfolio_sector_wts sector zero <? c0_3)
      then Some sector
      else first_eligible under_sector portfolio_sector_wts rest
  end.

(** [replacement_sector] after the fallback to [top_sectors[0]]. *)
Definition replacement_sector (under_sector : string)
    (portfolio_sector_wts : dict F) (tops : list string) : option string :=
  match first_eligible under_sector portfolio_sector_wts tops with
  | Some s => Some s
  | None => match tops with
            | [] => None
            | s :: _ => Some s
            end
  end.

(** [etf_map.get(replacement_sector, None)]; the keys of [etf_map] are
    strings, so [None] is not among them. *)
Definition rec_ticker (etf_map : dict string) (sector : option string) : option string :=
  match sector with
  | None => None
  | Some s => dict_get etf_map s
  end.

Definition recommendation : Type := (option string * option string)%type.

Definition recommend_replacements (info : string -> outcome sector_field)
    (underperformers : list (string * F)) (sector_perf : dict F)
    (portfolio_sector_wts : dict F) (portfolio_tickers : list string)
    (etf_map : dict string) : dict recommendation :=
  let tops := top_sectors sector_perf in
  fold_left (fun recommendations u =>
               let under_ticker := fst u in
               let under_sector := get_sector_of_stock info under_ticker in
               let sector := replacement_sector under_sector portfolio_sector_wts tops in
               dict_set recommendations under_ticker (sector, rec_ticker etf_map sector))
            underperformers [].

(** ** The script: portfolio metrics and underperformers *)

(** [a[i]] on a numpy array. *)
Definition np_item (a : list F) (i : nat) : outcome F :=
  match nth_error a i with
  | Some x => Returned x
  | None => Raised IndexError
  end.

(** Lines 203-209: the weights of the tickers that have prices, renormalised. *)
Definition weights_matched (tickers : list string) (weights : list F)
    (final_tickers : list string) : outcome (list F) :=
  matched <- for_each (fun acc tkr =>
                         idx <- list_index tkr tickers ;;
                         w <- np_item weights idx ;;
                         Returned (acc ++ [w]))
                      final_tickers [] ;;
  Returned (normalize matched).

(** Lines 214-215. *)
Definition portfolio_daily_returns (adj_close : DataFrame F) (w : list F)
  : outcome (Series F) :=
  let daily_returns := df_dropna (df_pct_change adj_close) in
  weighted <- df_mul daily_returns w ;;
  Returned (df_sum_rows weighted).

(** Lines 216-218. *)
Definition port_cagr (adj_close : DataFrame F) (returns : Series F) : outcome F :=
  let cumulative_returns := cumprod (one_plus returns) in
  last_day <- py_last (df_index adj_close) ;;
  first_day <- py_first (df_index adj_close) ;;
  let total_years := of_int (last_day - first_day) / c365_25 in
  growth <- py_last (values cumulative_returns) ;;
  exponent <- py_div one total_years ;;
  Returned (growth ** exponent - one).

(** Line 219. *)
Definition port_volatility (returns : Series F) : F :=
  pd_std (values returns) * fsqrt c252.

(** Line 220; [volatility > 0] is [0 < volatility]. *)
Definition port_sharpe (cagr volatility : F) : F :=
  if zero <? volatility then cagr / volatility else nan.

(** Lines 233-237. *)
Definition underperformers (adj_close : DataFrame F) (portfolio_cagr : F)
  : outcome (list (string * F)) :=
  for_each (fun found t =>
              column <- df_col adj_close t ;;
              stock_cagr <- calculate_cagr column ;;
              Returned (if stock_cagr <? c0_3 * portfolio_cagr
                        then found ++ [(t, stock_cagr)]
                        else found))
           (columns adj_close) [].

Record analysis : Type := {
  a_weights : list F;
  a_returns : Series F;
  a_cagr : F;
  a_volatility : F;
  a_sharpe : F;
  a_underperformers : list (string * F)
}.

(** Lines 198-237, from the cleaned price table [adj_close] on.  The
    script stops when the table is empty or has fewer than two rows. *)
Definition analyze (tickers : list string) (weights : list F)
    (adj_close : DataFrame F) : outcome analysis :=
  if (length (columns adj_close) =? 0)%nat || (length (rows adj_close) <? 2)%nat
  then Raised StopException
  else
    w <- weights_matched tickers weights (columns adj_close) ;;
    returns <- portfolio_daily_returns adj_close w ;;
    cagr <- port_cagr adj_close returns ;;
    let volatility := port_volatility returns in
    let sharpe := port_sharpe cagr volatility in
    under <- underperformers adj_close cagr ;;
    Returned {| a_weights := w; a_returns := returns; a_cagr := cagr;
                a_volatility := volatility; a_sharpe := sharpe;
                a_underperformers := under |}.

End App.

(** ** The script: the portfolio's sector weights *)

Section SectorExposure.
Context {F : Type} `{PyFloat F}.
Local Open Scope py_scope.

(** Lines 168-170.  [cached_get_sector] is [get_sector_of_stock] behind a
    cache keyed by the ticker. *)
Definition portfolio_sector_map (info : string -> outcome sector_field)
    (tickers : list string) : dict string :=
  fold_left (fun sector_map tkr =>
               dict_set sector_map tkr (get_sector_of_stock info tkr))
            tickers [].

(** Lines 173-176. *)
Definition port_sector_wts_dict (info : string -> outcome sector_field)
    (tickers : list string) (weights : list F) : dict F :=
  let sector_map := portfolio_sector_map info tickers in
  fold_left (fun wts tw =>
               let sec := dict_get_default sector_map (fst tw) "Unknown" in
               dict_set wts sec (dict_get_default wts sec zero + snd tw))
            (combine tickers weights) [].

End SectorExposure.

(** ** The script: the table of closing prices *)

(** Lines 187-195.  [data] is what [download_portfolio_prices] returned,
    grouped by ticker: the closing prices of the tickers it has prices
    for.  A ticker without data is skipped with a warning, and so is one
    whose lookup fails; assigning a column that is there already replaces
    it in place.  The result is given by columns, in their order. *)
Definition collect_adj_close {F : Type} (data : dict (Series F))
    (tickers : list string) : dict (Series F) :=
  fold_left (fun adj_close t =>
               match dict_get data t with
               | Some close => dict_set adj_close t close
               | None => adj_close
               end)
            tickers [].

(** Line 203: [adj_close.columns.tolist()]; dropping rows (line 196) leaves
    the columns as they are. *)
Definition final_tickers {F : Type} (data : dict (Series F))
    (tickers : list string) : list string :=
  dict_keys (collect_adj_close data tickers).

(* ================================================================== *)
(** * 5. risk_metrics.py                                               *)
(* ================================================================== *)

Section RiskMetrics.
Context {F : Type} `{PyFloat F}.
Local Open Scope py_scope.

(** Lines 5-6 (and lines 4-5 of [run_stress_test]). *)
Definition portfolio_returns (price_data : DataFrame F) (weights : list F)
  : outcome (Series F) :=
  let returns := df_dropna (df_pct_change price_data) in
  weighted <- df_mul returns weights ;;
  Returned (df_sum_rows weighted).

(** Line 7: [np.std(portfolio_returns) * np.sqrt(252)]. *)
Definition volatility (returns : Series F) : F :=
  np_std (values returns) * fsqrt c252.

(** Line 9: [portfolio_returns.mean() / portfolio_returns.std() * np.sqrt(252)]. *)
Definition sharpe_ratio (returns : Series F) : F :=
  mean (values returns) / pd_std (values returns) * fsqrt c252.

Record risk_metrics : Type := {
  rm_volatility : F;
  rm_sharpe_ratio : F
}.

(** Line 8: [np.percentile(portfolio_returns, 5)] raises [IndexError] on an
    array without elements; on any other array it yields a number, which
    is not among the metrics followed here. *)
Definition np_percentile_check (a : list F) : outcome unit :=
  match a with
  | [] => Raised IndexError
  | _ :: _ => Returned tt
  end.

End RiskMetrics.

(** ** Beta against the market *)

Section Beta.
Context {F : Type} `{PyFloat F}.
Local Open Scope py_scope.

(** [a.mean()] on a numpy array: the sum over the length; NaN is not
    skipped, and the mean of no value is [0.0 / 0]. *)
Definition np_mean (l : list F) : F := np_sum l / of_int (Z.of_nat (length l)).

(** [np.cov(x, y)[0][1]]: the two arrays are stacked ([ValueError] when
    their lengths differ), each is centred on its mean, and the sum of the
    products is multiplied by [1 / fact], where [fact] is [N - 1], replaced
    by [0.0] when it is not positive.  (numpy sums the products with
    [np.dot], whose order of addition may differ from the one here in the
    last bits of a binary64 result.) *)
Definition np_cov01 (x y : list F) : outcome F :=
  if Nat.eqb (length x) (length y) then
    let fact := if (length x <=? 1)%nat then zero
                else of_int (Z.of_nat (length x) - 1) in
    let dx := map (fun a => a - np_mean x) x in
    let dy := map (fun b => b - np_mean y) y in
    let dot := np_sum (map (fun ab => fst ab * snd ab) (combine dx dy)) in
    Returned (dot * (one / fact))
  else Raised ValueError.

(** Lines 11-14; [np.var] of a Series is the Series' [var] with [ddof=0].
    The result is [None] when the table has no column ['SPY']. *)
Definition beta (price_data : DataFrame F) (portfolio_returns : Series F)
  : outcome (option F) :=
  match position "SPY" (columns price_data) with
  | None => Returned None
  | Some _ =>
      column <- df_col price_data "SPY" ;;
      let market_returns := daily_returns column in
      c <- np_cov01 (values portfolio_returns) (values market_returns) ;;
      Returned (Some (c / var 0 (values market_returns)))
  end.

(** [calculate_risk_metrics], lines 5-14: it raises what the percentile of
    line 8 and the beta of lines 11-14 raise; of the four metrics of its
    table, the record holds the volatility and the Sharpe ratio. *)
Definition calculate_risk_metrics (price_data : DataFrame F) (weights : list F)
  : outcome risk_metrics :=
  returns <- portfolio_returns price_data weights ;;
  _ <- np_percentile_check (values returns) ;;
  _ <- beta price_data returns ;;
  Returned {| rm_volatility := volatility returns;
              rm_sharpe_ratio := sharpe_ratio returns |}.

End Beta.

(* ================================================================== *)
(** * 6. stress_test.py                                                *)
(* ================================================================== *)

Section StressTest.
Context {F : Type} `{PyFloat F}.
Local Open Scope py_scope.

(** [base_returns - c] *)
Definition minus_const (c : F) (s : Series F) : Series F :=
  map (fun e => (fst e, snd e - c)) s.

(** Lines 7-12. *)
Definition shocked_returns (base_returns : Series F) (scenario : string) : Series F :=
  if String.eqb scenario "Market Crash -10%" then minus_const c0_10 base_returns
  else if String.eqb scenario "Interest Rate Hike +2%" then minus_const c0_02 base_returns
  else base_returns.

Record summary : Type := {
  original_avg_return : F;
  shocked_avg_return : F;
  impact : F
}.

(** Lines 7-18, from the portfolio's return series on. *)
Definition apply_scenario (base_returns : Series F) (scenario : string) : summary :=
  let shocked := shocked_returns base_returns scenario in
  {| original_avg_return := mean (values base_returns);
     shocked_avg_return := mean (values shocked);
     impact := mean (values shocked) - mean (values base_returns) |}.

Definition run_stress_test (price_data : DataFrame F) (weights : list F)
    (scenario : string) : outcome summary :=
  base_returns <- portfolio_returns price_data weights ;;
  Returned (apply_scenario base_returns scenario).

End StressTest.

(* ================================================================== *)
(** * 7. utils.py and portfolio_analyzer.py                            *)
(* ================================================================== *)

Section Charts.
Context {F : Type} `{PyFloat F}.
Local Open Scope py_scope.

(** [show_cumulative_returns], lines 21-23: the series that is plotted. *)
Definition show_cumulative_returns (data : DataFrame F) (weights : list F)
  : outcome (Series F) :=
  returns <- portfolio_returns data weights ;;
  Returned (cumprod (one_plus returns)).

(** [portfolio_analyzer.py], lines 24-26: the weights are divided by their
    sum when the sum is further than [0.01] from [1.0], and left as they
    are otherwise.  ([abs(x) > 0.01] is [0.01 < abs(x)]; the weights hold no
    NaN, the rows that had one were dropped.) *)
Definition normalized_weight `{PyAbs F} (weight : list F) : list F :=
  if dec 1 100 <? fabs (nansum weight - one)
  then map (fun x => x / nansum weight) weight
  else weight.

(** [df / row]: every row divided by [row], column by column. *)
Definition df_div_row (df : DataFrame F) (row : list F) : DataFrame F :=
  {| columns := columns df;
     rows := map (fun r => (fst r, map (fun pq => fst pq / snd pq)
                                       (combine (snd r) row)))
                 (rows df) |}.

(** [portfolio_analyzer.py], lines 53-58: the value of the portfolio over
    time, every price taken relative to the first one.  [iloc[0]] raises
    [IndexError] on a table without rows. *)
Definition portfolio_value (price_data : DataFrame F) (weights : list F)
  : outcome (Series F) :=
  let price_data := df_dropna price_data in
  first <- py_first (rows price_data) ;;
  let norm := df_div_row price_data (snd first) in
  weighted <- df_mul norm weights ;;
  Returned (df_sum_rows weighted).

End Charts.

(* ================================================================== *)
(** * 8. The specification's terms                                     *)
(* ================================================================== *)

(** Definitions that follow the wording of the specification, to compare
    the code with. *)

(** The tickers of a sequence, each at its first occurrence. *)
Definition add_key (ks : list string) (k : string) : list string :=
  if existsb (String.eqb k) ks then ks else ks ++ [k].

Definition first_occurrences (l : list string) : list string :=
  fold_left add_key l [].

Section SpecTerms.
Context {F : Type} `{PyFloat F}.
Local Open Scope py_scope.

(** Section 4.5, steps 2-4: the first of the top sectors that differs from
    the underperformer's sector and whose exposure is strictly below the
    cap; failing that the highest-ranked sector; nothing when there is no
    top sector. *)
Definition eligible (under_sector : string) (exposure : dict F) (sector : string) : bool :=
  negb (String.eqb sector under_sector)
  && (dict_get_default exposure sector zero <? c0_3).

Definition select_sector (under_sector : string) (exposure : dict F)
    (tops : list string) : option string :=
  match find (eligible under_sector exposure) tops with
  | Some s => Some s
  | None => hd_error tops
  end.

(** The sample standard deviation of [n] values: the root of the squared
    deviations from the mean, summed and divided by [n - 1]; undefined
    below two values. *)
Definition deviations (l : list F) : F :=
  let m := np_sum l / of_int (Z.of_nat (length l)) in
  np_sum (map (fun x => (m - x) * (m - x)) l).

Definition sample_std (l : list F) : F :=
  if (length l <=? 1)%nat then nan
  else fsqrt (deviations l / of_int (Z.of_nat (length l - 1))).

(** The population standard deviation: the same with the divisor [n]. *)
Definition population_std (l : list F) : F :=
  if (length l <=? 0)%nat then nan
  else fsqrt (deviations l / of_int (Z.of_nat (length l))).

(** The product of a non-empty sequence of factors, from left to right. *)
Definition product (l : list F) : F :=
  match l with
  | [] => one
  | x :: r => fold_left fmul r x
  end.

End SpecTerms.

(** [[f(x) for x in l]], where [f] may raise. *)
Fixpoint map_m {A B : Type} (f : A -> outcome B) (l : list A) : outcome (list B) :=
  match l with
  | [] => Returned []
  | x :: r => y <- f x ;; ys <- map_m f r ;; Returned (y :: ys)
  end.

Section Underperformance.
Context {F : Type} `{PyFloat F} `{PyPow F}.
Local Open Scope py_scope.

(** Section 4.4: the CAGR of every ticker of the price table, in column
    order, and the tickers flagged among them. *)
Definition ticker_cagrs (adj_close : DataFrame F) : outcome (list (string * F)) :=
  map_m (fun t => column <- df_col adj_close t ;;
                  cagr <- calculate_cagr column ;;
                  Returned (t, cagr))
        (columns adj_close).

Definition flagged (portfolio_cagr : F) (tc : string * F) : bool :=
  snd tc <? c0_3 * portfolio_cagr.

Definition find_underperformers (cagrs : list (string * F)) (portfolio_cagr : F)
  : list (string * F) :=
  filter (flagged portfolio_cagr) cagrs.

End Underperformance.

(** Section 4.6: the shock of a scenario, subtracted from every daily
    return; an unknown scenario has none. *)
Definition shock_of (scenario : string) : R :=
  if String.eqb scenario "Market Crash -10%" then (10 / 100)%R
  else if String.eqb scenario "Interest Rate Hike +2%" then (2 / 100)%R
  else 0%R.

(** A series of real numbers, in the ideal instance. *)
Definition real_series (l : list (Z * R)) : Series xreal :=
  map (fun e => (fst e, XR (snd e))) l.

Definition Rsum (l : list R) : R := fold_left Rplus l 0%R.

(** Section 4.1, over the reals: the daily simple returns of a sequence of
    prices, the cumulative return factor (the product of [1 + r] over the
    returns) and the calendar span of a sequence of dates. *)
Fixpoint real_returns_from (prev : R) (prices : list R) : list R :=
  match prices with
  | [] => []
  | p :: r => (p / prev - 1)%R :: real_returns_from p r
  end.

Definition real_returns (prices : list R) : list R :=
  match prices with
  | [] => []
  | p :: r => real_returns_from p r
  end.

(** The same, on dated prices. *)
Fixpoint real_pct_from (prev : R) (l : list (Z * R)) : list (Z * R) :=
  match l with
  | [] => []
  | (d, p) :: r => (d, (p / prev - 1)%R) :: real_pct_from p r
  end.

Definition Rproduct (l : list R) : R := fold_left Rmult l 1%R.

Definition cumulative_return_factor (prices : list R) : R :=
  Rproduct (map (fun r => (1 + r)%R) (real_returns prices)).

Definition span_days (dates : list Z) : Z := (last dates 0 - hd 0 dates)%Z.

(** A constant price series: the price [p] on each of the dates. *)
Definition constant_series {F : Type} (p : F) (dates : list Z) : Series F :=
  map (fun d => (d, p)) dates.

(** Ranking ties "by sector label ascending": the order of labels. *)
Definition label_lt (a b : string) : bool :=
  match String.compare a b with Lt => true | _ => false end.

(** ** The order of binary64 values

    A code for the values other than NaN, whose lexicographic order is the
    order [<] of the floats: sign class, then exponent, then mantissa. *)
Definition sf_code (x : spec_float) : Z * Z * Z :=
  match x with
  | S754_nan => (0, 0, 0)
  | S754_zero _ => (0, 0, 0)
  | S754_infinity true => (-2, 0, 0)
  | S754_infinity false => (2, 0, 0)
  | S754_finite false m e => (1, e, Zpos m)
  | S754_finite true m e => (-1, - e, Zneg m)
  end%Z.

Definition lex_lt (a b : Z * Z * Z) : Prop :=
  let '(a1, a2, a3) := a in
  let '(b1, b2, b3) := b in
  (a1 < b1 \/ (a1 = b1 /\ (a2 < b2 \/ (a2 = b2 /\ a3 < b3))))%Z.

(** [f] holds of the [fuel] integers from [z] on. *)
Fixpoint all_from (f : Z -> bool) (fuel : nat) (z : Z) : bool :=
  match fuel with
  | O => true
  | S k => f z && all_from f k (z + 1)
  end.

(** A finite float other than zero. *)
Definition finite_nonzero (x : float) : Prop :=
  exists s m e, Prim2SF x = S754_finite s m e.

(** ** Terms of the further properties *)

Section FurtherTerms.
Context {F : Type} `{PyFloat F}.

(** The weight that stands at the first position of a ticker. *)
Definition first_weight (tickers : list string) (weights : list F) (t : string) : F :=
  match position t tickers with
  | Some i => nth i weights nan
  | None => nan
  end.

(** The weights of the tickers of a sector, in the order of the tickers. *)
Definition sector_members (info : string -> outcome sector_field) (sector : string)
    (pairs : list (string * F)) : list F :=
  map snd (filter (fun tw => String.eqb (get_sector_of_stock info (fst tw)) sector)
                  pairs).

End FurtherTerms.

(** A table of real prices, in the ideal instance. *)
Definition real_frame (cols : list string) (prices : list (Z * list R))
  : DataFrame xreal :=
  {| columns := cols;
     rows := map (fun r => (fst r, map XR (snd r))) prices |}.

(** The squared deviations of real numbers from their mean, summed. *)
Definition Rdeviations (l : list R) : R :=
  Rsum (map (fun x => ((x - Rsum l / INR (length l))
                       * (x - Rsum l / INR (length l)))%R) l).

(* ================================================================== *)
(** * 9. Properties                                                    *)
(* ================================================================== *)

(** ** Dictionaries and loops *)

Lemma bind_returned {A B : Type} (c : outcome A) (k : A -> outcome B) (b : B) :
  bind c k = Returned b -> exists a, c = Returned a /\ k a = Returned b.
Proof.
  destruct c as [a|e]; simpl; intros E; [eauto | discriminate].
Qed.

Lemma fold_left_pointwise {A B : Type} (f g : A -> B -> A) (l : list B) (a : A) :
  (forall x y, f x y = g x y) -> fold_left f l a = fold_left g l a.
Proof.
  intros Hfg. revert a. induction l as [|y l IH]; intros a; simpl.
  - reflexivity.
  - now rewrite Hfg, IH.
Qed.

Lemma existsb_eqb_In (k : string) (ks : list string) :
  existsb (String.eqb k) ks = true <-> In k ks.
Proof.
  rewrite existsb_exists. split.
  - intros [x [Hin Heq]]. apply String.eqb_eq in Heq. now subst.
  - intros Hin. exists k. split; [assumption | apply String.eqb_refl].
Qed.

Section DictFacts.
Context {V : Type}.

(** Assigning the values of a function [g] of the key: the dictionary is
    the table of [g] over its keys, and a key is appended only when new. *)
Lemma dict_set_table (g : string -> V) (ks : list string) (k : string) :
  dict_set (map (fun t => (t, g t)) ks) k (g k)
  = map (fun t => (t, g t)) (add_key ks k).
Proof.
  unfold add_key. induction ks as [|a ks IH]; simpl.
  - reflexivity.
  - rewrite (String.eqb_sym k a).
    destruct (String.eqb a k) eqn:E; simpl.
    + apply String.eqb_eq in E. now subst.
    + rewrite IH. destruct (existsb (String.eqb k) ks); reflexivity.
Qed.

Lemma fold_dict_set_table {A : Type} (key : A -> string) (g : string -> V)
    (l : list A) (ks : list string) :
  fold_left (fun d u => dict_set d (key u) (g (key u))) l (map (fun t => (t, g t)) ks)
  = map (fun t => (t, g t)) (fold_left add_key (map key l) ks).
Proof.
  revert ks. induction l as [|u l IH]; intros ks; simpl.
  - reflexivity.
  - rewrite dict_set_table. apply IH.
Qed.

End DictFacts.

Lemma fold_add_key_fresh (l ks : list string) :
  NoDup (ks ++ l) -> fold_left add_key l ks = ks ++ l.
Proof.
  revert ks. induction l as [|k l IH]; intros ks Hnd; simpl.
  - now rewrite app_nil_r.
  - assert (Hk : existsb (String.eqb k) ks = false).
    { destruct (existsb (String.eqb k) ks) eqn:E; [|reflexivity].
      apply existsb_eqb_In in E. exfalso.
      apply NoDup_remove_2 in Hnd. apply Hnd.
      apply in_or_app. now left. }
    unfold add_key at 2. rewrite Hk.
    rewrite IH; rewrite <- app_assoc; [reflexivity | exact Hnd].
Qed.

Lemma first_occurrences_NoDup (l : list string) :
  NoDup l -> first_occurrences l = l.
Proof.
  intros Hnd. unfold first_occurrences. now rewrite fold_add_key_fresh.
Qed.

Lemma add_key_incl (ks : list string) (k x : string) :
  In x (add_key ks k) <-> In x ks \/ x = k.
Proof.
  unfold add_key. destruct (existsb (String.eqb k) ks) eqn:E.
  - apply existsb_eqb_In in E. split; [now left | intros [Hx| ->]; assumption].
  - rewrite in_app_iff. simpl. intuition congruence.
Qed.

Lemma add_key_NoDup (ks : list string) (k : string) :
  NoDup ks -> NoDup (add_key ks k).
Proof.
  intros Hnd. unfold add_key. destruct (existsb (String.eqb k) ks) eqn:E.
  - assumption.
  - apply NoDup_app; [assumption | repeat constructor; intros [] | ].
    intros x Hx [<-|[]].
    apply existsb_eqb_In in Hx. congruence.
Qed.

Lemma fold_add_key_spec (l ks : list string) :
  NoDup ks ->
  NoDup (fold_left add_key l ks)
  /\ (forall x, In x (fold_left add_key l ks) <-> In x ks \/ In x l).
Proof.
  revert ks. induction l as [|k l IH]; intros ks Hnd; simpl.
  - split; [assumption | intuition].
  - destruct (IH (add_key ks k) (add_key_NoDup k Hnd)) as [H1 H2].
    split; [assumption|]. intros x. rewrite H2, add_key_incl. intuition.
Qed.

(** ** Replacement recommendations *)

Section Recommender.
Context {F : Type} `{PyFloat F}.

Lemma first_eligible_find (under_sector : string) (wts : dict F) (tops : list string) :
  first_eligible under_sector wts tops = find (eligible under_sector wts) tops.
Proof.
  induction tops as [|s tops IH]; simpl; [reflexivity|].
  unfold eligible at 1. now rewrite IH.
Qed.

Lemma replacement_sector_select (under_sector : string) (wts : dict F) (tops : list string) :
  replacement_sector under_sector wts tops = select_sector under_sector wts tops.
Proof.
  unfold replacement_sector, select_sector. rewrite first_eligible_find.
  destruct (find _ tops); [reflexivity | now destruct tops].
Qed.

Lemma recommend_replacements_table (info : string -> outcome sector_field)
    (unders : list (string * F)) (perf wts : dict F) (tickers : list string)
    (etf : dict string) :
  let sector_of := get_sector_of_stock info in
  recommend_replacements info unders perf wts tickers etf
  = map (fun t => (t, (select_sector (sector_of t) wts (top_sectors perf),
                       rec_ticker etf (select_sector (sector_of t) wts (top_sectors perf)))))
        (first_occurrences (map fst unders)).
Proof.
  intros sector_of. unfold recommend_replacements, first_occurrences.
  rewrite <- (fold_dict_set_table (V := recommendation) fst
                (fun t => (select_sector (sector_of t) wts (top_sectors perf),
                           rec_ticker etf (select_sector (sector_of t) wts (top_sectors perf))))
                unders []).
  simpl. apply fold_left_pointwise. intros d u.
  now rewrite replacement_sector_select.
Qed.

End Recommender.

(** C1 (as amended).  The recommender walks the top-3 ranked sectors and,
    for each underperformer, picks the first one that differs from the
    underperformer's sector and whose exposure is strictly below 0.30,
    falling back to the highest-ranked sector, and to no sector and no
    instrument when there is no top sector.  The result is a dictionary
    keyed by ticker: it holds one recommendation per distinct ticker, at the
    ticker's first position; when the tickers of the underperformers are
    pairwise distinct this is exactly one recommendation per input
    underperformer, in input order. *)
Theorem recommend_replacements_selects :
  forall (F : Type) (PF : PyFloat F) (info : string -> outcome sector_field)
         (unders : list (string * F)) (perf wts : dict F)
         (tickers : list string) (etf : dict string),
    let tops := top_sectors perf in
    let choice := fun t => select_sector (get_sector_of_stock info t) wts tops in
    let entry := fun t => (t, (choice t, rec_ticker etf (choice t))) in
    tops = map fst (firstn 3 (sorted_sectors perf))
    /\ recommend_replacements info unders perf wts tickers etf
       = map entry (first_occurrences (map fst unders))
    /\ (NoDup (first_occurrences (map fst unders))
        /\ forall t, In t (first_occurrences (map fst unders))
                     <-> In t (map fst unders))
    /\ (NoDup (map fst unders) ->
        recommend_replacements info unders perf wts tickers etf
        = map (fun u => entry (fst u)) unders)
    /\ (tops = [] ->
        forall t, choice t = None /\ rec_ticker etf (choice t) = None).
Proof.
  intros F PF info unders perf wts tickers etf tops choice entry.
  split; [reflexivity|]. split; [apply recommend_replacements_table|].
  split; [|split].
  - destruct (@fold_add_key_spec (map fst unders) [] (NoDup_nil _)) as [Hnd Hin].
    split; [exact Hnd|]. intros t. unfold first_occurrences. rewrite Hin.
    simpl. intuition.
  - intros Hnd. rewrite recommend_replacements_table.
    rewrite first_occurrences_NoDup by assumption.
    now rewrite map_map.
  - intros Hnil t. subst choice. cbv beta. rewrite Hnil. now split.
Qed.

Lemma recommend_replacements_selects_witness :
  let info := fun t : string =>
    if String.eqb t "HDFCBANK.NS" then Returned (Label "Banking")
    else Returned (Label "Technology") in
  let unders : list (string * float) :=
    [("HDFCBANK.NS", (-0.02)%float); ("TCS.NS", 0.01%float)] in
  let perf : dict float :=
    [("Banking", 0.12%float); ("IT", 0.10%float); ("Pharma", PrimFloat.nan);
     ("Energy", 0.15%float); ("FMCG", 0.05%float)] in
  let wts : dict float := [("Energy", 0.45%float); ("Banking", 0.2%float)] in
  recommend_replacements info unders perf wts ["HDFCBANK.NS"; "TCS.NS"]
                         INDIAN_SECTOR_ETFS
  = [("HDFCBANK.NS", (Some "IT", Some "NSEIT.NS"));
     ("TCS.NS", (Some "Banking", Some "NSEBANK.NS"))].
Proof.
  cbv zeta.
  rewrite (proj1 (proj2 (proj2 (proj2
             (@recommend_replacements_selects float binary64 _ _ _ _ _ _))))).
  - reflexivity.
  - repeat constructor; simpl; intuition discriminate.
Defined.

(** C1, as stated, fails when a ticker occurs twice among the
    underperformers: two inputs, one recommendation. *)
Lemma recommend_replacements_repeated_ticker :
  let unders : list (string * float) := [("TCS.NS", (-0.05)%float); ("TCS.NS", (-0.05)%float)] in
  let perf : dict float := [("Banking", 0.12%float); ("IT", 0.10%float)] in
  length unders = 2%nat
  /\ recommend_replacements (fun _ => Returned (Label "Technology")) unders perf []
                            ["TCS.NS"] INDIAN_SECTOR_ETFS
     = [("TCS.NS", (Some "Banking", Some "NSEBANK.NS"))].
Proof. split; reflexivity. Qed.

(** ** The order of binary64 values *)

Lemma is_nan_false_iff (x : float) :
  PrimFloat.is_nan x = false <-> Prim2SF x <> S754_nan.
Proof.
  unfold PrimFloat.is_nan. rewrite FloatAxioms.eqb_spec. unfold SFeqb.
  destruct (Prim2SF x) as [s|s| |s m e]; simpl.
  - split; [discriminate | reflexivity].
  - destruct s; simpl; (split; [discriminate | reflexivity]).
  - split; [discriminate | congruence].
  - destruct s; rewrite Z.compare_refl, Pos.compare_cont_refl; simpl;
      (split; [discriminate | reflexivity]).
Qed.

Lemma SFltb_code (x y : spec_float) :
  x <> S754_nan -> y <> S754_nan ->
  (SFltb x y = true <-> lex_lt (sf_code x) (sf_code y)).
Proof.
  intros Hx Hy. unfold SFltb.
  destruct x as [sx|sx| |sx mx ex], y as [sy|sy| |sy my ey];
    try congruence; simpl;
    try (destruct sx); try (destruct sy); simpl;
    try (split; [discriminate | lia]);
    try (split; [intros _; lia | reflexivity]).
  - rewrite Pos.compare_cont_spec. simpl.
    destruct (Z.compare_spec ex ey); destruct (Pos.compare_spec mx my); simpl;
      split; try discriminate; try lia; try reflexivity.
  - rewrite Pos.compare_cont_spec. simpl.
    destruct (Z.compare_spec ex ey); destruct (Pos.compare_spec mx my); simpl;
      split; try discriminate; try lia; try reflexivity.
Qed.

Lemma SFeqb_code (x y : spec_float) :
  x <> S754_nan -> y <> S754_nan ->
  (SFeqb x y = true <-> sf_code x = sf_code y).
Proof.
  intros Hx Hy. unfold SFeqb.
  destruct x as [sx|sx| |sx mx ex], y as [sy|sy| |sy my ey];
    try congruence; simpl;
    try (destruct sx); try (destruct sy); simpl;
    try (split; [discriminate | congruence]);
    try (split; [reflexivity | reflexivity]).
  - rewrite Pos.compare_cont_spec. simpl.
    destruct (Z.compare_spec ex ey); destruct (Pos.compare_spec mx my); simpl;
      split; try discriminate; intros E; subst; try reflexivity;
      inversion E; subst; lia.
  - rewrite Pos.compare_cont_spec. simpl.
    destruct (Z.compare_spec ex ey); destruct (Pos.compare_spec mx my); simpl;
      split; try discriminate; intros E; subst; try reflexivity;
      inversion E; subst; lia.
Qed.

Lemma ltb_code (x y : float) :
  PrimFloat.is_nan x = false -> PrimFloat.is_nan y = false ->
  (PrimFloat.ltb x y = true <-> lex_lt (sf_code (Prim2SF x)) (sf_code (Prim2SF y))).
Proof.
  intros Hx Hy. rewrite FloatAxioms.ltb_spec.
  apply SFltb_code; now apply is_nan_false_iff.
Qed.

Lemma ltb_false_code (x y : float) :
  PrimFloat.is_nan x = false -> PrimFloat.is_nan y = false ->
  (PrimFloat.ltb x y = false <-> ~ lex_lt (sf_code (Prim2SF x)) (sf_code (Prim2SF y))).
Proof.
  intros Hx Hy. rewrite <- (ltb_code Hx Hy).
  destruct (PrimFloat.ltb x y); split; congruence.
Qed.

Lemma lex_lt_asym (a b : Z * Z * Z) : lex_lt a b -> ~ lex_lt b a.
Proof. destruct a as [[a1 a2] a3], b as [[b1 b2] b3]. simpl. lia. Qed.

Lemma lex_lt_negtrans (a b c : Z * Z * Z) :
  ~ lex_lt a b -> ~ lex_lt b c -> ~ lex_lt a c.
Proof.
  destruct a as [[a1 a2] a3], b as [[b1 b2] b3], c as [[c1 c2] c3]. simpl. lia.
Qed.

Lemma lex_lt_total (a b : Z * Z * Z) :
  ~ lex_lt a b -> ~ lex_lt b a -> a = b.
Proof.
  destruct a as [[a1 a2] a3], b as [[b1 b2] b3]. simpl. intros H1 H2.
  assert (a1 = b1 /\ a2 = b2 /\ a3 = b3) as (-> & -> & ->) by lia. reflexivity.
Qed.

(** On the floats other than NaN, [<] is asymmetric and its complement is
    transitive: a total order up to ties. *)
Lemma float_ltb_asym (x y : float) :
  PrimFloat.is_nan x = false -> PrimFloat.is_nan y = false ->
  PrimFloat.ltb x y = true -> PrimFloat.ltb y x = false.
Proof.
  intros Hx Hy Hlt. apply (ltb_false_code Hy Hx).
  apply lex_lt_asym. now apply (ltb_code Hx Hy).
Qed.

Lemma float_ltb_negtrans (x y z : float) :
  PrimFloat.is_nan x = false -> PrimFloat.is_nan y = false ->
  PrimFloat.is_nan z = false ->
  PrimFloat.ltb x y = false -> PrimFloat.ltb y z = false ->
  PrimFloat.ltb x z = false.
Proof.
  intros Hx Hy Hz Hxy Hyz. apply (ltb_false_code Hx Hz).
  apply lex_lt_negtrans with (b := sf_code (Prim2SF y)).
  - now apply (ltb_false_code Hx Hy).
  - now apply (ltb_false_code Hy Hz).
Qed.

(** Two floats other than NaN are equal ([==]) exactly when neither is
    less than the other. *)
Lemma float_eqb_tie (x y : float) :
  PrimFloat.is_nan x = false -> PrimFloat.is_nan y = false ->
  PrimFloat.eqb x y = negb (PrimFloat.ltb x y) && negb (PrimFloat.ltb y x).
Proof.
  intros Hx Hy.
  pose proof (proj1 (is_nan_false_iff x) Hx) as Nx.
  pose proof (proj1 (is_nan_false_iff y) Hy) as Ny.
  destruct (PrimFloat.eqb x y) eqn:E.
  - rewrite FloatAxioms.eqb_spec in E. apply (SFeqb_code Nx Ny) in E.
    assert (L1 : PrimFloat.ltb x y = false).
    { apply (ltb_false_code Hx Hy). rewrite E.
      destruct (sf_code (Prim2SF y)) as [[a b] c]. simpl. lia. }
    assert (L2 : PrimFloat.ltb y x = false).
    { apply (ltb_false_code Hy Hx). rewrite E.
      destruct (sf_code (Prim2SF y)) as [[a b] c]. simpl. lia. }
    now rewrite L1, L2.
  - destruct (PrimFloat.ltb x y) eqn:L1; [reflexivity|].
    destruct (PrimFloat.ltb y x) eqn:L2; [reflexivity|].
    exfalso.
    apply (ltb_false_code Hx Hy) in L1. apply (ltb_false_code Hy Hx) in L2.
    pose proof (lex_lt_total L1 L2) as Heq.
    apply (SFeqb_code Nx Ny) in Heq. rewrite <- FloatAxioms.eqb_spec in Heq. congruence.
Qed.

Lemma eqb_nan_l (x y : float) :
  PrimFloat.is_nan x = true -> PrimFloat.eqb x y = false.
Proof.
  unfold PrimFloat.is_nan. rewrite !FloatAxioms.eqb_spec. unfold SFeqb.
  destruct (Prim2SF x) as [s|s| |s m e]; simpl; try reflexivity.
  - discriminate.
  - destruct s; discriminate.
  - destruct s; rewrite Z.compare_refl, Pos.compare_cont_refl; discriminate.
Qed.

(** ** [sorted(..., reverse=True)] *)

Section SortFacts.
Context {A K : Type} (key : A -> K) (lt : K -> K -> bool).

(** The keys on which [lt] behaves as an order. *)
Variable ordered : K -> Prop.
Hypothesis lt_asym :
  forall a b, ordered a -> ordered b -> lt a b = true -> lt b a = false.
Hypothesis lt_negtrans :
  forall a b c, ordered a -> ordered b -> ordered c ->
                lt a b = false -> lt b c = false -> lt a c = false.

Lemma insert_desc_perm (x : A) (l : list A) :
  Permutation (insert_desc key lt x l) (x :: l).
Proof.
  induction l as [|y l IH]; simpl.
  - apply Permutation_refl.
  - destruct (lt (key x) (key y)).
    + eapply perm_trans; [apply perm_skip, IH | apply perm_swap].
    + apply Permutation_refl.
Qed.

Lemma sorted_desc_perm (l : list A) : Permutation (sorted_desc key lt l) l.
Proof.
  induction l as [|x l IH]; simpl.
  - apply perm_nil.
  - eapply perm_trans; [apply insert_desc_perm | now apply perm_skip].
Qed.

Lemma insert_desc_descending (x : A) (l : list A) :
  ordered (key x) -> Forall (fun y => ordered (key y)) l ->
  descending key lt l -> descending key lt (insert_desc key lt x l).
Proof.
  intros Hx Hl Hs. induction Hs as [|y l Hs IH Hy]; simpl.
  - repeat constructor.
  - inversion Hl as [|? ? Oy Ol]; subst.
    destruct (lt (key x) (key y)) eqn:E.
    + constructor; [now apply IH|].
      apply Forall_forall. intros z Hz.
      apply (Permutation_in _ (insert_desc_perm x l)) in Hz.
      destruct Hz as [<-|Hz].
      * now apply lt_asym.
      * rewrite Forall_forall in Hy. now apply Hy.
    + constructor; [now constructor|].
      constructor; [assumption|].
      apply Forall_forall. intros z Hz.
      rewrite Forall_forall in Hy, Ol.
      apply lt_negtrans with (b := key y); auto.
Qed.

Lemma sorted_desc_descending (l : list A) :
  Forall (fun y => ordered (key y)) l -> descending key lt (sorted_desc key lt l).
Proof.
  induction l as [|x l IH]; intros Hl; simpl.
  - constructor.
  - inversion Hl as [|? ? Ox Ol]; subst.
    apply insert_desc_descending; [assumption | | now apply IH].
    apply Forall_forall. intros z Hz.
    apply (Permutation_in _ (sorted_desc_perm l)) in Hz.
    rewrite Forall_forall in Ol. now apply Ol.
Qed.

(** Stability: the items that tie with a given key keep their order. *)
Lemma insert_desc_stable (c : K) (x : A) (l : list A) :
  ordered c -> ordered (key x) -> Forall (fun y => ordered (key y)) l ->
  filter (fun y => tie lt c (key y)) (insert_desc key lt x l)
  = filter (fun y => tie lt c (key y)) (x :: l).
Proof.
  intros Hc Hx Hl. induction l as [|y l IH]; simpl.
  - reflexivity.
  - inversion Hl as [|? ? Oy Ol]; subst.
    destruct (lt (key x) (key y)) eqn:E; [|reflexivity].
    simpl. rewrite (IH Ol). simpl.
    destruct (tie lt c (key x)) eqn:Tx; [|reflexivity].
    destruct (tie lt c (key y)) eqn:Ty; [|reflexivity].
    exfalso. unfold tie in Tx, Ty.
    apply andb_true_iff in Tx, Ty. destruct Tx as [_ Tx], Ty as [Ty _].
    apply negb_true_iff in Tx, Ty.
    pose proof (lt_negtrans Hx Hc Oy Tx Ty). congruence.
Qed.

Lemma sorted_desc_stable (c : K) (l : list A) :
  ordered c -> Forall (fun y => ordered (key y)) l ->
  filter (fun y => tie lt c (key y)) (sorted_desc key lt l)
  = filter (fun y => tie lt c (key y)) l.
Proof.
  intros Hc. induction l as [|x l IH]; intros Hl; simpl.
  - reflexivity.
  - inversion Hl as [|? ? Ox Ol]; subst.
    rewrite insert_desc_stable; try assumption.
    + simpl. now rewrite IH.
    + apply Forall_forall. intros z Hz.
      apply (Permutation_in _ (sorted_desc_perm l)) in Hz.
      rewrite Forall_forall in Ol. now apply Ol.
Qed.

End SortFacts.

(** ** The sector ranking *)

Lemma filter_none {A : Type} (p : A -> bool) (l : list A) :
  (forall x, In x l -> p x = false) -> filter p l = [].
Proof.
  induction l as [|x l IH]; intros Hp; simpl.
  - reflexivity.
  - rewrite (Hp x (or_introl eq_refl)). apply IH.
    intros y Hy. apply Hp. now right.
Qed.

Lemma filter_filter_implied {A : Type} (p q : A -> bool) (l : list A) :
  (forall x, p x = true -> q x = true) ->
  filter p (filter q l) = filter p l.
Proof.
  intros Hpq. induction l as [|x l IH]; simpl.
  - reflexivity.
  - destruct (q x) eqn:Q; simpl.
    + now rewrite IH.
    + destruct (p x) eqn:P; [|assumption].
      apply Hpq in P. congruence.
Qed.

Lemma eqb_nan_r (x y : float) :
  PrimFloat.is_nan y = true -> PrimFloat.eqb x y = false.
Proof.
  unfold PrimFloat.is_nan. rewrite !FloatAxioms.eqb_spec. unfold SFeqb.
  destruct (Prim2SF y) as [s|s| |s m e]; simpl.
  - discriminate.
  - destruct s; discriminate.
  - intros _. now destruct (Prim2SF x) as [?|[]| |[] ? ?].
  - destruct s; rewrite Z.compare_refl, Pos.compare_cont_refl; discriminate.
Qed.

Lemma valid_sectors_notna (perf : dict float) :
  Forall (fun e => PrimFloat.is_nan (snd e) = false) (valid_sectors perf).
Proof.
  apply Forall_forall. intros e He.
  apply filter_In in He. destruct He as [_ He].
  unfold notna in He. simpl in He. now apply negb_true_iff in He.
Qed.

(** C2 (as amended).  The ranking holds exactly the sectors whose CAGR is
    not NaN, in descending CAGR order; sectors with equal CAGR keep the
    order in which the performance dictionary lists them (the sort is
    stable and has no tie-break of its own). *)
Theorem sorted_sectors_ranking :
  forall perf : dict float,
    let ranking := sorted_sectors perf in
    Permutation ranking (valid_sectors perf)
    /\ (forall e, In e ranking <-> In e perf /\ PrimFloat.is_nan (snd e) = false)
    /\ descending snd PrimFloat.ltb ranking
    /\ (forall c, filter (fun e => PrimFloat.eqb c (snd e)) ranking
                  = filter (fun e => PrimFloat.eqb c (snd e)) perf).
Proof.
  intros perf ranking.
  assert (Hperm : Permutation ranking (valid_sectors perf))
    by apply sorted_desc_perm.
  pose proof (valid_sectors_notna perf) as Hval.
  split; [exact Hperm|]. split; [|split].
  - intros e. split.
    + intros He. apply (Permutation_in _ Hperm) in He.
      apply filter_In in He. destruct He as [Hin He].
      unfold notna in He. simpl in He. apply negb_true_iff in He. now split.
    + intros [Hin He]. apply (Permutation_in _ (Permutation_sym Hperm)).
      apply filter_In. split; [assumption|].
      unfold notna. simpl. now rewrite He.
  - apply (sorted_desc_descending (ordered := fun k => PrimFloat.is_nan k = false)).
    + intros a b. apply float_ltb_asym.
    + intros a b c. apply float_ltb_negtrans.
    + exact Hval.
  - intros c. destruct (PrimFloat.is_nan c) eqn:Nc.
    + rewrite !filter_none; [reflexivity | |]; intros x _; now apply eqb_nan_l.
    + transitivity (filter (fun e => tie PrimFloat.ltb c (snd e)) ranking).
      { apply filter_ext_in. intros e He.
        apply (Permutation_in _ Hperm) in He.
        rewrite Forall_forall in Hval. now apply float_eqb_tie, Hval. }
      unfold ranking, sorted_sectors.
      rewrite (sorted_desc_stable (ordered := fun k => PrimFloat.is_nan k = false)).
      * transitivity (filter (fun e => PrimFloat.eqb c (snd e)) (valid_sectors perf)).
        { apply filter_ext_in. intros e He. symmetry.
          rewrite Forall_forall in Hval. now apply float_eqb_tie, Hval. }
        unfold valid_sectors. apply filter_filter_implied.
        intros e He. unfold notna. simpl.
        destruct (PrimFloat.is_nan (snd e)) eqn:Ne; [|reflexivity].
        rewrite (eqb_nan_r c Ne) in He. discriminate.
      * intros a b d. apply float_ltb_negtrans.
      * exact Nc.
      * exact Hval.
Qed.

(** C2, as stated, fails on a tie: two sectors with the same CAGR stay in
    dictionary order ("Pharma" is listed before "Energy" in the proxy
    table), not in ascending label order. *)
Lemma sorted_sectors_tie_keeps_dict_order :
  let perf : dict float := [("Pharma", 0.1%float); ("Energy", 0.1%float)] in
  sorted_sectors perf = [("Pharma", 0.1%float); ("Energy", 0.1%float)]
  /\ label_lt "Energy" "Pharma" = true.
Proof. split; reflexivity. Qed.

(** ** Short price series *)

Section ShortSeries.
Context {F : Type} `{PyFloat F}.
Hypothesis isnan_nan : isnan nan = true.

Lemma daily_returns_short (s : Series F) :
  (length s < 2)%nat -> daily_returns s = [].
Proof.
  intros Hlen. destruct s as [|[d p] [|e s]]; simpl in Hlen; try lia.
  - reflexivity.
  - unfold daily_returns, dropna. simpl. unfold notna. simpl.
    now rewrite isnan_nan.
Qed.

Lemma df_daily_returns_short (df : DataFrame F) :
  (length (rows df) < 2)%nat -> columns df <> [] -> well_formed df ->
  rows (df_dropna (df_pct_change df)) = [].
Proof.
  intros Hlen Hcols Hwf. destruct df as [cols rs]. simpl in *.
  destruct rs as [|[d r] [|e rs]]; simpl in Hlen; try lia; simpl.
  - reflexivity.
  - inversion Hwf as [|? ? Hr _]; subst. simpl in Hr.
    destruct r as [|x r]; simpl.
    + destruct cols; [congruence | discriminate].
    + unfold notna at 1. now rewrite isnan_nan.
Qed.

Lemma portfolio_returns_short (df : DataFrame F) (w : list F) :
  (length (rows df) < 2)%nat -> columns df <> [] -> well_formed df ->
  length w = length (columns df) ->
  portfolio_returns df w = Returned [].
Proof.
  intros Hlen Hcols Hwf Hw. unfold portfolio_returns, df_mul.
  change (columns (df_dropna (df_pct_change df))) with (columns df).
  rewrite Hw, Nat.eqb_refl. cbn [bind]. unfold df_sum_rows. cbn [rows].
  now rewrite (df_daily_returns_short Hlen Hcols Hwf).
Qed.

End ShortSeries.

(** C3 (as amended).  For a price series with fewer than 2 points the
    daily returns are the empty series: [pct_change] yields at most the one
    undefined entry, [dropna] removes it, and no error is raised; the same
    holds for a price table with fewer than 2 rows. *)
Theorem daily_returns_of_short_series :
  forall (F : Type) (PF : PyFloat F),
    isnan nan = true ->
    (forall s : Series F, (length s < 2)%nat -> daily_returns s = [])
    /\ (forall (price_data : DataFrame F) (weights : list F),
           (length (rows price_data) < 2)%nat ->
           columns price_data <> [] -> well_formed price_data ->
           length weights = length (columns price_data) ->
           portfolio_returns price_data weights = Returned []).
Proof.
  intros F PF Hnan. split.
  - intros s. now apply daily_returns_short.
  - intros df w. now apply portfolio_returns_short.
Qed.

Lemma daily_returns_of_short_series_witness :
  daily_returns ([] : Series float) = []
  /\ portfolio_returns {| columns := ["TCS.NS"]; rows := [] |} [1%float]
     = Returned ([] : Series float).
Proof.
  destruct (@daily_returns_of_short_series float binary64 eq_refl) as [H1 H2].
  split.
  - apply H1. simpl. lia.
  - apply H2; simpl; [lia | discriminate | constructor | reflexivity].
Defined.

(** C3, as stated, fails: on a series of length 1 the daily returns are
    computed, and are the empty series; no error is raised. *)
Lemma daily_returns_single_price :
  daily_returns [(0%Z, 100%float)] = []
  /\ portfolio_returns {| columns := ["TCS.NS"]; rows := [(0%Z, [100%float])] |}
                       [1%float]
     = Returned [].
Proof. split; reflexivity. Qed.

(** ** Arithmetic of the ideal instance *)

Lemma xdiv_real (a b : R) : b <> 0%R -> xdiv (XR a) (XR b) = XR (a / b).
Proof. intros Hb. unfold xdiv. now destruct (Req_EM_T b 0). Qed.

Lemma xdiv_zero (a : R) : xdiv (XR a) (XR 0) = XNaN.
Proof. unfold xdiv. destruct (Req_EM_T 0 0); [reflexivity | congruence]. Qed.

Lemma xlt_true (a b : R) : (a < b)%R -> xlt (XR a) (XR b) = true.
Proof. intros Hab. unfold xlt. destruct (Rlt_dec a b); [reflexivity | contradiction]. Qed.

Lemma xlt_false (a b : R) : (b <= a)%R -> xlt (XR a) (XR b) = false.
Proof. intros Hab. unfold xlt. destruct (Rlt_dec a b); [lra | reflexivity]. Qed.

Lemma xeq_true (a : R) : xeq (XR a) (XR a) = true.
Proof. unfold xeq. destruct (Req_EM_T a a); [reflexivity | congruence]. Qed.

Lemma xeq_false (a b : R) : a <> b -> xeq (XR a) (XR b) = false.
Proof. intros Hab. unfold xeq. destruct (Req_EM_T a b); [contradiction | reflexivity]. Qed.

Lemma xeq_decide_true (a b : R) : a = b -> xeq (XR a) (XR b) = true.
Proof. intros ->. apply xeq_true. Qed.

Lemma xsqrt_real (a : R) : (0 <= a)%R -> xsqrt (XR a) = XR (sqrt a).
Proof. intros Ha. unfold xsqrt. destruct (Rlt_dec a 0); [lra | reflexivity]. Qed.

Lemma xpow_pos (a b : R) : (0 < a)%R -> xpow (XR a) (XR b) = XR (Rpower a b).
Proof. intros Ha. unfold xpow. destruct (Rlt_dec 0 a); [reflexivity | contradiction]. Qed.

Lemma Rpower_one (y : R) : Rpower 1 y = 1%R.
Proof. unfold Rpower. rewrite ln_1, Rmult_0_r. apply exp_0. Qed.

(** Evaluation of a closed term of the ideal instance: each test on reals
    is decided by [lra]. *)
Ltac ideal_step :=
  match goal with
  | |- context [xdiv (XR ?a) (XR ?b)] =>
      first [ rewrite (@xdiv_real a b) by lra
            | replace b with 0%R by lra; rewrite (xdiv_zero a) ]
  | |- context [xlt (XR ?a) (XR ?b)] =>
      first [ rewrite (@xlt_true a b) by lra | rewrite (@xlt_false a b) by lra ]
  | |- context [xeq (XR ?a) (XR ?b)] =>
      first [ rewrite (@xeq_decide_true a b) by lra | rewrite (@xeq_false a b) by lra ]
  | |- context [xpow (XR ?a) (XR ?b)] => rewrite (@xpow_pos a b) by lra
  | |- context [xsqrt (XR ?a)] => rewrite (@xsqrt_real a) by lra
  end.

Ltac ideal_eval := cbn; repeat (ideal_step; cbn).

(** The constants of the source, in the ideal instance. *)
Lemma ideal_constants :
  @zero xreal _ = XR 0 /\ @one xreal _ = XR 1
  /\ @c0_3 xreal _ = XR (3 / 10) /\ @c0_10 xreal _ = XR (10 / 100)
  /\ @c0_02 xreal _ = XR (2 / 100) /\ @c365_25 xreal _ = XR (36525 / 100)
  /\ @c252 xreal _ = XR 252.
Proof.
  unfold zero, one, c0_3, c0_10, c0_02, c365_25, c252, dec. simpl.
  repeat split; try reflexivity; apply xdiv_real; lra.
Qed.

(** The constants of the source, in binary64: the literals [0.3], [0.10],
    [0.02], [365.25] and [252.0]. *)
Lemma binary64_constants :
  @zero float _ = 0%float /\ @one float _ = 1%float
  /\ @c0_3 float _ = 0.3%float /\ @c0_10 float _ = 0.10%float
  /\ @c0_02 float _ = 0.02%float /\ @c365_25 float _ = 365.25%float
  /\ @c252 float _ = 252%float.
Proof. repeat split; reflexivity. Qed.

(** ** CAGR on insufficient data *)

Lemma dict_get_set_same {V : Type} (d : dict V) (k : string) (v : V) :
  dict_get (dict_set d k v) k = Some v.
Proof.
  induction d as [|[k' v'] d IH]; simpl.
  - now rewrite String.eqb_refl.
  - destruct (String.eqb k' k) eqn:E; simpl; rewrite E; [reflexivity | exact IH].
Qed.

Lemma dict_get_set_other {V : Type} (d : dict V) (k k' : string) (v : V) :
  k <> k' -> dict_get (dict_set d k v) k' = dict_get d k'.
Proof.
  intros Hne. induction d as [|[a v'] d IH]; simpl.
  - destruct (String.eqb k k') eqn:E; [|reflexivity].
    apply String.eqb_eq in E. contradiction.
  - destruct (String.eqb a k) eqn:E; simpl.
    + apply String.eqb_eq in E. subst a.
      destruct (String.eqb k k') eqn:E'; [|reflexivity].
      apply String.eqb_eq in E'. contradiction.
    + now rewrite IH.
Qed.

Section SectorPerformance.
Context {F : Type} `{PyFloat F} `{PyPow F}.

Lemma sector_cagr_missing (data : DataFrame F) (ticker : string) :
  position ticker (columns data) = None -> sector_cagr data ticker = Returned nan.
Proof. intros Hpos. unfold sector_cagr. now rewrite Hpos. Qed.

Lemma sector_cagr_short (data : DataFrame F) (ticker : string) (column : Series F) :
  df_col data ticker = Returned column -> (length (dropna column) < 2)%nat ->
  sector_cagr data ticker = Returned nan.
Proof.
  intros Hcol Hlen. unfold sector_cagr.
  destruct (position ticker (columns data)) eqn:Hpos; [|reflexivity].
  rewrite Hcol. cbn [bind].
  apply Nat.ltb_lt in Hlen. now rewrite Hlen.
Qed.

(** What [get_sector_etf_performance] stores for a sector is what the loop
    body computed for its proxy. *)
Lemma performance_loop (data : DataFrame F) (etfs : dict string) :
  forall (acc perf : dict F),
    for_each (fun perf e =>
                cagr <- sector_cagr data (snd e) ;;
                Returned (dict_set perf (fst e) cagr)) etfs acc = Returned perf ->
    NoDup (dict_keys etfs) ->
    (forall sector ticker, In (sector, ticker) etfs ->
       exists cagr, sector_cagr data ticker = Returned cagr
                    /\ dict_get perf sector = Some cagr)
    /\ (forall sector, ~ In sector (dict_keys etfs) ->
          dict_get perf sector = dict_get acc sector).
Proof.
  induction etfs as [|[s t] etfs IH]; intros acc perf Hrun Hnd; simpl in *.
  - inversion Hrun; subst. split; [intros ? ? [] | reflexivity].
  - apply bind_returned in Hrun. destruct Hrun as [acc' [Hbody Hrest]].
    apply bind_returned in Hbody. destruct Hbody as [c [Hc Hacc']].
    inversion Hacc'; subst acc'. clear Hacc'.
    inversion Hnd as [|? ? Hnotin Hnd']; subst.
    destruct (IH _ _ Hrest Hnd') as [IH1 IH2]. split.
    + intros sector ticker [Heq|Hin].
      * inversion Heq; subst. exists c. split; [assumption|].
        rewrite (IH2 _ Hnotin). apply dict_get_set_same.
      * now apply IH1.
    + intros sector Hnot.
      rewrite IH2 by (intros Hin; apply Hnot; now right).
      apply dict_get_set_other. intros ->. apply Hnot. now left.
Qed.

Lemma get_sector_etf_performance_entry (etfs : dict string) (data : DataFrame F)
    (perf : dict F) (sector ticker : string) :
  get_sector_etf_performance etfs data = Returned perf ->
  NoDup (dict_keys etfs) -> In (sector, ticker) etfs ->
  exists cagr, sector_cagr data ticker = Returned cagr
               /\ dict_get perf sector = Some cagr.
Proof.
  intros Hrun Hnd Hin.
  destruct (performance_loop Hrun Hnd) as [Hloop _]. now apply Hloop.
Qed.

(** In every instance [calculate_cagr] raises on a series of one price:
    the first return is dropped and there is no last cumulative return. *)
Lemma calculate_cagr_single_price (d : Z) (p : F) :
  isnan nan = true -> calculate_cagr [(d, p)] = Raised IndexError.
Proof.
  intros Hnan. unfold calculate_cagr, daily_returns, dropna. simpl.
  unfold notna. simpl. now rewrite Hnan.
Qed.

Lemma analyze_gate (tickers : list string) (weights : list F) (adj_close : DataFrame F) :
  (length (rows adj_close) < 2)%nat ->
  analyze tickers weights adj_close = Raised StopException.
Proof.
  intros Hlen. unfold analyze. apply Nat.ltb_lt in Hlen.
  now rewrite Hlen, orb_true_r.
Qed.

End SectorPerformance.

(** C4 (as amended).  A sector proxy whose price column is missing, or has
    fewer than 2 prices once NaN is dropped, gets the CAGR NaN, a value that
    [isnan] tells apart from a computed [0.0], and that without raising;
    and the script does not compute portfolio or ticker CAGRs from a price
    table of fewer than 2 rows: it stops. *)
Theorem cagr_on_insufficient_data :
  (forall (F : Type) (PF : PyFloat F) (PP : PyPow F),
      (forall (data : DataFrame F) (ticker : string),
          position ticker (columns data) = None ->
          sector_cagr data ticker = Returned nan)
      /\ (forall (data : DataFrame F) (ticker : string) (column : Series F),
             df_col data ticker = Returned column ->
             (length (dropna column) < 2)%nat ->
             sector_cagr data ticker = Returned nan)
      /\ (forall (etfs : dict string) (data : DataFrame F) (perf : dict F)
                 (sector ticker : string),
             get_sector_etf_performance etfs data = Returned perf ->
             NoDup (dict_keys etfs) -> In (sector, ticker) etfs ->
             position ticker (columns data) = None ->
             dict_get perf sector = Some nan)
      /\ (forall (tickers : list string) (weights : list F) (adj_close : DataFrame F),
             (length (rows adj_close) < 2)%nat ->
             analyze tickers weights adj_close = Raised StopException))
  /\ (PrimFloat.is_nan (@nan float _) = true /\ PrimFloat.is_nan (@zero float _) = false)
  /\ (xisnan (@nan xreal _) = true /\ xisnan (@zero xreal _) = false).
Proof.
  split; [|split; split; reflexivity].
  intros F PF PP. split; [|split; [|split]].
  - intros data ticker. apply sector_cagr_missing.
  - intros data ticker column. apply sector_cagr_short.
  - intros etfs data perf sector ticker Hrun Hnd Hin Hpos.
    destruct (get_sector_etf_performance_entry Hrun Hnd Hin) as [c [Hc Hget]].
    rewrite (sector_cagr_missing Hpos) in Hc. inversion Hc; subst. exact Hget.
  - intros tickers weights adj_close. apply analyze_gate.
Qed.

Lemma cagr_on_insufficient_data_witness :
  let data : DataFrame xreal :=
    {| columns := ["NSEIT.NS"]; rows := [(0%Z, [XR 100])] |} in
  sector_cagr data "NSEBANK.NS" = Returned XNaN
  /\ sector_cagr data "NSEIT.NS" = Returned XNaN
  /\ analyze ["NSEIT.NS"] [XR 1] data = Raised StopException.
Proof.
  destruct cagr_on_insufficient_data as [Hgen _].
  destruct (Hgen xreal ideal ideal_pow) as (Hmissing & Hshort & _ & Hgate).
  split; [|split].
  - apply Hmissing. reflexivity.
  - eapply Hshort; [reflexivity | simpl; lia].
  - apply Hgate. simpl. lia.
Defined.

(** C4, as stated, fails for [calculate_cagr], which has no guard: on a
    series of one price it raises [IndexError] (there is no last cumulative
    return), and on two prices of the same date, a span of zero days, it
    raises [ZeroDivisionError]; so does the sector computation on a column
    of zero span. *)
Lemma calculate_cagr_raises :
  calculate_cagr [(0%Z, XR 100)] = Raised IndexError
  /\ calculate_cagr [(5%Z, XR 100); (5%Z, XR 110)] = Raised ZeroDivisionError
  /\ sector_cagr {| columns := ["NSEIT.NS"];
                    rows := [(5%Z, [XR 100]); (5%Z, [XR 110])] |} "NSEIT.NS"
     = Raised ZeroDivisionError.
Proof.
  split; [reflexivity|]. split.
  - unfold calculate_cagr, daily_returns, dropna, py_div. ideal_eval. reflexivity.
  - unfold sector_cagr, daily_returns, dropna, py_div. ideal_eval. reflexivity.
Qed.

(** ** Underperformers *)

Section Underperformers.
Context {F : Type} `{PyFloat F} `{PyPow F}.

Lemma underperformers_loop (adj_close : DataFrame F) (port : F) (ts : list string) :
  forall found : list (string * F),
    for_each (fun found t =>
                column <- df_col adj_close t ;;
                stock_cagr <- calculate_cagr column ;;
                Returned (if flt stock_cagr (fmul c0_3 port)
                          then found ++ [(t, stock_cagr)]
                          else found)) ts found
    = (cagrs <- map_m (fun t => column <- df_col adj_close t ;;
                                cagr <- calculate_cagr column ;;
                                Returned (t, cagr)) ts ;;
       Returned (found ++ find_underperformers cagrs port)).
Proof.
  induction ts as [|t ts IH]; intros found; simpl.
  - now rewrite app_nil_r.
  - destruct (df_col adj_close t) as [column|e]; simpl; [|reflexivity].
    destruct (calculate_cagr column) as [c|e]; simpl; [|reflexivity].
    rewrite IH.
    destruct (map_m _ ts) as [cagrs|e]; simpl; [|reflexivity].
    unfold find_underperformers, flagged. simpl.
    destruct (flt c (fmul c0_3 port)); [now rewrite <- app_assoc | reflexivity].
Qed.

Lemma underperformers_filter (adj_close : DataFrame F) (port : F) :
  underperformers adj_close port
  = (cagrs <- ticker_cagrs adj_close ;;
     Returned (find_underperformers cagrs port)).
Proof.
  unfold underperformers, ticker_cagrs. now rewrite underperformers_loop.
Qed.

End Underperformers.

(** C6.  The underperformers are the tickers whose CAGR is strictly less
    than 0.3 times the portfolio CAGR, the comparison taken as it stands; the
    pairs (ticker, CAGR) come in the order of the tickers.  With a negative
    portfolio CAGR the bound is less negative than the portfolio's own
    return: at portfolio CAGR -0.10, a ticker at -0.05 does better than the
    portfolio and is flagged. *)
Theorem underperformers_flagged :
  (forall (F : Type) (PF : PyFloat F) (PP : PyPow F)
          (adj_close : DataFrame F) (portfolio_cagr : F),
      underperformers adj_close portfolio_cagr
      = (cagrs <- ticker_cagrs adj_close ;;
         Returned (filter (fun tc => flt (snd tc) (fmul c0_3 portfolio_cagr)) cagrs))
      /\ (forall (cagrs : list (string * F)) (t : string) (c : F),
             In (t, c) (find_underperformers cagrs portfolio_cagr)
             <-> In (t, c) cagrs /\ flt c (fmul c0_3 portfolio_cagr) = true))
  /\ find_underperformers [("A", (-0.05)%float); ("B", (-0.02)%float)] (-0.10)%float
     = [("A", (-0.05)%float)].
Proof.
  split; [|reflexivity].
  intros F PF PP adj_close port. split.
  - apply underperformers_filter.
  - intros cagrs t c. unfold find_underperformers. rewrite filter_In.
    unfold flagged. simpl. reflexivity.
Qed.

(** ** The Sharpe ratio *)

Lemma float_zero_not_positive (v : float) :
  PrimFloat.eqb v 0 = true -> PrimFloat.ltb 0 v = false.
Proof.
  intros Hv.
  assert (Nv : PrimFloat.is_nan v = false).
  { destruct (PrimFloat.is_nan v) eqn:E; [|reflexivity].
    rewrite (eqb_nan_l 0 E) in Hv. discriminate. }
  rewrite (float_eqb_tie Nv (eq_refl : PrimFloat.is_nan 0 = false)) in Hv.
  apply andb_true_iff in Hv. destruct Hv as [_ Hv].
  now apply negb_true_iff in Hv.
Qed.

Lemma analyze_sharpe {F : Type} `{PyFloat F} `{PyPow F}
    (tickers : list string) (weights : list F) (adj_close : DataFrame F) (a : analysis) :
  analyze tickers weights adj_close = Returned a ->
  a_volatility a = port_volatility (a_returns a)
  /\ a_sharpe a = port_sharpe (a_cagr a) (a_volatility a).
Proof.
  unfold analyze. destruct (_ || _); [discriminate|].
  intros Hrun.
  apply bind_returned in Hrun. destruct Hrun as [w [_ Hrun]].
  apply bind_returned in Hrun. destruct Hrun as [r [_ Hrun]].
  apply bind_returned in Hrun. destruct Hrun as [c [_ Hrun]].
  apply bind_returned in Hrun. destruct Hrun as [u [_ Hrun]].
  inversion Hrun; subst. simpl. now split.
Qed.

(** C5 (as amended).  In [app.py] the Sharpe ratio of the portfolio is its
    CAGR divided by its annualized volatility when the volatility is
    positive, and NaN, the undefined value, otherwise, in particular when
    the volatility is zero; it is computed without any division that could
    raise.  ([risk_metrics.py] reports a different ratio under the same
    name: the mean daily return over the sample standard deviation of the
    daily returns, times the root of 252.) *)
Theorem port_sharpe_guarded :
  (forall (F : Type) (PF : PyFloat F) (cagr volatility : F),
      (flt zero volatility = true -> port_sharpe cagr volatility = fdiv cagr volatility)
      /\ (flt zero volatility = false -> port_sharpe cagr volatility = nan))
  /\ (forall (F : Type) (PF : PyFloat F) (PP : PyPow F) (tickers : list string)
             (weights : list F) (adj_close : DataFrame F) (a : analysis),
         analyze tickers weights adj_close = Returned a ->
         a_sharpe a = port_sharpe (a_cagr a) (port_volatility (a_returns a)))
  /\ (forall cagr volatility : float,
         PrimFloat.eqb volatility 0 = true ->
         PrimFloat.is_nan (port_sharpe cagr volatility) = true)
  /\ (forall cagr : xreal, port_sharpe cagr (XR 0) = XNaN)
  /\ (forall (F : Type) (PF : PyFloat F) (returns : Series F),
         sharpe_ratio returns
         = fmul (fdiv (mean (values returns)) (pd_std (values returns))) (fsqrt c252)).
Proof.
  split; [|split; [|split; [|split]]].
  - intros F PF cagr volatility. unfold port_sharpe.
    split; intros ->; reflexivity.
  - intros F PF PP tickers weights adj_close a Hrun.
    destruct (analyze_sharpe Hrun) as [Hv Hs]. now rewrite <- Hv.
  - intros cagr volatility Hzero. unfold port_sharpe.
    change (flt (@zero float _) volatility) with (PrimFloat.ltb 0 volatility).
    now rewrite (float_zero_not_positive Hzero).
  - intros cagr. unfold port_sharpe. ideal_eval. reflexivity.
  - reflexivity.
Qed.

Lemma port_sharpe_guarded_witness :
  port_sharpe 0.12%float 0.2%float = (0.12 / 0.2)%float
  /\ PrimFloat.is_nan (port_sharpe 0.12%float 0%float) = true.
Proof.
  destruct port_sharpe_guarded as (Hgen & _ & Hzero & _).
  destruct (Hgen float binary64 0.12%float 0.2%float) as [Hpos _].
  split.
  - apply Hpos. reflexivity.
  - apply Hzero. reflexivity.
Defined.

(** C5, as stated, fails for the Sharpe ratio of [risk_metrics.py]: for the
    prices 1, 2, 4 the daily returns are 1.0 and 1.0, their deviation is
    zero, and the ratio is the unguarded quotient [1.0 / 0.0], infinity:
    not the undefined value, and not a ratio of CAGR to volatility. *)
Lemma sharpe_ratio_unguarded :
  calculate_risk_metrics
    {| columns := ["AAPL"]; rows := [(0%Z, [1%float]); (1%Z, [2%float]); (2%Z, [4%float])] |}
    [1%float]
  = Returned {| rm_volatility := 0%float; rm_sharpe_ratio := infinity |}
  /\ PrimFloat.is_nan infinity = false.
Proof. split; reflexivity. Qed.

(** ** Volatility *)

Section Volatility.
Context {F : Type} `{PyFloat F}.

Lemma count_notna (l : list F) : Forall (fun x => notna x = true) l -> count l = length l.
Proof.
  intros Hl. unfold count. induction Hl as [|x l Hx Hl IH]; simpl.
  - reflexivity.
  - rewrite Hx. simpl. now rewrite IH.
Qed.

Lemma fillna0_notna (l : list F) : Forall (fun x => notna x = true) l -> fillna0 l = l.
Proof.
  intros Hl. unfold fillna0. induction Hl as [|x l Hx Hl IH]; simpl.
  - reflexivity.
  - unfold notna in Hx. apply negb_true_iff in Hx. now rewrite Hx, IH.
Qed.

Lemma squares_notna (avg : F) (l : list F) :
  Forall (fun x => notna x = true) l ->
  map (fun x => if isnan x then zero else fmul (fsub avg x) (fsub avg x)) l
  = map (fun x => fmul (fsub avg x) (fsub avg x)) l.
Proof.
  intros Hl. induction Hl as [|x l Hx Hl IH]; simpl.
  - reflexivity.
  - unfold notna in Hx. apply negb_true_iff in Hx. now rewrite Hx, IH.
Qed.

Hypothesis sqrt_nan : fsqrt nan = nan.

Lemma pd_std_sample (l : list F) :
  Forall (fun x => notna x = true) l -> pd_std l = sample_std l.
Proof.
  intros Hl. unfold pd_std, std, var, sample_std, deviations, nansum.
  rewrite (count_notna Hl), (fillna0_notna Hl), (squares_notna _ Hl).
  destruct (length l <=? 1)%nat eqn:E; [exact sqrt_nan | reflexivity].
Qed.

Lemma np_std_population (l : list F) :
  Forall (fun x => notna x = true) l -> np_std l = population_std l.
Proof.
  intros Hl. unfold np_std, std, var, population_std, deviations, nansum.
  rewrite (count_notna Hl), (fillna0_notna Hl), (squares_notna _ Hl).
  destruct (length l <=? 0)%nat eqn:E; [exact sqrt_nan|].
  now rewrite Nat.sub_0_r.
Qed.

End Volatility.

(** C9 (as amended).  For a daily return series (with no NaN in it), the
    annualized volatility that [app.py] reports for the portfolio is the
    sample standard deviation (divisor n-1) of the returns times the root
    of 252.  The volatility of [risk_metrics.py] is the population standard
    deviation (divisor n) times the root of 252: it calls [np.std], whose
    default is [ddof=0]. *)
Theorem volatility_annualized :
  forall (F : Type) (PF : PyFloat F),
    fsqrt nan = nan ->
    forall returns : Series F,
      Forall (fun x => notna x = true) (values returns) ->
      port_volatility returns = fmul (sample_std (values returns)) (fsqrt c252)
      /\ volatility returns = fmul (population_std (values returns)) (fsqrt c252).
Proof.
  intros F PF Hsqrt returns Hl. unfold port_volatility, volatility.
  now rewrite (pd_std_sample Hsqrt Hl), (np_std_population Hsqrt Hl).
Qed.

Lemma volatility_annualized_witness :
  let returns : Series float := [(1%Z, 1%float); (2%Z, 0.5%float)] in
  port_volatility returns = fmul (sample_std (values returns)) (fsqrt c252)
  /\ volatility returns = fmul (population_std (values returns)) (fsqrt c252).
Proof.
  apply (@volatility_annualized float binary64 eq_refl).
  repeat constructor.
Defined.

(** C9, as stated, fails for the volatility of [risk_metrics.py]: for the
    prices 1, 2, 3 the daily returns are 1.0 and 0.5, and the reported
    volatility is 3.9686..., the population deviation 0.25 times the root of
    252, not the 5.6124... of the sample deviation. *)
Lemma risk_metrics_volatility_is_population :
  let price_data : DataFrame float :=
    {| columns := ["AAPL"];
       rows := [(0%Z, [1%float]); (1%Z, [2%float]); (2%Z, [3%float])] |} in
  let returns : Series float := [(1%Z, 1%float); (2%Z, 0.5%float)] in
  portfolio_returns price_data [1%float] = Returned returns
  /\ volatility returns = 3.9686269665968861%float
  /\ fmul (sample_std (values returns)) (fsqrt c252) = 5.6124860801609131%float
  /\ fmul (population_std (values returns)) (fsqrt c252) = 3.9686269665968861%float.
Proof. repeat split; reflexivity. Qed.

(** ** Scenario shocks *)

Lemma ideal_sum_from (l : list R) (a : R) :
  fold_left (fadd (F := xreal)) (map XR l) (XR a) = XR (fold_left Rplus l a).
Proof.
  revert a. induction l as [|x l IH]; intros a; simpl.
  - reflexivity.
  - apply IH.
Qed.

Lemma ideal_np_sum (l : list R) : np_sum (map XR l) = XR (Rsum l).
Proof. unfold np_sum, Rsum. apply ideal_sum_from. Qed.

Lemma ideal_fillna0 (l : list R) : fillna0 (map XR l) = map XR l.
Proof. unfold fillna0. rewrite map_map. reflexivity. Qed.

Lemma ideal_count (l : list R) : count (map XR l) = length l.
Proof.
  unfold count. induction l as [|x l IH]; simpl; [reflexivity | now rewrite IH].
Qed.

Lemma ideal_mean (l : list R) :
  l <> [] -> mean (map XR l) = XR (Rsum l / INR (length l)).
Proof.
  intros Hl. unfold mean, nansum. rewrite ideal_count, ideal_fillna0, ideal_np_sum.
  destruct l as [|x l]; [congruence|].
  change (Nat.eqb (length (x :: l)) 0) with false. cbn [of_int ideal fdiv].
  rewrite <- INR_IZR_INZ. apply xdiv_real.
  apply not_0_INR. discriminate.
Qed.

Lemma Rsum_from_shift (c : R) (l : list R) (a : R) :
  fold_left Rplus (map (fun x => (x - c)%R) l) a
  = (fold_left Rplus l a - INR (length l) * c)%R.
Proof.
  revert a. induction l as [|x l IH]; intros a.
  - simpl. lra.
  - cbn [map fold_left]. rewrite IH.
    replace (fold_left Rplus l (a + (x - c))%R) with (fold_left Rplus l (a + x) - c)%R.
    + change (length (x :: l)) with (S (length l)). rewrite S_INR. lra.
    + clear IH. revert a x. induction l as [|y l IHl]; intros a x; simpl.
      * lra.
      * replace (a + (x - c) + y)%R with (a + y + (x - c))%R by lra.
        replace (a + x + y)%R with (a + y + x)%R by lra. apply IHl.
Qed.

Lemma Rsum_shift (c : R) (l : list R) :
  Rsum (map (fun x => (x - c)%R) l) = (Rsum l - INR (length l) * c)%R.
Proof. apply Rsum_from_shift. Qed.

Lemma values_real_series (l : list (Z * R)) :
  values (real_series l) = map XR (map snd l).
Proof. unfold values, real_series. now rewrite !map_map. Qed.

Lemma minus_const_real (c : R) (l : list (Z * R)) :
  minus_const (XR c) (real_series l)
  = real_series (map (fun e => (fst e, snd e - c)%R) l).
Proof. unfold minus_const, real_series. now rewrite !map_map. Qed.

Lemma shocked_returns_real (l : list (Z * R)) (scenario : string) :
  shocked_returns (real_series l) scenario
  = real_series (map (fun e => (fst e, snd e - shock_of scenario)%R) l).
Proof.
  destruct ideal_constants as (_ & _ & _ & H10 & H02 & _).
  unfold shocked_returns, shock_of. rewrite H10, H02.
  destruct (String.eqb scenario "Market Crash -10%");
    [apply minus_const_real|].
  destruct (String.eqb scenario "Interest Rate Hike +2%");
    [apply minus_const_real|].
  unfold real_series. rewrite map_map. apply map_ext.
  intros [d x]. simpl. f_equal. f_equal. lra.
Qed.

Lemma ideal_mean_map {A : Type} (f : A -> R) (l : list A) :
  l <> [] ->
  mean (map (fun x => XR (f x)) l) = XR (Rsum (map f l) / INR (length l)).
Proof.
  intros Hl. rewrite <- (map_map f XR), ideal_mean, length_map; [reflexivity|].
  destruct l; [congruence | discriminate].
Qed.

(** Over the reals, the mean of the shocked returns is the mean of the
    returns less the shock. *)
Lemma impact_real (l : list (Z * R)) (scenario : string) :
  l <> [] ->
  impact (apply_scenario (real_series l) scenario) = XR (- shock_of scenario).
Proof.
  intros Hl. unfold apply_scenario. cbn [impact].
  rewrite shocked_returns_real, !values_real_series, !map_map. cbn [fst snd].
  rewrite (ideal_mean_map (fun x => (snd x - shock_of scenario)%R) Hl).
  rewrite (ideal_mean_map snd Hl).
  rewrite <- (map_map snd (fun x => (x - shock_of scenario)%R)).
  rewrite Rsum_shift, length_map. cbn [fsub ideal xlift2].
  f_equal. assert (Hn : INR (length l) <> 0%R).
  { apply not_0_INR. destruct l; [congruence | discriminate]. }
  field. exact Hn.
Qed.

(** The portfolio returns that [run_stress_test] starts from are real
    numbers in the ideal instance: a row sum skips what is undefined. *)
Lemma ideal_nansum_real (l : list xreal) : exists r, nansum l = XR r.
Proof.
  unfold nansum, np_sum. change (@zero xreal _) with (XR 0).
  generalize 0%R. induction l as [|x l IH]; intros a; simpl.
  - now exists a.
  - destruct x as [|r]; simpl; apply IH.
Qed.

Lemma ideal_row_sums_real (df : DataFrame xreal) :
  exists l, df_sum_rows df = real_series l.
Proof.
  unfold df_sum_rows. induction (rows df) as [|[d r] rs [l IH]]; simpl.
  - now exists [].
  - destruct (ideal_nansum_real r) as [x Hx].
    exists ((d, x) :: l). simpl. now rewrite Hx, IH.
Qed.

Lemma shocked_returns_other {F : Type} `{PyFloat F} (base : Series F) (scenario : string) :
  scenario <> "Market Crash -10%" -> scenario <> "Interest Rate Hike +2%" ->
  shocked_returns base scenario = base.
Proof.
  intros H1 H2. unfold shocked_returns.
  destruct (String.eqb_spec scenario "Market Crash -10%"); [contradiction|].
  destruct (String.eqb_spec scenario "Interest Rate Hike +2%"); [contradiction|].
  reflexivity.
Qed.

Lemma shock_of_other (scenario : string) :
  scenario <> "Market Crash -10%" -> scenario <> "Interest Rate Hike +2%" ->
  shock_of scenario = 0%R.
Proof.
  intros H1 H2. unfold shock_of.
  destruct (String.eqb_spec scenario "Market Crash -10%"); [contradiction|].
  destruct (String.eqb_spec scenario "Interest Rate Hike +2%"); [contradiction|].
  reflexivity.
Qed.

Lemma run_stress_test_real (price_data : DataFrame xreal) (weights : list xreal)
    (scenario : string) (base : Series xreal) :
  portfolio_returns price_data weights = Returned base -> base <> [] ->
  exists s, run_stress_test price_data weights scenario = Returned s
            /\ impact s = XR (- shock_of scenario).
Proof.
  intros Hbase Hne. unfold run_stress_test. rewrite Hbase. cbn [bind].
  eexists. split; [reflexivity|].
  unfold portfolio_returns in Hbase.
  apply bind_returned in Hbase. destruct Hbase as [weighted [_ Hsum]].
  inversion Hsum as [Hrows].
  destruct (ideal_row_sums_real weighted) as [l Hl].
  rewrite Hl in *. apply impact_real.
  intros ->. apply Hne. now subst.
Qed.

(** C7 (as amended).  [run_stress_test] subtracts the scenario's shock from
    every daily return of the portfolio: 0.10 for "Market Crash -10%", 0.02
    for "Interest Rate Hike +2%", and nothing for any other scenario name;
    the summary's impact is the shocked mean return less the baseline mean
    return, in whatever arithmetic.  Over the reals that difference is the
    shock itself, negated, for every non-empty return series: -0.10 for the
    crash on the returns 0.01, 0.02, -0.01, whose shocked series is -0.09,
    -0.08, -0.11.  In binary64, the arithmetic of the code, the results are
    the rounded ones: on that example the impact is the float -0.10, and
    the shocked returns are the floats -0.09000000000000001, -0.08 and
    -0.11. *)
Theorem apply_scenario_shock :
  (forall (F : Type) (PF : PyFloat F) (base : Series F),
      shocked_returns base "Market Crash -10%"
      = map (fun e => (fst e, fsub (snd e) c0_10)) base
      /\ shocked_returns base "Interest Rate Hike +2%"
         = map (fun e => (fst e, fsub (snd e) c0_02)) base
      /\ (forall scenario,
             scenario <> "Market Crash -10%" ->
             scenario <> "Interest Rate Hike +2%" ->
             shocked_returns base scenario = base)
      /\ (forall scenario,
             let s := apply_scenario base scenario in
             original_avg_return s = mean (values base)
             /\ shocked_avg_return s = mean (values (shocked_returns base scenario))
             /\ impact s = fsub (shocked_avg_return s) (original_avg_return s)))
  /\ (shock_of "Market Crash -10%" = (10 / 100)%R
      /\ shock_of "Interest Rate Hike +2%" = (2 / 100)%R
      /\ (forall scenario,
             scenario <> "Market Crash -10%" ->
             scenario <> "Interest Rate Hike +2%" ->
             shock_of scenario = 0%R))
  /\ (forall (l : list (Z * R)) (scenario : string),
         shocked_returns (real_series l) scenario
         = real_series (map (fun e => (fst e, snd e - shock_of scenario)%R) l)
         /\ (l <> [] ->
             impact (apply_scenario (real_series l) scenario)
             = XR (- shock_of scenario)))
  /\ (forall (price_data : DataFrame xreal) (weights : list xreal)
             (scenario : string) (base : Series xreal),
         portfolio_returns price_data weights = Returned base -> base <> [] ->
         exists s, run_stress_test price_data weights scenario = Returned s
                   /\ impact s = XR (- shock_of scenario))
  /\ (let base := real_series [(0%Z, 1 / 100); (1%Z, 2 / 100); (2%Z, - (1 / 100))]%R in
      shocked_returns base "Market Crash -10%"
      = real_series [(0%Z, - (9 / 100)); (1%Z, - (8 / 100)); (2%Z, - (11 / 100))]%R
      /\ impact (apply_scenario base "Market Crash -10%") = XR (- (10 / 100)))
  /\ (let base : Series float :=
        [(0%Z, 0.01%float); (1%Z, 0.02%float); (2%Z, (-0.01)%float)] in
      impact (apply_scenario base "Market Crash -10%") = (-0.10)%float
      /\ values (shocked_returns base "Market Crash -10%")
         = [(-0.090000000000000011)%float; (-0.08)%float; (-0.11)%float]).
Proof.
  split; [|split; [|split; [|split; [|split]]]].
  - intros F PF base. split; [reflexivity|]. split; [reflexivity|]. split.
    + intros scenario. apply shocked_returns_other.
    + intros scenario. cbv zeta. repeat split; reflexivity.
  - split; [reflexivity|]. split; [reflexivity|]. apply shock_of_other.
  - intros l scenario. split; [apply shocked_returns_real | apply impact_real].
  - intros price_data weights scenario base. apply run_stress_test_real.
  - cbv zeta. split.
    + rewrite shocked_returns_real. unfold real_series. cbn [map fst snd].
      change (shock_of "Market Crash -10%") with (10 / 100)%R.
      repeat (f_equal; try lra).
    + rewrite impact_real by discriminate. reflexivity.
  - cbv zeta. split; reflexivity.
Qed.

Lemma apply_scenario_shock_witness :
  impact (apply_scenario (real_series [(0%Z, 5%R)]) "Interest Rate Hike +2%")
  = XR (- shock_of "Interest Rate Hike +2%")
  /\ shocked_returns (real_series [(0%Z, 5%R)]) "Baseline" = real_series [(0%Z, 5%R)].
Proof.
  destruct apply_scenario_shock as (Hgen & _ & Hreal & _).
  split.
  - apply (proj2 (Hreal [(0%Z, 5%R)] "Interest Rate Hike +2%")). discriminate.
  - apply (proj1 (proj2 (proj2 (Hgen xreal ideal (real_series [(0%Z, 5%R)]))))); discriminate.
Defined.

(** C7, as stated, fails in the arithmetic that the code runs in.  The
    shocked series of the example starts with the float
    -0.09000000000000001, which is not the float -0.09; the impact of the
    crash on the single return -0.05 is -0.10000000000000002, not -0.10;
    and on the prices 100, 110, 121 the impact of the rate hike is
    -0.020000000000000004, not -0.02. *)
Lemma apply_scenario_impact_is_rounded :
  let base : Series float :=
    [(0%Z, 0.01%float); (1%Z, 0.02%float); (2%Z, (-0.01)%float)] in
  values (shocked_returns base "Market Crash -10%")
  = [(-0.090000000000000011)%float; (-0.08)%float; (-0.11)%float]
  /\ PrimFloat.eqb (-0.090000000000000011) (-0.09) = false
  /\ apply_scenario [(0%Z, (-0.05)%float)] "Market Crash -10%"
     = {| original_avg_return := (-0.05)%float;
          shocked_avg_return := (-0.15000000000000002)%float;
          impact := (-0.10000000000000002)%float |}
  /\ PrimFloat.eqb (-0.10000000000000002) (-0.10) = false
  /\ run_stress_test
       {| columns := ["TCS.NS"];
          rows := [(0%Z, [100%float]); (1%Z, [110%float]); (2%Z, [121%float])] |}
       [1%float] "Interest Rate Hike +2%"
     = Returned {| original_avg_return := 0.10000000000000009%float;
                   shocked_avg_return := 0.080000000000000085%float;
                   impact := (-0.020000000000000004)%float |}
  /\ PrimFloat.eqb (-0.020000000000000004) (-0.02) = false.
Proof. cbv zeta. repeat split; reflexivity. Qed.

(** ** CAGR over the reals *)

Section IdealCagr.

Lemma real_pct_from_values (prev : R) (l : list (Z * R)) :
  map snd (real_pct_from prev l) = real_returns_from prev (map snd l).
Proof.
  revert prev. induction l as [|[d p] l IH]; intros prev; simpl.
  - reflexivity.
  - now rewrite IH.
Qed.

Lemma pct_change_from_real (prev : R) (l : list (Z * R)) :
  prev <> 0%R -> Forall (fun e => snd e <> 0%R) l ->
  pct_change_from (XR prev) (real_series l) = real_series (real_pct_from prev l).
Proof.
  intros Hprev Hl. revert prev Hprev.
  induction Hl as [|[d p] l Hp Hl IH]; intros prev Hprev; simpl.
  - reflexivity.
  - simpl in Hp. rewrite (IH p Hp). cbn [fdiv ideal].
    rewrite xdiv_real by assumption. reflexivity.
Qed.

Lemma dropna_real (l : list (Z * R)) : dropna (real_series l) = real_series l.
Proof.
  unfold dropna, real_series. induction l as [|[d x] l IH]; simpl.
  - reflexivity.
  - now rewrite IH.
Qed.

Lemma daily_returns_real (d : Z) (p : R) (l : list (Z * R)) :
  p <> 0%R -> Forall (fun e => snd e <> 0%R) l ->
  daily_returns (real_series ((d, p) :: l)) = real_series (real_pct_from p l).
Proof.
  intros Hp Hl. unfold daily_returns. cbn [real_series map pct_change fst snd].
  change (map (fun e : Z * R => (fst e, XR (snd e))) l) with (real_series l).
  rewrite (pct_change_from_real Hp Hl).
  unfold dropna. cbn [filter snd notna isnan ideal xisnan negb].
  apply dropna_real.
Qed.

Lemma one_plus_real (l : list (Z * R)) :
  one_plus (real_series l) = real_series (map (fun e => (fst e, (1 + snd e)%R)) l).
Proof. unfold one_plus, real_series. rewrite !map_map. reflexivity. Qed.

Lemma py_last_cons {A : Type} (x : A) (l : list A) :
  l <> [] -> py_last (x :: l) = py_last l.
Proof.
  intros Hl. unfold py_last. simpl.
  destruct (rev l) as [|y ys] eqn:E; [|reflexivity].
  apply (f_equal (@rev A)) in E. rewrite rev_involutive in E. contradiction.
Qed.

Lemma cumprod_from_real_step (a : R) (d : Z) (x : R) (l : list (Z * R)) :
  values (cumprod_from (XR a) (real_series ((d, x) :: l)))
  = XR (a * x) :: values (cumprod_from (XR (a * x)) (real_series l)).
Proof. reflexivity. Qed.

Lemma cumprod_from_real_nonempty (a : R) (l : list (Z * R)) :
  l <> [] -> values (cumprod_from (XR a) (real_series l)) <> [].
Proof.
  destruct l as [|[d x] l]; [congruence|]. intros _.
  rewrite cumprod_from_real_step. discriminate.
Qed.

Lemma cumprod_from_real_last (a : R) (l : list (Z * R)) :
  l <> [] ->
  py_last (values (cumprod_from (XR a) (real_series l)))
  = Returned (XR (fold_left Rmult (map snd l) a)).
Proof.
  revert a. induction l as [|[d x] l IH]; intros a Hl; [congruence|].
  rewrite cumprod_from_real_step. destruct l as [|e l].
  - reflexivity.
  - rewrite py_last_cons by (apply cumprod_from_real_nonempty; discriminate).
    rewrite IH by discriminate. reflexivity.
Qed.

Lemma cumprod_real_last (l : list (Z * R)) :
  l <> [] ->
  py_last (values (cumprod (real_series l))) = Returned (XR (Rproduct (map snd l))).
Proof.
  intros Hl. destruct l as [|[d x] l]; [congruence|].
  change (values (cumprod (real_series ((d, x) :: l))))
    with (XR x :: values (cumprod_from (XR x) (real_series l))).
  unfold Rproduct. cbn [map snd fold_left]. rewrite Rmult_1_l.
  destruct l as [|e l]; [reflexivity|].
  rewrite py_last_cons by (apply cumprod_from_real_nonempty; discriminate).
  apply cumprod_from_real_last. discriminate.
Qed.

Lemma real_pct_from_nonempty (prev : R) (l : list (Z * R)) :
  l <> [] -> real_pct_from prev l <> [].
Proof. destruct l as [|[d p] l]; [congruence | discriminate]. Qed.

Lemma fold_Rmult_pos (l : list R) (a : R) :
  (0 < a)%R -> Forall (fun x => (0 < x)%R) l -> (0 < fold_left Rmult l a)%R.
Proof.
  intros Ha Hl. revert a Ha. induction Hl as [|x l Hx Hl IH]; intros a Ha; simpl.
  - assumption.
  - apply IH. now apply Rmult_lt_0_compat.
Qed.

Lemma growth_factors_pos (prev : R) (prices : list R) :
  (0 < prev)%R -> Forall (fun p => (0 < p)%R) prices ->
  Forall (fun x => (0 < x)%R) (map (fun r => (1 + r)%R) (real_returns_from prev prices)).
Proof.
  intros Hprev Hl. revert prev Hprev.
  induction Hl as [|p l Hp Hl IH]; intros prev Hprev; simpl.
  - constructor.
  - constructor; [|now apply IH].
    replace (1 + (p / prev - 1))%R with (p / prev)%R by lra.
    now apply Rdiv_lt_0_compat.
Qed.

Lemma index_real_series (l : list (Z * R)) : index (real_series l) = map fst l.
Proof. unfold index, real_series. now rewrite map_map. Qed.

Lemma py_last_last {A : Type} (l : list A) (d : A) :
  l <> [] -> py_last l = Returned (last l d).
Proof.
  intros Hl. unfold py_last.
  destruct (exists_last Hl) as [l' [x ->]].
  rewrite rev_unit, last_last. reflexivity.
Qed.

Lemma py_first_hd {A : Type} (l : list A) (d : A) :
  l <> [] -> py_first l = Returned (hd d l).
Proof. destruct l; [congruence | reflexivity]. Qed.

(** Over the reals, for prices that are positive, at least two of them,
    over a span of days that is not zero. *)
Lemma calculate_cagr_real (l : list (Z * R)) :
  (2 <= length l)%nat -> Forall (fun e => (0 < snd e)%R) l ->
  span_days (map fst l) <> 0%Z ->
  calculate_cagr (real_series l)
  = Returned (XR (Rpower (cumulative_return_factor (map snd l))
                         (36525 / 100 / IZR (span_days (map fst l))) - 1)).
Proof.
  intros Hlen Hpos Hspan.
  destruct l as [|[d0 p0] l]; [simpl in Hlen; lia|].
  destruct l as [|e1 l]; [simpl in Hlen; lia|].
  inversion Hpos as [|? ? Hp0 Hrest]; subst. simpl in Hp0.
  assert (Hnz : Forall (fun e => snd e <> 0%R) (e1 :: l)).
  { eapply Forall_impl; [|exact Hrest]. intros a Ha. simpl in Ha. lra. }
  unfold calculate_cagr.
  rewrite daily_returns_real by (try assumption; lra).
  rewrite one_plus_real.
  rewrite index_real_series.
  rewrite (py_last_last (l := map fst ((d0, p0) :: e1 :: l)) 0%Z) by discriminate.
  rewrite (py_first_hd (l := map fst ((d0, p0) :: e1 :: l)) 0%Z) by discriminate.
  cbn [bind].
  rewrite cumprod_real_last
    by (destruct e1; discriminate).
  cbn [bind].
  fold (span_days (map fst ((d0, p0) :: e1 :: l))).
  set (days := span_days (map fst ((d0, p0) :: e1 :: l))) in *.
  assert (Hdays : IZR days <> 0%R) by (apply not_0_IZR; exact Hspan).
  destruct ideal_constants as (Hzero & Hone & _ & _ & _ & H365 & _).
  unfold py_div. rewrite H365, Hone, Hzero. cbn [of_int ideal fdiv].
  rewrite xdiv_real by lra.
  rewrite xeq_false
    by (intros Heq; apply Hdays;
        apply (Rmult_eq_reg_r (/ (36525 / 100))); [lra | apply Rinv_neq_0_compat; lra]).
  cbn [bind fdiv ideal]. rewrite xdiv_real
    by (intros Heq; apply Hdays;
        apply (Rmult_eq_reg_r (/ (36525 / 100))); [lra | apply Rinv_neq_0_compat; lra]).
  rewrite map_map. cbn [snd fst].
  rewrite <- (map_map snd (fun r => (1 + r)%R)), real_pct_from_values.
  cbn [fpow ideal_pow].
  assert (HG : (0 < Rproduct (map (fun r => (1 + r)%R)
                                  (real_returns_from p0 (map snd (e1 :: l)))))%R).
  { apply fold_Rmult_pos; [lra|]. apply growth_factors_pos; [assumption|].
    apply Forall_map. exact Hrest. }
  rewrite xpow_pos by exact HG.
  cbn [fsub ideal xlift2]. unfold cumulative_return_factor.
  cbn [map snd real_returns].
  replace (1 / (IZR days / (36525 / 100)))%R with (36525 / 100 / IZR days)%R
    by (field; exact Hdays).
  reflexivity.
Qed.

End IdealCagr.

(** ** Constant price series *)

Section ConstantSeries.
Context {F : Type} `{PyFloat F} `{PyPow F}.
Variable p : F.

(** The facts of arithmetic that the computation on a constant series
    uses; they hold in both instances. *)
Hypothesis div_self : fdiv p p = one.
Hypothesis sub_one_one : fsub one one = zero.
Hypothesis add_one_zero : fadd one zero = one.
Hypothesis mul_one_one : fmul one one = one.
Hypothesis isnan_nan : isnan nan = true.
Hypothesis isnan_zero : isnan zero = false.
Hypothesis isnan_one : isnan one = false.

Lemma pct_change_from_constant (ds : list Z) :
  pct_change_from p (constant_series p ds) = constant_series zero ds.
Proof.
  induction ds as [|d ds IH]; simpl.
  - reflexivity.
  - destruct (isnan p); now rewrite IH, div_self, sub_one_one.
Qed.

Lemma dropna_constant_zero (ds : list Z) :
  dropna (constant_series zero ds) = constant_series zero ds.
Proof.
  unfold dropna. induction ds as [|d ds IH]; simpl.
  - reflexivity.
  - unfold notna at 1. simpl. now rewrite isnan_zero, IH.
Qed.

Lemma daily_returns_constant (d : Z) (ds : list Z) :
  daily_returns (constant_series p (d :: ds)) = constant_series zero ds.
Proof.
  unfold daily_returns. simpl. rewrite pct_change_from_constant.
  unfold dropna. simpl. unfold notna at 1. simpl. rewrite isnan_nan. simpl.
  apply dropna_constant_zero.
Qed.

Lemma one_plus_constant_zero (ds : list Z) :
  one_plus (constant_series zero ds) = constant_series one ds.
Proof.
  unfold one_plus, constant_series. rewrite map_map. simpl.
  apply map_ext. intros d. now rewrite add_one_zero.
Qed.

Lemma cumprod_from_ones (ds : list Z) :
  cumprod_from one (constant_series one ds) = constant_series one ds.
Proof.
  induction ds as [|d ds IH]; simpl.
  - reflexivity.
  - now rewrite isnan_one, mul_one_one, IH.
Qed.

Lemma cumprod_ones (ds : list Z) :
  cumprod (constant_series one ds) = constant_series one ds.
Proof.
  destruct ds as [|d ds]; simpl.
  - reflexivity.
  - now rewrite isnan_one, cumprod_from_ones.
Qed.

Lemma last_constant (x : F) (ds : list Z) :
  ds <> [] -> py_last (values (constant_series x ds)) = Returned x.
Proof.
  intros Hds. unfold values, constant_series. rewrite map_map. simpl.
  unfold py_last. rewrite <- map_rev.
  destruct (rev ds) as [|d r] eqn:E; [|reflexivity].
  apply (f_equal (@rev Z)) in E. rewrite rev_involutive in E. contradiction.
Qed.

Lemma index_constant (x : F) (ds : list Z) : index (constant_series x ds) = ds.
Proof. unfold index, constant_series. rewrite map_map. simpl. apply map_id. Qed.

Hypothesis pow_one : forall y, fpow one y = one.

Lemma calculate_cagr_constant (d0 d1 : Z) (ds : list Z) :
  feq (fdiv (of_int (span_days (d0 :: d1 :: ds))) c365_25) zero = false ->
  calculate_cagr (constant_series p (d0 :: d1 :: ds)) = Returned zero.
Proof.
  intros Hyears. unfold calculate_cagr.
  rewrite daily_returns_constant, one_plus_constant_zero, cumprod_ones.
  rewrite index_constant.
  rewrite (py_last_last (l := d0 :: d1 :: ds) 0%Z) by discriminate.
  cbn [py_first bind]. rewrite last_constant by discriminate. cbn [bind].
  change (last (d0 :: d1 :: ds) 0 - d0)%Z with (span_days (d0 :: d1 :: ds)).
  unfold py_div. rewrite Hyears. cbn [bind].
  now rewrite pow_one, sub_one_one.
Qed.

(** The volatility of a series of zero returns. *)
Hypothesis add_zero_zero : fadd zero zero = zero.
Hypothesis sub_zero_zero : fsub zero zero = zero.
Hypothesis mul_zero_zero : fmul zero zero = zero.
Hypothesis sqrt_zero : fsqrt zero = zero.
Hypothesis mul_zero_sqrt252 : fmul zero (fsqrt c252) = zero.

Lemma np_sum_zeros (l : list F) :
  Forall (fun x => x = zero) l -> np_sum l = zero.
Proof.
  intros Hl. unfold np_sum. induction Hl as [|x l Hx Hl IH]; simpl.
  - reflexivity.
  - subst x. now rewrite add_zero_zero.
Qed.

Lemma values_constant (x : F) (ds : list Z) :
  values (constant_series x ds) = map (fun _ => x) ds.
Proof. unfold values, constant_series. now rewrite map_map. Qed.

Lemma count_zeros (ds : list Z) : count (map (fun _ => zero) ds) = length ds.
Proof.
  unfold count. induction ds as [|d ds IH]; simpl.
  - reflexivity.
  - unfold notna at 1. rewrite isnan_zero. simpl. now rewrite IH.
Qed.

Lemma port_volatility_zeros (ds : list Z) :
  (2 <= length ds)%nat ->
  fdiv zero (of_int (Z.of_nat (length ds))) = zero ->
  fdiv zero (of_int (Z.of_nat (length ds - 1))) = zero ->
  port_volatility (constant_series zero ds) = zero.
Proof.
  intros Hlen Hn Hn1. unfold port_volatility, pd_std, std, var.
  rewrite values_constant, count_zeros.
  destruct (length ds <=? 1)%nat eqn:E; [apply Nat.leb_le in E; lia|].
  assert (Hsum : nansum (map (fun _ : Z => zero) ds) = zero).
  { unfold nansum, fillna0. rewrite map_map. apply np_sum_zeros.
    apply Forall_forall. intros x Hx. apply in_map_iff in Hx.
    destruct Hx as [d [<- _]]. now rewrite isnan_zero. }
  rewrite Hsum, Hn, map_map.
  rewrite np_sum_zeros.
  - now rewrite Hn1, sqrt_zero, mul_zero_sqrt252.
  - apply Forall_forall. intros x Hx. apply in_map_iff in Hx.
    destruct Hx as [d [<- _]].
    now rewrite isnan_zero, sub_zero_zero, mul_zero_zero.
Qed.

End ConstantSeries.

(** ** Binary64 arithmetic on exact values *)

Lemma div_eucl_shift (m : positive) :
  Z.div_eucl (Z.shiftl (Zpos m) 53) (Zpos m) = (Z.shiftl 1 53, 0)%Z.
Proof.
  rewrite (Z.shiftl_mul_pow2 (Zpos m)) by lia.
  pose proof (Z.div_mul (2 ^ 53) (Zpos m) ltac:(lia)) as Hq.
  pose proof (Z.mod_mul (2 ^ 53) (Zpos m) ltac:(lia)) as Hr.
  rewrite Z.mul_comm in Hq, Hr.
  unfold Z.div, Z.modulo in Hq, Hr.
  destruct (Z.div_eucl (Zpos m * 2 ^ 53) (Zpos m)) as [q r].
  subst. reflexivity.
Qed.

Lemma SFdiv_self (s : bool) (m : positive) (e : Z) :
  SFdiv prec emax (S754_finite s m e) (S754_finite s m e) = Prim2SF 1.
Proof.
  unfold SFdiv, SFdiv_core_binary.
  replace (Zdigits2 (Z.pos m) + e - (Zdigits2 (Z.pos m) + e))%Z with 0%Z by lia.
  replace (e - e)%Z with 0%Z by lia.
  change (Z.min (fexp prec emax 0) 0) with (-53)%Z.
  change (0 - -53)%Z with 53%Z. cbv beta iota zeta.
  rewrite div_eucl_shift.
  replace (xorb s s) with false by (now destruct s).
  unfold new_location. destruct (Z.even (Z.pos m)); reflexivity.
Qed.

(** A finite float other than zero, divided by itself, is exactly 1. *)
Lemma float_div_self (p : float) :
  finite_nonzero p -> PrimFloat.div p p = 1%float.
Proof.
  intros (s & m & e & Hp). apply Prim2SF_inj.
  rewrite FloatAxioms.div_spec, Hp. apply SFdiv_self.
Qed.

Lemma binary_round_aux_exact (mz : positive) (ez : Z) :
  Zpos (digits2_pos mz) = 53%Z -> (-1074 <= ez <= 971)%Z ->
  binary_round_aux prec emax false (Zpos mz) ez loc_Exact = S754_finite false mz ez.
Proof.
  intros Hd He. unfold binary_round_aux, shr_fexp.
  cbn [Zdigits2 shr_record_of_loc]. rewrite Hd.
  assert (Hf : (fexp prec emax (53 + ez) - ez = 0)%Z).
  { unfold fexp, emin, prec, emax. lia. }
  rewrite Hf.
  cbn [shr shr_m loc_of_shr_record round_nearest_even Zdigits2 shr_record_of_loc].
  rewrite Hd, Hf. cbn [shr shr_m].
  replace (ez <=? emax - prec)%Z with true; [reflexivity|].
  symmetry. apply Z.leb_le. unfold emax, prec. lia.
Qed.

Lemma digits2_pos_iter_xO (q d : positive) :
  digits2_pos (Pos.iter xO q d) = (digits2_pos q + d)%positive.
Proof.
  induction d as [|d IH] using Pos.peano_ind.
  - simpl. lia.
  - rewrite Pos.iter_succ. simpl. rewrite IH. lia.
Qed.

Lemma digits2_pos_bound (q : positive) :
  (Zpos q < 2 ^ 53)%Z -> (Zpos (digits2_pos q) <= 53)%Z.
Proof.
  intros Hq.
  assert (Hn : forall (n : nat) (q : positive),
             (Zpos q < 2 ^ Z.of_nat n)%Z -> (Zpos (digits2_pos q) <= Z.of_nat n)%Z).
  { clear. induction n as [|n IH]; intros q Hq.
    - simpl in Hq. lia.
    - rewrite Nat2Z.inj_succ, Z.pow_succ_r in Hq by lia.
      destruct q as [q|q|]; simpl; try lia.
      + specialize (IH q). lia.
      + specialize (IH q). lia. }
  apply (Hn 53%nat). exact Hq.
Qed.

Lemma binary_round_small (q : positive) :
  (Zpos (digits2_pos q) <= 53)%Z ->
  exists m e, binary_round prec emax false q 0 = S754_finite false m e.
Proof.
  intros Hq. unfold binary_round.
  assert (Hf : fexp prec emax (Zpos (digits2_pos q) + 0)
               = (Zpos (digits2_pos q) - 53)%Z).
  { unfold fexp, emin, prec, emax. lia. }
  rewrite Hf. unfold shl_align. rewrite Z.sub_0_r.
  destruct (Zpos (digits2_pos q) - 53)%Z as [|d|d] eqn:E; try lia.
  - rewrite binary_round_aux_exact; [eauto | lia | lia].
  - rewrite binary_round_aux_exact; [eauto | | lia].
    rewrite digits2_pos_iter_xO. lia.
Qed.

(** A positive integer below [2^53] converts to a positive finite float. *)
Lemma float_of_Z_positive (z : Z) :
  (0 < z < 2 ^ 53)%Z ->
  exists m e, Prim2SF (float_of_Z z) = S754_finite false m e.
Proof.
  intros Hz. destruct z as [|q|q]; try lia. unfold float_of_Z.
  rewrite FloatAxioms.of_uint63_spec, Uint63.of_Z_spec.
  rewrite Z.mod_small.
  - apply binary_round_small. apply digits2_pos_bound. lia.
  - unfold wB. simpl. split; [lia|].
    apply Z.lt_trans with (2 ^ 53)%Z; [lia | reflexivity].
Qed.

Lemma float_zero_div_count (z : Z) :
  (0 < z < 2 ^ 53)%Z -> PrimFloat.div 0 (float_of_Z z) = 0%float.
Proof.
  intros Hz. destruct (float_of_Z_positive Hz) as (m & e & Hf).
  apply Prim2SF_inj. rewrite FloatAxioms.div_spec, Hf. reflexivity.
Qed.

(** [r * nan] is NaN, and so is [x / nan]. *)
Lemma float_mul_nan (x : float) : PrimFloat.mul x PrimFloat.nan = PrimFloat.nan.
Proof.
  apply Prim2SF_inj. rewrite FloatAxioms.mul_spec.
  change (Prim2SF PrimFloat.nan) with S754_nan.
  now destruct (Prim2SF x) as [s|s| |s m e].
Qed.

(** Division by a zero: NaN or an infinity, never an exception. *)
Lemma float_div_by_zero (x z : float) :
  PrimFloat.eqb z 0 = true ->
  PrimFloat.is_nan (PrimFloat.div x z) = true
  \/ PrimFloat.is_infinity (PrimFloat.div x z) = true.
Proof.
  intros Hz. unfold PrimFloat.is_nan, PrimFloat.is_infinity.
  rewrite !FloatAxioms.eqb_spec, FloatAxioms.abs_spec, FloatAxioms.div_spec.
  rewrite FloatAxioms.eqb_spec in Hz.
  change (Prim2SF 0) with (S754_zero false) in Hz.
  change (Prim2SF infinity) with (S754_infinity false).
  destruct (Prim2SF z) as [sz|sz| |sz mz ez]; simpl in Hz;
    try discriminate; try (destruct sz; discriminate).
  destruct (Prim2SF x) as [s|s| |s m e]; simpl; auto.
Qed.

Lemma all_from_spec (f : Z -> bool) (fuel : nat) :
  forall z, all_from f fuel z = true ->
            forall d, (z <= d < z + Z.of_nat fuel)%Z -> f d = true.
Proof.
  induction fuel as [|k IH]; intros z Hall d Hd.
  - simpl in Hd. lia.
  - cbn [all_from] in Hall. apply andb_true_iff in Hall. destruct Hall as [Hz Hk].
    destruct (Z.eq_dec d z) as [->|Hne]; [assumption|].
    apply (IH (z + 1)%Z Hk). lia.
Qed.

(** The span in years is not zero when the span in days is positive (for
    spans of up to 100000 days, checked one by one). *)
Lemma years_nonzero (days : Z) :
  (0 < days <= 100000)%Z ->
  PrimFloat.eqb (PrimFloat.div (float_of_Z days) 365.25) 0 = false.
Proof.
  intros Hd.
  assert (Hall : all_from (fun d => negb (PrimFloat.eqb
                                            (PrimFloat.div (float_of_Z d) 365.25) 0))
                          (Z.to_nat 100000) 1 = true) by (vm_compute; reflexivity).
  apply negb_true_iff. apply (all_from_spec Hall). lia.
Qed.

(** ** Constant price series, in the two instances *)

Lemma ideal_one : @one xreal _ = XR 1.
Proof. reflexivity. Qed.

Lemma ideal_zero : @zero xreal _ = XR 0.
Proof. reflexivity. Qed.

Lemma ideal_years_nonzero (days : Z) :
  days <> 0%Z -> feq (fdiv (of_int days) (@c365_25 xreal _)) zero = false.
Proof.
  intros Hd. destruct ideal_constants as (_ & _ & _ & _ & _ & H365 & _).
  rewrite H365, ideal_zero. cbn [of_int ideal fdiv feq].
  assert (Hr : IZR days <> 0%R) by (now apply not_0_IZR).
  rewrite xdiv_real by lra. apply xeq_false.
  intros Heq. apply Hr.
  apply (Rmult_eq_reg_r (/ (36525 / 100))); [lra | apply Rinv_neq_0_compat; lra].
Qed.

Lemma calculate_cagr_constant_ideal (p : R) (d0 d1 : Z) (ds : list Z) :
  p <> 0%R -> span_days (d0 :: d1 :: ds) <> 0%Z ->
  calculate_cagr (constant_series (XR p) (d0 :: d1 :: ds)) = Returned (XR 0).
Proof.
  intros Hp Hspan. rewrite <- ideal_zero.
  apply calculate_cagr_constant; try reflexivity.
  - rewrite ideal_one. cbn [fdiv ideal]. rewrite xdiv_real by assumption.
    f_equal. now field.
  - rewrite ideal_one, ideal_zero. cbn [fsub ideal xlift2]. f_equal. lra.
  - rewrite ideal_one, ideal_zero. cbn [fadd ideal xlift2]. f_equal. lra.
  - rewrite ideal_one. cbn [fmul ideal xlift2]. f_equal. lra.
  - intros y. rewrite ideal_one. cbn [fpow ideal_pow]. destruct y as [|y].
    + unfold xpow. destruct (Req_EM_T 1 1); [reflexivity | congruence].
    + rewrite xpow_pos by lra. now rewrite Rpower_one.
  - now apply ideal_years_nonzero.
Qed.

Lemma ideal_sqrt_zero : fsqrt (XR 0) = XR 0.
Proof. cbn [fsqrt ideal]. rewrite xsqrt_real by lra. now rewrite sqrt_0. Qed.

Lemma ideal_zero_div_count (k : nat) :
  (1 <= k)%nat -> fdiv (@zero xreal _) (of_int (Z.of_nat k)) = zero.
Proof.
  intros Hk. rewrite ideal_zero. cbn [of_int ideal fdiv].
  assert (Hr : IZR (Z.of_nat k) <> 0%R) by (apply not_0_IZR; lia).
  rewrite xdiv_real by assumption. f_equal. now field.
Qed.

Lemma port_volatility_constant_ideal (p : R) (d0 d1 d2 : Z) (ds : list Z) :
  p <> 0%R ->
  port_volatility (daily_returns (constant_series (XR p) (d0 :: d1 :: d2 :: ds)))
  = XR 0.
Proof.
  intros Hp.
  rewrite (daily_returns_constant (p := XR p)); try reflexivity.
  - rewrite <- ideal_zero. apply port_volatility_zeros; try reflexivity.
    + rewrite ideal_zero. cbn [fadd ideal xlift2]. f_equal. lra.
    + rewrite ideal_zero. cbn [fsub ideal xlift2]. f_equal. lra.
    + rewrite ideal_zero. cbn [fmul ideal xlift2]. f_equal. lra.
    + rewrite ideal_zero. apply ideal_sqrt_zero.
    + rewrite ideal_zero. unfold c252. cbn [of_int ideal fsqrt].
      rewrite xsqrt_real by lra. cbn [fmul ideal xlift2]. f_equal. lra.
    + simpl. lia.
    + apply ideal_zero_div_count. simpl. lia.
    + apply ideal_zero_div_count. simpl. lia.
  - rewrite ideal_one. cbn [fdiv ideal]. rewrite xdiv_real by assumption.
    f_equal. now field.
  - rewrite ideal_one, ideal_zero. cbn [fsub ideal xlift2]. f_equal. lra.
Qed.

Lemma calculate_cagr_constant_binary64 (PP : PyPow float) (p : float)
    (d0 d1 : Z) (ds : list Z) :
  (forall y, fpow 1%float y = 1%float) ->
  finite_nonzero p ->
  (0 < span_days (d0 :: d1 :: ds) <= 100000)%Z ->
  calculate_cagr (constant_series p (d0 :: d1 :: ds)) = Returned 0%float.
Proof.
  intros Hpow Hp Hspan.
  change 0%float with (@zero float binary64).
  apply (calculate_cagr_constant (p := p)); try reflexivity.
  - now apply float_div_self.
  - exact Hpow.
  - now apply years_nonzero.
Qed.

Lemma port_volatility_constant_binary64 (p : float) (d0 d1 d2 : Z) (ds : list Z) :
  finite_nonzero p ->
  (Z.of_nat (length ds) + 2 < 2 ^ 53)%Z ->
  port_volatility (daily_returns (constant_series p (d0 :: d1 :: d2 :: ds)))
  = 0%float.
Proof.
  intros Hp Hlen.
  change 0%float with (@zero float binary64).
  rewrite (daily_returns_constant (p := p)); try reflexivity.
  - apply (port_volatility_zeros (F := float)); try reflexivity.
    + simpl. lia.
    + apply float_zero_div_count. simpl length. lia.
    + apply float_zero_div_count. simpl length. lia.
  - now apply float_div_self.
Qed.

Lemma port_volatility_two_constant_binary64 (p : float) (d0 d1 : Z) :
  finite_nonzero p ->
  PrimFloat.is_nan (port_volatility (daily_returns (constant_series p [d0; d1])))
  = true.
Proof.
  intros Hp.
  rewrite (daily_returns_constant (p := p)); try reflexivity.
  now apply float_div_self.
Qed.

Section ComputedCagr.
Context {F : Type} `{PyFloat F} `{PyPow F}.

Lemma cumprod_from_product (acc : F) (s : Series F) :
  Forall (fun x => isnan x = false) (values s) ->
  py_last (acc :: values (cumprod_from acc s)) = Returned (fold_left fmul (values s) acc).
Proof.
  revert acc. induction s as [|[d x] s IH]; intros acc Hs.
  - reflexivity.
  - inversion Hs as [|? ? Hx Hrest]; subst. simpl in Hx.
    cbn [cumprod_from]. rewrite Hx. cbn [values map snd fold_left].
    rewrite py_last_cons by discriminate. apply IH. exact Hrest.
Qed.

Lemma cumprod_product (s : Series F) :
  s <> [] -> Forall (fun x => isnan x = false) (values s) ->
  py_last (values (cumprod s)) = Returned (product (values s)).
Proof.
  intros Hne Hs. destruct s as [|[d x] s]; [congruence|].
  inversion Hs as [|? ? Hx Hrest]; subst. simpl in Hx.
  cbn [cumprod]. rewrite Hx. cbn [values map snd product].
  now apply cumprod_from_product.
Qed.

(** The compound rate as the code computes it, in any arithmetic. *)
Lemma calculate_cagr_computed (s : Series F) :
  daily_returns s <> [] ->
  Forall (fun x => isnan x = false) (values (one_plus (daily_returns s))) ->
  feq (fdiv (of_int (span_days (index s))) c365_25) zero = false ->
  calculate_cagr s
  = Returned (fsub (fpow (product (values (one_plus (daily_returns s))))
                         (fdiv one (fdiv (of_int (span_days (index s))) c365_25)))
                   one).
Proof.
  intros Hne Hnan Hyears. unfold calculate_cagr.
  assert (Hs : index s <> []).
  { destruct s; [exfalso; now apply Hne | discriminate]. }
  rewrite (py_last_last 0%Z Hs), (py_first_hd 0%Z Hs). cbn [bind].
  fold (span_days (index s)).
  rewrite cumprod_product; [| |exact Hnan].
  - cbn [bind]. unfold py_div. rewrite Hyears. reflexivity.
  - unfold one_plus. destruct (daily_returns s); [congruence | discriminate].
Qed.

End ComputedCagr.

(** C8 (as amended).  Over the reals, for a price series of at least 2
    positive prices over a positive span of days, the CAGR is the
    cumulative return factor (the product of [1 + r] over the daily returns)
    raised to [365.25 / spanDays], less 1.  In the arithmetic of the code,
    whatever it is, the CAGR is that product, taken from left to right,
    raised to [1 / (spanDays / 365.25)], less 1, each operation rounded;
    in binary64 that exponent is not always the float [365.25 / spanDays]:
    the two differ at 1826 days.  For a constant price series the CAGR is
    0, in real and in binary64 arithmetic, and the volatility is 0 when the
    series has at least 3 prices; both are told apart from the undefined
    value.  With exactly 2 prices there is a single return, its sample
    deviation is undefined, and the volatility is NaN. *)
Theorem cagr_formula :
  (forall l : list (Z * R),
      (2 <= length l)%nat -> Forall (fun e => (0 < snd e)%R) l ->
      (0 < span_days (map fst l))%Z ->
      calculate_cagr (real_series l)
      = Returned (XR (Rpower (cumulative_return_factor (map snd l))
                             (36525 / 100 / IZR (span_days (map fst l))) - 1)))
  /\ (forall (p : R) (d0 d1 : Z) (ds : list Z),
         (0 < p)%R -> (0 < span_days (d0 :: d1 :: ds))%Z ->
         calculate_cagr (constant_series (XR p) (d0 :: d1 :: ds)) = Returned (XR 0))
  /\ (forall (p : R) (d0 d1 d2 : Z) (ds : list Z),
         (0 < p)%R ->
         port_volatility (daily_returns (constant_series (XR p) (d0 :: d1 :: d2 :: ds)))
         = XR 0)
  /\ (forall (PP : PyPow float) (p : float) (d0 d1 : Z) (ds : list Z),
         (forall y, fpow 1%float y = 1%float) ->
         finite_nonzero p ->
         (0 < span_days (d0 :: d1 :: ds) <= 100000)%Z ->
         calculate_cagr (constant_series p (d0 :: d1 :: ds)) = Returned 0%float)
  /\ (forall (p : float) (d0 d1 d2 : Z) (ds : list Z),
         finite_nonzero p ->
         (Z.of_nat (length ds) + 2 < 2 ^ 53)%Z ->
         port_volatility (daily_returns (constant_series p (d0 :: d1 :: d2 :: ds)))
         = 0%float)
  /\ (PrimFloat.is_nan 0%float = false /\ xisnan (XR 0) = false)
  /\ (forall (F : Type) (PF : PyFloat F) (PP : PyPow F) (s : Series F),
         daily_returns s <> [] ->
         Forall (fun x => isnan x = false) (values (one_plus (daily_returns s))) ->
         feq (fdiv (of_int (span_days (index s))) c365_25) zero = false ->
         calculate_cagr s
         = Returned (fsub (fpow (product (values (one_plus (daily_returns s))))
                                (fdiv one (fdiv (of_int (span_days (index s))) c365_25)))
                          one))
  /\ PrimFloat.eqb (fdiv one (fdiv (of_int 1826) c365_25))
                   (fdiv c365_25 (of_int 1826)) = false
  /\ (forall (p : float) (d0 d1 : Z),
         finite_nonzero p ->
         PrimFloat.is_nan
           (port_volatility (daily_returns (constant_series p [d0; d1])))
         = true).
Proof.
  split; [|split; [|split; [|split; [|split; [|split; [|split; [|split]]]]]]].
  - intros l Hlen Hpos Hspan. apply calculate_cagr_real; try assumption. lia.
  - intros p d0 d1 ds Hp Hspan. apply calculate_cagr_constant_ideal; lra || lia.
  - intros p d0 d1 d2 ds Hp. apply port_volatility_constant_ideal. lra.
  - intros PP p d0 d1 ds. apply calculate_cagr_constant_binary64.
  - intros p d0 d1 d2 ds. apply port_volatility_constant_binary64.
  - split; reflexivity.
  - intros F PF PP s. apply calculate_cagr_computed.
  - reflexivity.
  - apply port_volatility_two_constant_binary64.
Qed.

Lemma cagr_formula_witness :
  calculate_cagr (real_series [(0%Z, 100%R); (365%Z, 121%R)])
  = Returned (XR (Rpower (cumulative_return_factor [100%R; 121%R])
                         (36525 / 100 / IZR 365) - 1))
  /\ port_volatility (daily_returns (constant_series 100%float [0%Z; 1%Z; 2%Z]))
     = 0%float.
Proof.
  destruct cagr_formula as (Hformula & _ & _ & _ & Hvol & _).
  split.
  - apply (Hformula [(0%Z, 100%R); (365%Z, 121%R)]).
    + simpl. lia.
    + repeat constructor; simpl; lra.
    + reflexivity.
  - apply (Hvol 100%float 0%Z 1%Z 2%Z []).
    + now exists false, 7036874417766400%positive, (-46)%Z.
    + reflexivity.
Defined.

(** C8, as stated, fails on the volatility of a constant series of 2 prices:
    the one daily return, 0.0, has no sample deviation, and the volatility is
    NaN, the undefined value, not 0. *)
Lemma volatility_of_two_constant_prices :
  daily_returns (constant_series 100%float [0%Z; 1%Z]) = [(1%Z, 0%float)]
  /\ PrimFloat.is_nan (port_volatility (daily_returns (constant_series 100%float [0%Z; 1%Z])))
     = true.
Proof. split; reflexivity. Qed.

(** ** Weights that sum to zero *)

Lemma is_nan_true_eq (x : float) : PrimFloat.is_nan x = true -> x = PrimFloat.nan.
Proof.
  intros Hx. apply Prim2SF_inj.
  destruct (Prim2SF x) as [s|s| |s m e] eqn:E; [| |reflexivity|];
    exfalso;
    assert (Hn : PrimFloat.is_nan x = false)
      by (apply is_nan_false_iff; rewrite E; discriminate);
    congruence.
Qed.

Lemma normalize_zero_sum_values (w : list float) :
  PrimFloat.eqb (np_sum w) 0 = true ->
  Forall (fun x => PrimFloat.is_nan x = true \/ PrimFloat.is_infinity x = true)
         (normalize w).
Proof.
  intros Hsum. unfold normalize. apply Forall_forall. intros y Hy.
  apply in_map_iff in Hy. destruct Hy as [x [<- _]].
  now apply float_div_by_zero.
Qed.

Lemma np_sum_float_zeros (n : nat) : np_sum (repeat 0%float n) = 0%float.
Proof.
  unfold np_sum. change (@zero float _) with 0%float.
  induction n as [|n IH]; simpl; [reflexivity | exact IH].
Qed.

Lemma normalize_all_zero (n : nat) :
  normalize (repeat 0%float n) = repeat PrimFloat.nan n.
Proof.
  unfold normalize. rewrite np_sum_float_zeros.
  induction n as [|n IH]; [reflexivity|].
  cbn [repeat map]. rewrite IH. reflexivity.
Qed.

Lemma weights_matched_normalized {F : Type} `{PyFloat F}
    (tickers : list string) (weights : list F) (final_tickers : list string)
    (w : list F) :
  weights_matched tickers weights final_tickers = Returned w ->
  exists matched, w = normalize matched /\ length matched = length final_tickers.
Proof.
  unfold weights_matched. intros Hrun.
  apply bind_returned in Hrun. destruct Hrun as [matched [Hloop Hw]].
  inversion Hw; subst. exists matched. split; [reflexivity|].
  assert (Hgen : forall acc res,
             for_each (fun acc tkr =>
                         idx <- list_index tkr tickers ;;
                         x <- np_item weights idx ;;
                         Returned (acc ++ [x])) final_tickers acc = Returned res ->
             length res = (length acc + length final_tickers)%nat).
  { clear. induction final_tickers as [|t ts IH]; intros acc res Hrun; simpl in *.
    - inversion Hrun; subst. lia.
    - apply bind_returned in Hrun. destruct Hrun as [acc' [Hbody Hrest]].
      apply bind_returned in Hbody. destruct Hbody as [idx [_ Hbody]].
      apply bind_returned in Hbody. destruct Hbody as [x [_ Hacc]].
      inversion Hacc; subst. apply IH in Hrest.
      rewrite length_app in Hrest. simpl in Hrest. lia. }
  apply Hgen in Hloop. simpl in Hloop. exact Hloop.
Qed.

(** With weights that are all NaN, every weighted return is NaN, the row
    sums skip them, and the portfolio's daily returns are all [0.0]. *)
Lemma nansum_of_nan_products (row w : list float) :
  Forall (fun x => x = PrimFloat.nan) w ->
  nansum (map (fun xw => PrimFloat.mul (fst xw) (snd xw)) (combine row w)) = 0%float.
Proof.
  intros Hw. unfold nansum, np_sum. change (@zero float _) with 0%float.
  assert (Hz : forall l : list float,
             Forall (fun x => x = PrimFloat.nan) l ->
             fold_left PrimFloat.add (fillna0 l) 0%float = 0%float).
  { clear. intros l Hl. induction Hl as [|x l Hx Hl IH]; simpl; [reflexivity|].
    subst x. exact IH. }
  apply Hz. apply Forall_forall. intros y Hy.
  apply in_map_iff in Hy. destruct Hy as [[x v] [<- Hin]].
  apply in_combine_r in Hin. rewrite Forall_forall in Hw.
  simpl. rewrite (Hw v Hin). apply float_mul_nan.
Qed.

Lemma portfolio_daily_returns_nan_weights (adj_close : DataFrame float) (w : list float) :
  Forall (fun x => x = PrimFloat.nan) w ->
  length w = length (columns adj_close) ->
  portfolio_daily_returns adj_close w
  = Returned (constant_series 0%float
                (df_index (df_dropna (df_pct_change adj_close)))).
Proof.
  intros Hw Hlen. unfold portfolio_daily_returns, df_mul.
  change (columns (df_dropna (df_pct_change adj_close))) with (columns adj_close).
  rewrite Hlen, Nat.eqb_refl. cbn [bind]. f_equal.
  unfold df_sum_rows, constant_series, df_index. cbn [rows].
  rewrite !map_map. apply map_ext. intros [d row]. cbn [fst snd].
  f_equal. now apply nansum_of_nan_products.
Qed.

Lemma port_sharpe_undefined (cagr volatility : float) :
  volatility = 0%float \/ PrimFloat.is_nan volatility = true ->
  PrimFloat.is_nan (port_sharpe cagr volatility) = true.
Proof.
  intros [->|Hv]; [reflexivity|].
  apply is_nan_true_eq in Hv. subst. reflexivity.
Qed.

Lemma port_volatility_float_zeros (ds : list Z) :
  (2 <= length ds)%nat -> (Z.of_nat (length ds) < 2 ^ 53)%Z ->
  port_volatility (constant_series 0%float ds) = 0%float.
Proof.
  intros Hlen Hbound. change 0%float with (@zero float binary64).
  apply (port_volatility_zeros (F := float)); try reflexivity.
  - exact Hlen.
  - apply float_zero_div_count. lia.
  - apply float_zero_div_count. lia.
Qed.

Lemma port_cagr_zero_returns (PP : PyPow float) (adj_close : DataFrame float)
    (ds : list Z) :
  (forall y, fpow 1%float y = 1%float) ->
  ds <> [] ->
  (0 < span_days (df_index adj_close) <= 100000)%Z ->
  port_cagr adj_close (constant_series 0%float ds) = Returned 0%float.
Proof.
  intros Hpow Hds Hspan. unfold port_cagr.
  change 0%float with (@zero float binary64).
  rewrite (one_plus_constant_zero (F := float)) by reflexivity.
  rewrite (cumprod_ones (F := float)) by reflexivity.
  assert (Hidx : df_index adj_close <> []).
  { intros Hnil. rewrite Hnil in Hspan. unfold span_days in Hspan. simpl in Hspan. lia. }
  rewrite (py_last_last 0%Z Hidx), (py_first_hd 0%Z Hidx). cbn [bind].
  rewrite last_constant by assumption. cbn [bind].
  fold (span_days (df_index adj_close)).
  unfold py_div.
  change (feq (fdiv (of_int (span_days (df_index adj_close))) c365_25) zero)
    with (PrimFloat.eqb (PrimFloat.div (float_of_Z (span_days (df_index adj_close))) 365.25) 0).
  rewrite (years_nonzero Hspan). cbn [bind].
  change (@one float binary64) with 1%float. rewrite Hpow. reflexivity.
Qed.

(** C10 (as amended).  Normalization divides every weight by the sum of the
    weights, unguarded: when the sum is zero every normalized weight is NaN
    or an infinity (NaN throughout when all weights are zero), and no error
    is raised, at the first normalization and at the renormalization of the
    weights of the tickers that have prices.  The weighted row sums skip
    NaN: with weights that are all NaN the portfolio's daily returns are
    all 0.0.  Its CAGR is then a computed zero (for a span of 1 to 100000
    days, and a power function with [1 ** y = 1]), and its volatility is a
    computed zero when there are at least 2 daily returns; with a single
    daily return, of a price table of 2 rows, the volatility is NaN.  The
    Sharpe ratio is NaN in both cases. *)
Theorem normalize_zero_sum :
  (forall w : list float,
      PrimFloat.eqb (np_sum w) 0 = true ->
      Forall (fun x => PrimFloat.is_nan x = true \/ PrimFloat.is_infinity x = true)
             (normalize w))
  /\ (forall (tickers : list string) (weights : list float)
             (final_tickers : list string) (w : list float),
         weights_matched tickers weights final_tickers = Returned w ->
         exists matched,
           w = normalize matched
           /\ (PrimFloat.eqb (np_sum matched) 0 = true ->
               Forall (fun x => PrimFloat.is_nan x = true
                                \/ PrimFloat.is_infinity x = true) w))
  /\ (forall n : nat, normalize (repeat 0%float n) = repeat PrimFloat.nan n)
  /\ (forall (adj_close : DataFrame float) (w : list float),
         Forall (fun x => x = PrimFloat.nan) w ->
         length w = length (columns adj_close) ->
         portfolio_daily_returns adj_close w
         = Returned (constant_series 0%float
                       (df_index (df_dropna (df_pct_change adj_close)))))
  /\ (forall ds : list Z,
         (2 <= length ds)%nat -> (Z.of_nat (length ds) < 2 ^ 53)%Z ->
         port_volatility (constant_series 0%float ds) = 0%float)
  /\ (forall (PP : PyPow float) (adj_close : DataFrame float) (ds : list Z),
         (forall y, fpow 1%float y = 1%float) ->
         ds <> [] ->
         (0 < span_days (df_index adj_close) <= 100000)%Z ->
         port_cagr adj_close (constant_series 0%float ds) = Returned 0%float)
  /\ (forall cagr volatility : float,
         volatility = 0%float \/ PrimFloat.is_nan volatility = true ->
         PrimFloat.is_nan (port_sharpe cagr volatility) = true)
  /\ (forall d : Z,
         PrimFloat.is_nan (port_volatility (constant_series 0%float [d])) = true).
Proof.
  split; [|split; [|split; [|split; [|split; [|split; [|split]]]]]].
  - apply normalize_zero_sum_values.
  - intros tickers weights final_tickers w Hrun.
    destruct (weights_matched_normalized Hrun) as [matched [-> _]].
    exists matched. split; [reflexivity | apply normalize_zero_sum_values].
  - apply normalize_all_zero.
  - apply portfolio_daily_returns_nan_weights.
  - apply port_volatility_float_zeros.
  - apply port_cagr_zero_returns.
  - apply port_sharpe_undefined.
  - intros d. reflexivity.
Qed.

Lemma normalize_zero_sum_witness :
  Forall (fun x => PrimFloat.is_nan x = true \/ PrimFloat.is_infinity x = true)
         (normalize [1%float; (-1)%float])
  /\ port_volatility (constant_series 0%float [1%Z; 2%Z]) = 0%float.
Proof.
  destruct normalize_zero_sum as (Hnorm & _ & _ & _ & Hvol & _).
  split.
  - apply Hnorm. reflexivity.
  - apply Hvol; simpl; lia.
Defined.

(** C10, as stated, fails on its own example: with all weights zero the
    normalized weights are NaN, yet the portfolio's daily returns are 0.0
    on every day and its volatility is the computed value 0.0, not an
    undefined one. *)
Lemma zero_weights_volatility_is_zero :
  let adj_close : DataFrame float :=
    {| columns := ["TCS.NS"; "INFY.NS"];
       rows := [(0%Z, [100%float; 50%float]); (1%Z, [110%float; 50%float]);
                (2%Z, [121%float; 50%float])] |} in
  normalize [0%float; 0%float] = [PrimFloat.nan; PrimFloat.nan]
  /\ weights_matched ["TCS.NS"; "INFY.NS"] [PrimFloat.nan; PrimFloat.nan]
                     ["TCS.NS"; "INFY.NS"]
     = Returned [PrimFloat.nan; PrimFloat.nan]
  /\ portfolio_daily_returns adj_close [PrimFloat.nan; PrimFloat.nan]
     = Returned [(1%Z, 0%float); (2%Z, 0%float)]
  /\ port_volatility [(1%Z, 0%float); (2%Z, 0%float)] = 0%float
  /\ PrimFloat.is_nan 0%float = false.
Proof. repeat split; reflexivity. Qed.

(* ================================================================== *)
(** * 10. Further properties of the code                               *)
(* ================================================================== *)

(** Properties that the code shows beyond the statements of the
    specification: edge cases, invariants, and how the functions compose. *)
(** ** Sector labels *)

(** X1.  [get_sector_of_stock] never raises and never yields a blank label:
    its answer is the label that the metadata service gives, or 'Unknown';
    a label with a character that is not white space is returned as it is,
    and the answer is 'Unknown' whenever the lookup fails or gives no label,
    [None], or a label that is empty or made of white space, that of
    Unicode included (U+0085, U+00A0, U+2003, U+3000, ...). *)
Theorem get_sector_of_stock_label :
  (forall (info : string -> outcome sector_field) (ticker : string),
      blank (get_sector_of_stock info ticker) = false
      /\ (get_sector_of_stock info ticker = "Unknown"
          \/ info ticker = Returned (Label (get_sector_of_stock info ticker)))
      /\ (forall s, info ticker = Returned (Label s) -> blank s = false ->
                    get_sector_of_stock info ticker = s)
      /\ ((forall s, info ticker = Returned (Label s) -> blank s = true) ->
          get_sector_of_stock info ticker = "Unknown"))
  /\ (let byte := fun n => String (ascii_of_nat n) EmptyString in
      blank (byte 194 ++ byte 133) = true
      /\ blank (byte 194 ++ byte 160) = true
      /\ blank (byte 226 ++ byte 128 ++ byte 131) = true
      /\ blank (byte 227 ++ byte 128 ++ byte 128) = true
      /\ blank (" " ++ byte 227 ++ byte 128 ++ byte 128 ++ byte 9) = true
      /\ blank (byte 194 ++ byte 160 ++ "IT") = false
      /\ blank (byte 195 ++ byte 137 ++ "nergie") = false)%string.
Proof.
  split; [|cbv zeta; repeat split; reflexivity].
  intros info ticker. unfold get_sector_of_stock.
  destruct (info ticker) as [[| |s]|e]; (split; [|split; [|split]]);
    try reflexivity; try (now left); try (intros; discriminate).
  - destruct (blank s) eqn:E; [reflexivity | exact E].
  - destruct (blank s); [now left | now right].
  - intros s' Heq Hs'. inversion Heq; subst. now rewrite Hs'.
  - intros Hall. now rewrite (Hall s eq_refl).
Qed.
(** ** Sector exposure *)

Lemma dict_keys_set {V : Type} (d : dict V) (k : string) (v : V) :
  dict_keys (dict_set d k v) = add_key (dict_keys d) k.
Proof.
  unfold add_key, dict_keys. induction d as [|[a x] d IH]; simpl.
  - reflexivity.
  - rewrite (String.eqb_sym k a). destruct (String.eqb a k) eqn:E; simpl.
    + reflexivity.
    + rewrite IH. destruct (existsb (String.eqb k) (map fst d)); reflexivity.
Qed.

Lemma dict_get_keys {V : Type} (d : dict V) (k : string) :
  (In k (dict_keys d) -> exists v, dict_get d k = Some v)
  /\ (~ In k (dict_keys d) -> dict_get d k = None).
Proof.
  unfold dict_keys. induction d as [|[a x] d [IH1 IH2]]; simpl.
  - split; [intros [] | reflexivity].
  - destruct (String.eqb a k) eqn:E.
    + split; [eauto|]. apply String.eqb_eq in E. intros Hn. exfalso. apply Hn. now left.
    + apply String.eqb_neq in E. split.
      * intros [Heq|Hin]; [contradiction | now apply IH1].
      * intros Hn. apply IH2. intros Hin. apply Hn. now right.
Qed.

Lemma dict_get_default_set_same {V : Type} (d : dict V) (k : string) (v z : V) :
  dict_get_default (dict_set d k v) k z = v.
Proof. unfold dict_get_default. now rewrite dict_get_set_same. Qed.

Lemma dict_get_default_set_other {V : Type} (d : dict V) (k k' : string) (v z : V) :
  k <> k' -> dict_get_default (dict_set d k v) k' z = dict_get_default d k' z.
Proof. intros Hne. unfold dict_get_default. now rewrite dict_get_set_other. Qed.

Lemma fold_left_pointwise_in {A B : Type} (f g : A -> B -> A) (l : list B) (a : A) :
  (forall x y, In y l -> f x y = g x y) -> fold_left f l a = fold_left g l a.
Proof.
  revert a. induction l as [|y l IH]; intros a Hfg; simpl.
  - reflexivity.
  - rewrite Hfg by now left. apply IH. intros x z Hz. apply Hfg. now right.
Qed.

Section Exposure.
Context {F : Type} `{PyFloat F}.
Variable sector_of : string -> string.

(** The loop that accumulates the weights by sector, from any dictionary
    on: a sector enters at its first ticker, and its exposure grows by the
    weights of its tickers, added in their order. *)
Lemma exposure_loop (pairs : list (string * F)) :
  forall d0 : dict F,
    let d := fold_left (fun wts tw =>
                          dict_set wts (sector_of (fst tw))
                                   (fadd (dict_get_default wts (sector_of (fst tw)) zero)
                                         (snd tw)))
                       pairs d0 in
    dict_keys d = fold_left add_key (map (fun tw => sector_of (fst tw)) pairs) (dict_keys d0)
    /\ forall s, dict_get_default d s zero
                 = fold_left fadd
                     (map snd (filter (fun tw => String.eqb (sector_of (fst tw)) s) pairs))
                     (dict_get_default d0 s zero).
Proof.
  induction pairs as [|[t w] pairs IH]; intros d0; cbv zeta; simpl.
  - split; reflexivity.
  - destruct (IH (dict_set d0 (sector_of t)
                           (fadd (dict_get_default d0 (sector_of t) zero) w)))
      as [IHk IHv].
    split.
    + rewrite IHk, dict_keys_set. reflexivity.
    + intros s. rewrite IHv. destruct (String.eqb (sector_of t) s) eqn:E; simpl.
      * apply String.eqb_eq in E. subst s.
        now rewrite dict_get_default_set_same.
      * apply String.eqb_neq in E.
        now rewrite dict_get_default_set_other.
Qed.

End Exposure.

(** X2.  [portfolio_sector_weights] lists every sector once, at the
    position of its first ticker, and the exposure of a sector is the sum
    of the weights of its tickers, added from [0.0] on in the order of the
    tickers; tickers and weights are paired up to the shorter of the two. *)
Theorem portfolio_sector_weights_exposure :
  forall (F : Type) (PF : PyFloat F) (info : string -> outcome sector_field)
         (tickers : list string) (weights : list F),
    let pairs := combine tickers weights in
    let d := portfolio_sector_weights info tickers weights in
    dict_keys d
    = first_occurrences (map (fun tw => get_sector_of_stock info (fst tw)) pairs)
    /\ NoDup (dict_keys d)
    /\ (forall sector, In sector (dict_keys d) ->
          dict_get d sector = Some (np_sum (sector_members info sector pairs)))
    /\ (forall sector, ~ In sector (dict_keys d) ->
          dict_get d sector = None /\ sector_members info sector pairs = []).
Proof.
  intros F PF info tickers weights pairs d.
  destruct (exposure_loop (get_sector_of_stock info) pairs []) as [Hk Hv].
  change (fold_left _ pairs []) with d in Hk, Hv.
  assert (Hspec := @fold_add_key_spec
                     (map (fun tw => get_sector_of_stock info (fst tw)) pairs) []
                     (NoDup_nil _)).
  destruct Hspec as [Hnd Hin].
  split; [exact Hk|]. split; [rewrite Hk; exact Hnd|]. split.
  - intros sector Hs. destruct (proj1 (dict_get_keys d sector) Hs) as [v Hget].
    specialize (Hv sector). unfold dict_get_default in Hv. rewrite Hget in Hv.
    simpl in Hv. rewrite Hget, Hv. reflexivity.
  - intros sector Hs. split; [now apply dict_get_keys|].
    unfold sector_members.
    destruct (filter _ pairs) as [|[t w] l] eqn:E; [reflexivity|].
    exfalso. apply Hs. rewrite Hk. apply Hin. right.
    assert (Hm : In (t, w) (filter (fun tw => String.eqb (get_sector_of_stock info (fst tw)) sector) pairs))
      by (rewrite E; now left).
    apply filter_In in Hm. destruct Hm as [Hm Hsec].
    apply String.eqb_eq in Hsec. simpl in Hsec. subst sector.
    apply in_map_iff. exists (t, w). now split.
Qed.
Lemma Rsum_from (l : list R) (a : R) : fold_left Rplus l a = (a + Rsum l)%R.
Proof.
  unfold Rsum. revert a. induction l as [|x l IH]; intros a; simpl.
  - lra.
  - rewrite IH, (IH (0 + x)%R). lra.
Qed.

Lemma Rsum_cons (x : R) (l : list R) : Rsum (x :: l) = (x + Rsum l)%R.
Proof. unfold Rsum at 1. simpl. rewrite Rsum_from. lra. Qed.

Lemma Rsum_app (l l' : list R) : Rsum (l ++ l') = (Rsum l + Rsum l')%R.
Proof.
  induction l as [|x l IH]; simpl.
  - unfold Rsum at 2. simpl. lra.
  - rewrite !Rsum_cons, IH. lra.
Qed.

(** A dictionary of real numbers, in the ideal instance. *)
Lemma exposure_step_real (rd : list (string * R)) (s : string) (w : R) :
  exists rd' : list (string * R),
    dict_set (map (fun e => (fst e, XR (snd e))) rd) s
             (fadd (dict_get_default (map (fun e => (fst e, XR (snd e))) rd) s zero)
                   (XR w))
    = map (fun e => (fst e, XR (snd e))) rd'
    /\ Rsum (map snd rd') = (Rsum (map snd rd) + w)%R.
Proof.
  induction rd as [|[k v] rd [rd' [IH1 IH2]]].
  - exists [(s, (0 + w)%R)]. split; [reflexivity|].
    simpl. rewrite Rsum_cons. unfold Rsum. simpl. lra.
  - simpl. unfold dict_get_default in *. simpl.
    destruct (String.eqb k s) eqn:E.
    + exists ((k, (v + w)%R) :: rd). split; [reflexivity|].
      simpl. rewrite !Rsum_cons. lra.
    + exists ((k, v) :: rd'). split.
      * simpl. now rewrite <- IH1.
      * simpl. rewrite !Rsum_cons, IH2. lra.
Qed.

Lemma exposure_total_real (sector_of : string -> string) (pairs : list (string * R)) :
  forall rd : list (string * R),
  exists rd' : list (string * R),
    fold_left (fun wts tw =>
                 dict_set wts (sector_of (fst tw))
                          (fadd (dict_get_default wts (sector_of (fst tw)) zero) (snd tw)))
              (map (fun e => (fst e, XR (snd e))) pairs)
              (map (fun e => (fst e, XR (snd e))) rd)
    = map (fun e => (fst e, XR (snd e))) rd'
    /\ Rsum (map snd rd') = (Rsum (map snd rd) + Rsum (map snd pairs))%R.
Proof.
  induction pairs as [|[t w] pairs IH]; intros rd.
  - exists rd. split; [reflexivity|]. simpl. unfold Rsum at 3. simpl. lra.
  - cbn [map fold_left fst snd].
    destruct (exposure_step_real rd (sector_of t) w) as [rd1 [H1 H2]].
    rewrite H1. destruct (IH rd1) as [rd' [H3 H4]].
    exists rd'. split; [exact H3|]. rewrite H4, H2, Rsum_cons. lra.
Qed.

Lemma combine_map_r {A B C : Type} (f : B -> C) (l : list A) (l' : list B) :
  combine l (map f l') = map (fun p => (fst p, f (snd p))) (combine l l').
Proof.
  revert l'. induction l as [|a l IH]; intros [|b l']; simpl; try reflexivity.
  now rewrite IH.
Qed.

(** X3.  Over the reals, the exposures that [portfolio_sector_weights]
    computes add up to the total of the weights it was given (of the
    weights that have a ticker): grouping by sector loses no weight. *)
Theorem portfolio_sector_weights_total :
  forall (info : string -> outcome sector_field) (tickers : list string)
         (ws : list R),
    np_sum (map snd (portfolio_sector_weights info tickers (map XR ws)))
    = XR (Rsum (map snd (combine tickers ws)))
    /\ (length tickers = length ws ->
        np_sum (map snd (portfolio_sector_weights info tickers (map XR ws)))
        = XR (Rsum ws)).
Proof.
  intros info tickers ws.
  assert (Htotal : np_sum (map snd (portfolio_sector_weights info tickers (map XR ws)))
                   = XR (Rsum (map snd (combine tickers ws)))).
  { unfold portfolio_sector_weights. rewrite combine_map_r.
    destruct (exposure_total_real (get_sector_of_stock info) (combine tickers ws) [])
      as [rd' [Hrun Hsum]].
    cbn [map] in Hrun. rewrite Hrun, map_map. cbn [snd].
    rewrite <- (map_map snd XR), ideal_np_sum, Hsum.
    f_equal. unfold Rsum at 1. simpl. lra. }
  split; [exact Htotal|].
  intros Hlen. rewrite Htotal. f_equal. f_equal.
  clear Htotal. revert ws Hlen.
  induction tickers as [|t tickers IH]; intros [|w ws] Hlen;
    simpl in *; try discriminate; [reflexivity|].
  f_equal. apply IH. lia.
Qed.

Lemma dict_get_table {V : Type} (g : string -> V) (ks : list string) (k : string) :
  In k ks -> dict_get (map (fun t => (t, g t)) ks) k = Some (g k).
Proof.
  induction ks as [|a ks IH]; simpl; [intros []|].
  intros Hin. destruct (String.eqb a k) eqn:E.
  - apply String.eqb_eq in E. now subst.
  - apply String.eqb_neq in E. destruct Hin as [Heq|Hin]; [contradiction | now apply IH].
Qed.

Lemma portfolio_sector_map_get (info : string -> outcome sector_field)
    (tickers : list string) (t : string) :
  In t tickers ->
  dict_get_default (portfolio_sector_map info tickers) t "Unknown"
  = get_sector_of_stock info t.
Proof.
  intros Hin. unfold portfolio_sector_map, dict_get_default.
  pose proof (fold_dict_set_table (fun t : string => t) (get_sector_of_stock info)
                                  tickers []) as Htable.
  cbn [map] in Htable. rewrite Htable.
  rewrite map_id, dict_get_table; [reflexivity|].
  apply (@fold_add_key_spec tickers [] (NoDup_nil _)). now right.
Qed.

(** X4.  The sector weights that the script computes in line (by way of
    its table of cached sector labels) are those of
    [portfolio_sector_weights]: the same sectors in the same order, with
    the same exposures. *)
Theorem port_sector_wts_dict_is_portfolio_sector_weights :
  forall (F : Type) (PF : PyFloat F) (info : string -> outcome sector_field)
         (tickers : list string) (weights : list F),
    port_sector_wts_dict info tickers weights
    = portfolio_sector_weights info tickers weights.
Proof.
  intros F PF info tickers weights.
  unfold port_sector_wts_dict, portfolio_sector_weights.
  apply fold_left_pointwise_in. intros d [t w] Hin. cbn [fst snd].
  apply in_combine_l in Hin.
  now rewrite portfolio_sector_map_get.
Qed.
(** ** The table of sector performance *)

Lemma dict_set_fresh {V : Type} (d : dict V) (k : string) (v : V) :
  ~ In k (dict_keys d) -> dict_set d k v = d ++ [(k, v)].
Proof.
  unfold dict_keys. induction d as [|[a x] d IH]; simpl; intros Hn.
  - reflexivity.
  - destruct (String.eqb a k) eqn:E.
    + apply String.eqb_eq in E. exfalso. apply Hn. now left.
    + rewrite IH; [reflexivity|]. intros Hin. apply Hn. now right.
Qed.

Lemma map_m_length {A B : Type} (f : A -> outcome B) (l : list A) (r : list B) :
  map_m f l = Returned r -> length r = length l.
Proof.
  revert r. induction l as [|x l IH]; intros r; simpl.
  - intros E. inversion E. reflexivity.
  - destruct (f x) as [y|e]; simpl; [|discriminate].
    destruct (map_m f l) as [ys|e]; simpl; [|discriminate].
    intros E. inversion E. simpl. f_equal. now apply IH.
Qed.

Section PerformanceTable.
Context {F : Type} `{PyFloat F} `{PyPow F}.

Lemma performance_loop_table (data : DataFrame F) (etfs : dict string) :
  forall acc : dict F,
    NoDup (dict_keys acc ++ dict_keys etfs) ->
    for_each (fun perf e =>
                cagr <- sector_cagr data (snd e) ;;
                Returned (dict_set perf (fst e) cagr)) etfs acc
    = (cagrs <- map_m (fun e => sector_cagr data (snd e)) etfs ;;
       Returned (acc ++ combine (dict_keys etfs) cagrs)).
Proof.
  induction etfs as [|[s t] etfs IH]; intros acc Hnd; simpl.
  - now rewrite app_nil_r.
  - destruct (sector_cagr data t) as [c|e]; simpl; [|reflexivity].
    rewrite dict_set_fresh.
    + rewrite IH.
      * destruct (map_m _ etfs) as [cagrs|e]; simpl; [|reflexivity].
        now rewrite <- app_assoc.
      * unfold dict_keys in *. rewrite map_app, <- app_assoc. exact Hnd.
    + apply NoDup_remove_2 in Hnd. intros Hin. apply Hnd.
      apply in_or_app. now left.
Qed.

Lemma performance_table (data : DataFrame F) (etfs : dict string) (perf : dict F) :
  NoDup (dict_keys etfs) ->
  get_sector_etf_performance etfs data = Returned perf ->
  dict_keys perf = dict_keys etfs.
Proof.
  intros Hnd Hrun. unfold get_sector_etf_performance in Hrun.
  rewrite performance_loop_table in Hrun by exact Hnd.
  apply bind_returned in Hrun. destruct Hrun as [cagrs [Hm Hperf]].
  inversion Hperf; subst. apply map_m_length in Hm.
  unfold dict_keys. simpl.
  clear - Hm. revert cagrs Hm.
  induction etfs as [|[s t] etfs IH]; intros [|c cagrs] Hm;
    simpl in *; try discriminate; [reflexivity|].
  f_equal. apply IH. lia.
Qed.

End PerformanceTable.

(** X5.  [get_sector_etf_performance] returns one entry per sector of the
    ETF map, in the order of the map, each with the CAGR computed for the
    sector's proxy; it raises what the first failing computation raises. *)
Theorem get_sector_etf_performance_table :
  forall (F : Type) (PF : PyFloat F) (PP : PyPow F)
         (etfs : dict string) (data : DataFrame F),
    NoDup (dict_keys etfs) ->
    get_sector_etf_performance etfs data
    = (cagrs <- map_m (fun e => sector_cagr data (snd e)) etfs ;;
       Returned (combine (dict_keys etfs) cagrs)).
Proof.
  intros F PF PP etfs data Hnd. unfold get_sector_etf_performance.
  now rewrite performance_loop_table.
Qed.

Lemma get_sector_etf_performance_table_witness :
  get_sector_etf_performance INDIAN_SECTOR_ETFS
    {| columns := ["NSEIT.NS"];
       rows := [(0%Z, [XR 100]); (1%Z, [XNaN])] |}
  = Returned [("Banking", XNaN); ("IT", XNaN); ("Pharma", XNaN);
              ("Energy", XNaN); ("FMCG", XNaN); ("Infrastructure", XNaN);
              ("Auto", XNaN); ("Metal", XNaN); ("Finance", XNaN)].
Proof.
  rewrite (@get_sector_etf_performance_table xreal ideal ideal_pow).
  - reflexivity.
  - repeat constructor; simpl; intuition discriminate.
Defined.

(** X6.  For a proxy with at least two prices, the sector computation is
    [calculate_cagr] applied to the proxy's prices with the missing ones
    dropped: sectors and tickers are measured by the same formula. *)
Theorem sector_cagr_is_calculate_cagr :
  forall (F : Type) (PF : PyFloat F) (PP : PyPow F)
         (data : DataFrame F) (ticker : string) (column : Series F),
    df_col data ticker = Returned column ->
    (2 <= length (dropna column))%nat ->
    sector_cagr data ticker = calculate_cagr (dropna column).
Proof.
  intros F PF PP data ticker column Hcol Hlen. unfold sector_cagr.
  destruct (position ticker (columns data)) eqn:Hpos.
  - rewrite Hcol. cbn [bind].
    assert (Hlt : (length (dropna column) <? 2)%nat = false)
      by (apply Nat.ltb_ge; exact Hlen).
    rewrite Hlt. reflexivity.
  - unfold df_col in Hcol. rewrite Hpos in Hcol. discriminate.
Qed.

Lemma sector_cagr_is_calculate_cagr_witness :
  let data : DataFrame xreal :=
    {| columns := ["NSEIT.NS"];
       rows := [(0%Z, [XR 100]); (200%Z, [XNaN]); (365%Z, [XR 121])] |} in
  sector_cagr data "NSEIT.NS" = calculate_cagr [(0%Z, XR 100); (365%Z, XR 121)].
Proof.
  cbv zeta.
  apply (@sector_cagr_is_calculate_cagr xreal ideal ideal_pow _ "NSEIT.NS"
           [(0%Z, XR 100); (200%Z, XNaN); (365%Z, XR 121)]).
  - reflexivity.
  - simpl. lia.
Defined.
(** ** Recommendations in the script *)

Lemma dict_get_table_inv {V : Type} (g : string -> V) (ks : list string) (k : string)
    (v : V) :
  dict_get (map (fun t => (t, g t)) ks) k = Some v -> v = g k.
Proof.
  induction ks as [|a ks IH]; simpl; [discriminate|].
  destruct (String.eqb a k) eqn:E.
  - apply String.eqb_eq in E. subst. intros Heq. now inversion Heq.
  - exact IH.
Qed.

Lemma dict_get_In {V : Type} (d : dict V) (k : string) (v : V) :
  NoDup (dict_keys d) -> In (k, v) d -> dict_get d k = Some v.
Proof.
  unfold dict_keys. induction d as [|[a x] d IH]; simpl; [intros _ []|].
  intros Hnd [Heq|Hin].
  - inversion Heq; subst. now rewrite String.eqb_refl.
  - inversion Hnd as [|? ? Hnot Hnd']; subst.
    destruct (String.eqb a k) eqn:E.
    + apply String.eqb_eq in E. subst a. exfalso. apply Hnot.
      apply in_map_iff. exists (k, v). now split.
    + now apply IH.
Qed.

Section TopSectors.
Context {F : Type} `{PyFloat F}.

(** A top sector is a sector of the performance table whose CAGR is not
    NaN. *)
Lemma top_sectors_valid (perf : dict F) (s : string) :
  In s (top_sectors perf) -> exists c, In (s, c) perf /\ isnan c = false.
Proof.
  unfold top_sectors, sorted_sectors, valid_sectors. intros Hin.
  apply in_map_iff in Hin. destruct Hin as [[s' c] [Hs Hin]]. simpl in Hs. subst s'.
  assert (Hall : In (s, c) (sorted_desc snd flt (filter (fun kv => notna (snd kv)) perf))).
  { rewrite <- (firstn_skipn 3). apply in_or_app. now left. }
  clear Hin. rename Hall into Hin.
  apply (Permutation_in _ (sorted_desc_perm snd flt _)) in Hin.
  apply filter_In in Hin. destruct Hin as [Hin Hc]. exists c. split; [exact Hin|].
  unfold notna in Hc. simpl in Hc. now apply negb_true_iff in Hc.
Qed.

Lemma top_sectors_none (perf : dict F) :
  top_sectors perf = [] -> valid_sectors perf = [].
Proof.
  unfold top_sectors, sorted_sectors. intros Hnil.
  apply map_eq_nil in Hnil.
  assert (Hs : sorted_desc snd flt (valid_sectors perf) = []).
  { destruct (sorted_desc snd flt (valid_sectors perf)); [reflexivity | discriminate]. }
  apply Permutation_nil. rewrite <- Hs at 1. apply sorted_desc_perm.
Qed.

Lemma select_sector_top (under_sector : string) (wts : dict F) (tops : list string) :
  match select_sector under_sector wts tops with
  | Some s => In s tops
  | None => tops = []
  end.
Proof.
  unfold select_sector. destruct (find _ tops) as [s|] eqn:E.
  - now apply find_some in E.
  - destruct tops; [reflexivity | now left].
Qed.

End TopSectors.

(** X7.  In the script the performance table and the recommender share one
    ETF map, so that a recommendation never lacks its instrument: the
    sector recommended for a ticker is one of the top sectors, its CAGR in
    the table is not NaN, and the instrument is the sector's proxy; no
    sector and no instrument are recommended only when every CAGR of the
    table is NaN. *)
Theorem recommendations_name_an_instrument :
  forall (F : Type) (PF : PyFloat F) (PP : PyPow F)
         (etfs : dict string) (data : DataFrame F) (perf : dict F)
         (info : string -> outcome sector_field) (unders : list (string * F))
         (wts : dict F) (tickers : list string)
         (t : string) (sec tk : option string),
    NoDup (dict_keys etfs) ->
    get_sector_etf_performance etfs data = Returned perf ->
    dict_get (recommend_replacements info unders perf wts tickers etfs) t
    = Some (sec, tk) ->
    match sec with
    | Some s => In s (top_sectors perf)
                /\ (exists c, dict_get perf s = Some c /\ isnan c = false)
                /\ (exists e, tk = Some e /\ dict_get etfs s = Some e)
    | None => tk = None /\ valid_sectors perf = []
    end.
Proof.
  intros F PF PP etfs data perf info unders wts tickers t sec tk Hnd Hperf Hget.
  rewrite recommend_replacements_table in Hget.
  apply (dict_get_table_inv
           (g := fun t => (select_sector (get_sector_of_stock info t) wts (top_sectors perf),
                           rec_ticker etfs
                             (select_sector (get_sector_of_stock info t) wts
                                            (top_sectors perf))))) in Hget.
  inversion Hget as [[Hsec Htk]]. clear Hget.
  pose proof (select_sector_top (get_sector_of_stock info t) wts (top_sectors perf)) as Htop.
  destruct (select_sector (get_sector_of_stock info t) wts (top_sectors perf)) as [s|].
  - assert (Hkeys := performance_table Hnd Hperf).
    destruct (top_sectors_valid Htop) as [c [Hin Hc]].
    split; [exact Htop|]. split.
    + exists c. split; [|exact Hc].
      apply dict_get_In; [now rewrite Hkeys | exact Hin].
    + assert (Hs : In s (dict_keys etfs)).
      { rewrite <- Hkeys. unfold dict_keys. apply in_map_iff. exists (s, c). now split. }
      destruct (proj1 (dict_get_keys etfs s) Hs) as [e He].
      exists e. simpl. now split.
  - split; [reflexivity | now apply top_sectors_none].
Qed.

Lemma recommendations_name_an_instrument_witness :
  let cagr := (Rpower (1 + (121 / 100 - 1)) (1 / (365 / (36525 / 100))) - 1)%R in
  In "IT" (top_sectors [("IT", XR cagr)])
  /\ (exists c, dict_get [("IT", XR cagr)] "IT" = Some c /\ isnan c = false)
  /\ (exists e, Some "NSEIT.NS" = Some e
                /\ dict_get [("IT", "NSEIT.NS")] "IT" = Some e).
Proof.
  cbv zeta.
  apply (@recommendations_name_an_instrument xreal ideal ideal_pow
           [("IT", "NSEIT.NS")]
           {| columns := ["NSEIT.NS"];
              rows := [(0%Z, [XR 100]); (365%Z, [XR 121])] |} _
           (fun _ => Returned (Label "Technology")) [("TCS.NS", XR 0)] []
           ["TCS.NS"] "TCS.NS" (Some "IT") (Some "NSEIT.NS")).
  - repeat constructor; simpl; intuition.
  - unfold get_sector_etf_performance, sector_cagr, daily_returns, dropna, py_div.
    ideal_eval. reflexivity.
  - unfold recommend_replacements, top_sectors, sorted_sectors, valid_sectors,
      replacement_sector, dict_get_default.
    ideal_eval. reflexivity.
Defined.

Lemma NoDup_map_fst_filter {A B : Type} (p : A * B -> bool) (l : list (A * B)) :
  NoDup (map fst l) -> NoDup (map fst (filter p l)).
Proof.
  induction l as [|x l IH]; simpl; intros Hnd; [constructor|].
  inversion Hnd as [|? ? Hnot Hnd']; subst.
  destruct (p x); simpl; [|now apply IH].
  constructor; [|now apply IH].
  intros Hin. apply Hnot. apply in_map_iff in Hin.
  destruct Hin as [y [Hy Hin]]. apply filter_In in Hin.
  apply in_map_iff. exists y. intuition.
Qed.

Lemma map_m_keys {B : Type} (f : string -> outcome B) (l : list string)
    (r : list (string * B)) :
  map_m (fun t => y <- f t ;; Returned (t, y)) l = Returned r -> map fst r = l.
Proof.
  revert r. induction l as [|t l IH]; intros r; simpl.
  - intros E. now inversion E.
  - destruct (f t) as [y|e]; simpl; [|discriminate].
    destruct (map_m _ l) as [ys|e] eqn:E; simpl; [|discriminate].
    intros Er. inversion Er. simpl. f_equal. now apply IH.
Qed.

(** X8.  The underperformers of the script are drawn from the columns of
    the price table, which are distinct: the recommender then answers with
    exactly one recommendation per underperformer, in their order. *)
Theorem one_recommendation_per_underperformer :
  forall (F : Type) (PF : PyFloat F) (PP : PyPow F)
         (adj_close : DataFrame F) (portfolio_cagr : F) (unders : list (string * F))
         (info : string -> outcome sector_field) (perf wts : dict F)
         (tickers : list string) (etf : dict string),
    NoDup (columns adj_close) ->
    underperformers adj_close portfolio_cagr = Returned unders ->
    incl (map fst unders) (columns adj_close)
    /\ dict_keys (recommend_replacements info unders perf wts tickers etf)
       = map fst unders
    /\ length (recommend_replacements info unders perf wts tickers etf)
       = length unders.
Proof.
  intros F PF PP adj_close port unders info perf wts tickers etf Hnd Hrun.
  rewrite underperformers_filter in Hrun.
  apply bind_returned in Hrun. destruct Hrun as [cagrs [Hc Hu]].
  inversion Hu; subst unders. clear Hu.
  unfold ticker_cagrs in Hc.
  assert (Hkeys : map fst cagrs = columns adj_close).
  { apply (map_m_keys (f := fun t => column <- df_col adj_close t ;;
                                     calculate_cagr column)).
    rewrite <- Hc. clear.
    induction (columns adj_close) as [|t l IH]; simpl; [reflexivity|].
    rewrite IH. destruct (df_col adj_close t) as [column|e]; simpl; [|reflexivity].
    destruct (calculate_cagr column); reflexivity. }
  assert (Hdistinct : NoDup (map fst (find_underperformers cagrs port))).
  { unfold find_underperformers. apply NoDup_map_fst_filter. now rewrite Hkeys. }
  assert (Hrec : dict_keys (recommend_replacements info (find_underperformers cagrs port)
                                                   perf wts tickers etf)
                 = map fst (find_underperformers cagrs port)).
  { rewrite recommend_replacements_table, first_occurrences_NoDup by exact Hdistinct.
    unfold dict_keys. rewrite map_map. simpl. apply map_id. }
  split; [|split].
  - rewrite <- Hkeys. unfold find_underperformers. intros t Ht.
    apply in_map_iff in Ht. destruct Ht as [y [Hy Hin]]. apply filter_In in Hin.
    apply in_map_iff. exists y. intuition.
  - exact Hrec.
  - rewrite <- (length_map fst), <- (length_map fst (find_underperformers cagrs port)).
    unfold dict_keys in Hrec. now rewrite Hrec.
Qed.

Lemma one_recommendation_per_underperformer_witness :
  let unders : list (string * xreal) := [("TCS.NS", XR 0); ("INFY.NS", XR 0)] in
  let recs :=
    recommend_replacements (fun _ => Returned (Label "Technology")) unders
                           [("IT", XR (1 / 10))] [] ["TCS.NS"; "INFY.NS"]
                           INDIAN_SECTOR_ETFS in
  incl (map fst unders) ["TCS.NS"; "INFY.NS"]
  /\ dict_keys recs = map fst unders
  /\ length recs = length unders.
Proof.
  cbv zeta.
  apply (@one_recommendation_per_underperformer xreal ideal ideal_pow
           {| columns := ["TCS.NS"; "INFY.NS"];
              rows := [(0%Z, [XR 100; XR 50]); (365%Z, [XR 100; XR 50])] |}
           (XR 1)).
  - repeat constructor; simpl; intuition discriminate.
  - unfold underperformers. cbn [columns for_each].
    change (df_col _ "TCS.NS")
      with (Returned (constant_series (XR 100) [0%Z; 365%Z])).
    cbn [bind]. rewrite calculate_cagr_constant_ideal by (try lra; unfold span_days; simpl; lia).
    cbn [bind].
    change (df_col _ "INFY.NS")
      with (Returned (constant_series (XR 50) [0%Z; 365%Z])).
    cbn [bind]. rewrite calculate_cagr_constant_ideal by (try lra; unfold span_days; simpl; lia).
    ideal_eval. reflexivity.
Defined.
(** ** Returns and cumulative returns *)

Lemma cumprod_from_relatives (prev acc : R) (l : list (Z * R)) :
  prev <> 0%R -> Forall (fun e => snd e <> 0%R) l ->
  cumprod_from (XR acc)
    (real_series (map (fun e => (fst e, (1 + snd e)%R)) (real_pct_from prev l)))
  = real_series (map (fun e => (fst e, (acc * (snd e / prev))%R)) l).
Proof.
  intros Hprev Hl. revert prev acc Hprev.
  induction Hl as [|[d p] l Hp Hl IH]; intros prev acc Hprev; [reflexivity|].
  simpl in Hp. cbn [real_pct_from map real_series fst snd cumprod_from isnan ideal xisnan].
  cbn [fmul ideal xlift2].
  change (map (fun e : Z * R => (fst e, XR (snd e)))
              (map (fun e : Z * R => (fst e, (1 + snd e)%R)) (real_pct_from p l)))
    with (real_series (map (fun e : Z * R => (fst e, (1 + snd e)%R)) (real_pct_from p l))).
  rewrite (IH p _ Hp).
  unfold real_series. cbn [map fst snd]. f_equal.
  - f_equal. f_equal. field. exact Hprev.
  - rewrite !map_map. apply map_ext. intros [d' x]. cbn [fst snd].
    f_equal. f_equal. field. split; assumption.
Qed.

Lemma cumprod_relatives (d0 : Z) (p0 : R) (rest : list (Z * R)) :
  (0 < p0)%R -> Forall (fun e => (0 < snd e)%R) rest ->
  cumprod (one_plus (daily_returns (real_series ((d0, p0) :: rest))))
  = real_series (map (fun e => (fst e, (snd e / p0)%R)) rest).
Proof.
  intros Hp0 Hrest.
  assert (Hnz : Forall (fun e => snd e <> 0%R) rest).
  { eapply Forall_impl; [|exact Hrest]. intros a Ha. simpl in Ha. lra. }
  rewrite daily_returns_real by (try assumption; lra).
  rewrite one_plus_real.
  destruct rest as [|[d1 p1] rest]; [reflexivity|].
  inversion Hnz as [|? ? Hp1 Hnz']; subst. simpl in Hp1.
  cbn [real_pct_from map real_series fst snd cumprod isnan ideal xisnan].
  change (map (fun e : Z * R => (fst e, XR (snd e)))
              (map (fun e : Z * R => (fst e, (1 + snd e)%R)) (real_pct_from p1 rest)))
    with (real_series (map (fun e : Z * R => (fst e, (1 + snd e)%R))
                           (real_pct_from p1 rest))).
  rewrite cumprod_from_relatives by assumption.
  unfold real_series. cbn [map fst snd]. f_equal.
  - f_equal. f_equal. field. lra.
  - rewrite !map_map. apply map_ext. intros [d' x]. cbn [fst snd].
    f_equal. f_equal. field. split; lra.
Qed.

Lemma last_map_default {A B : Type} (f : A -> B) (l : list A) (d : A) :
  last (map f l) (f d) = f (last l d).
Proof.
  induction l as [|x l IH]; [reflexivity|].
  destruct l as [|y l]; [reflexivity | exact IH].
Qed.

(** X9.  Over the reals, compounding the daily returns of a series of
    positive prices gives back the prices relative to the first one: the
    cumulative return at a date is the price of the date divided by the
    first price, and the last cumulative return, the growth that the
    compound rates are computed from, is the last price over the first. *)
Theorem cumulative_returns_are_price_relatives :
  forall (d0 : Z) (p0 : R) (rest : list (Z * R)),
    (0 < p0)%R -> Forall (fun e => (0 < snd e)%R) rest ->
    cumprod (one_plus (daily_returns (real_series ((d0, p0) :: rest))))
    = real_series (map (fun e => (fst e, (snd e / p0)%R)) rest)
    /\ (rest <> [] ->
        py_last (values (cumprod (one_plus (daily_returns
                                              (real_series ((d0, p0) :: rest))))))
        = Returned (XR (last (map snd rest) p0 / p0))).
Proof.
  intros d0 p0 rest Hp0 Hrest.
  rewrite cumprod_relatives by assumption. split; [reflexivity|].
  intros Hne. rewrite values_real_series, !map_map. cbn [snd].
  rewrite <- (map_map snd (fun p => XR (p / p0))).
  assert (Hm : map (fun p => XR (p / p0)) (map snd rest) <> [])
    by (destruct rest; [congruence | discriminate]).
  rewrite (py_last_last (XR (p0 / p0)) Hm).
  now rewrite (last_map_default (fun p => XR (p / p0))).
Qed.

Lemma cumulative_returns_are_price_relatives_witness :
  cumprod (one_plus (daily_returns
                       (real_series [(0%Z, 100%R); (1%Z, 110%R); (2%Z, 99%R)])))
  = [(1%Z, XR (110 / 100)); (2%Z, XR (99 / 100))].
Proof.
  apply (@cumulative_returns_are_price_relatives 0%Z 100%R
           [(1%Z, 110%R); (2%Z, 99%R)]).
  - lra.
  - repeat constructor; simpl; lra.
Defined.

Lemma last_cons_default {A : Type} (x a : A) (l : list A) :
  last (x :: l) a = last l x.
Proof.
  revert x a. induction l as [|y l IH]; intros x a; [reflexivity|].
  change (last (x :: y :: l) a) with (last (y :: l) a).
  now rewrite !IH.
Qed.

Lemma cumulative_return_factor_ends (p0 : R) (rest : list R) :
  (0 < p0)%R -> Forall (fun p => (0 < p)%R) rest ->
  cumulative_return_factor (p0 :: rest) = (last rest p0 / p0)%R.
Proof.
  intros Hp0 Hrest. unfold cumulative_return_factor, Rproduct. cbn [real_returns].
  assert (Hgen : forall prev acc,
             (0 < prev)%R ->
             fold_left Rmult (map (fun r => (1 + r)%R) (real_returns_from prev rest)) acc
             = (acc * (last rest prev / prev))%R).
  { induction Hrest as [|p l Hp Hl IH]; intros prev acc Hprev.
    - simpl. field. lra.
    - cbn [real_returns_from map fold_left]. rewrite (IH p) by assumption.
      rewrite last_cons_default.
      field. split; lra. }
  rewrite Hgen by assumption. lra.
Qed.

(** X10.  Over the reals, [calculate_cagr] depends on a series of positive
    prices through its two ends only: it is the last price over the first
    one, raised to the power 365.25 / span, minus one; the prices in between
    do not matter. *)
Theorem calculate_cagr_ends :
  forall (d0 : Z) (p0 : R) (rest : list (Z * R)),
    rest <> [] ->
    (0 < p0)%R -> Forall (fun e => (0 < snd e)%R) rest ->
    span_days (d0 :: map fst rest) <> 0%Z ->
    calculate_cagr (real_series ((d0, p0) :: rest))
    = Returned (XR (Rpower (last (map snd rest) p0 / p0)
                           (36525 / 100 / IZR (span_days (d0 :: map fst rest))) - 1)).
Proof.
  intros d0 p0 rest Hne Hp0 Hrest Hspan.
  rewrite calculate_cagr_real.
  - cbn [map fst snd]. rewrite cumulative_return_factor_ends; [reflexivity | assumption |].
    apply Forall_map. exact Hrest.
  - destruct rest; [congruence | simpl; lia].
  - constructor; assumption.
  - exact Hspan.
Qed.

Lemma calculate_cagr_ends_witness :
  calculate_cagr (real_series [(0%Z, 100%R); (200%Z, 50%R); (365%Z, 121%R)])
  = Returned (XR (Rpower (121 / 100) (36525 / 100 / 365) - 1)).
Proof.
  apply (@calculate_cagr_ends 0%Z 100%R [(200%Z, 50%R); (365%Z, 121%R)]).
  - discriminate.
  - lra.
  - repeat constructor; simpl; lra.
  - unfold span_days. simpl. lia.
Defined.
(** ** Weights *)

Section MatchedWeights.
Context {F : Type} `{PyFloat F}.

Lemma list_index_position (t : string) (tickers : list string) :
  list_index t tickers
  = match position t tickers with
    | Some i => Returned i
    | None => Raised ValueError
    end.
Proof.
  induction tickers as [|y tickers IH]; simpl; [reflexivity|].
  destruct (String.eqb y t); [reflexivity|].
  rewrite IH. destruct (position t tickers); reflexivity.
Qed.

Lemma position_bound (t : string) (tickers : list string) (i : nat) :
  position t tickers = Some i -> (i < length tickers)%nat.
Proof.
  revert i. induction tickers as [|y tickers IH]; intros i; simpl; [discriminate|].
  destruct (String.eqb y t).
  - intros E. inversion E. lia.
  - destruct (position t tickers) as [j|]; simpl; [|discriminate].
    intros E. inversion E. specialize (IH j eq_refl). lia.
Qed.

Lemma position_In (t : string) (tickers : list string) :
  existsb (String.eqb t) tickers = true <-> exists i, position t tickers = Some i.
Proof.
  induction tickers as [|y tickers IH]; simpl.
  - split; [discriminate | intros [i Hi]; discriminate].
  - rewrite (String.eqb_sym t y). destruct (String.eqb y t); simpl.
    + split; [eauto | reflexivity].
    + rewrite IH. split; intros [i Hi].
      * rewrite Hi. simpl. eauto.
      * destruct (position t tickers) as [j|]; [eauto | discriminate].
Qed.

Lemma np_item_nth (a : list F) (i : nat) :
  (i < length a)%nat -> np_item a i = Returned (nth i a nan).
Proof.
  intros Hi. unfold np_item.
  destruct (nth_error a i) as [x|] eqn:E.
  - now rewrite (nth_error_nth _ _ _ E).
  - apply nth_error_None in E. lia.
Qed.

Lemma weights_matched_loop (tickers : list string) (weights : list F)
    (final_tickers : list string) :
  (length tickers <= length weights)%nat ->
  forall acc : list F,
    for_each (fun acc tkr =>
                idx <- list_index tkr tickers ;;
                w <- np_item weights idx ;;
                Returned (acc ++ [w])) final_tickers acc
    = if forallb (fun t => existsb (String.eqb t) tickers) final_tickers
      then Returned (acc ++ map (first_weight tickers weights) final_tickers)
      else Raised ValueError.
Proof.
  intros Hlen. induction final_tickers as [|t ts IH]; intros acc; simpl.
  - now rewrite app_nil_r.
  - rewrite list_index_position. unfold first_weight at 1.
    destruct (existsb (String.eqb t) tickers) eqn:E.
    + apply position_In in E. destruct E as [i Hi]. rewrite Hi. cbn [bind].
      rewrite np_item_nth by (apply position_bound in Hi; lia).
      cbn [bind andb]. rewrite IH.
      destruct (forallb _ ts); [|reflexivity].
      now rewrite <- app_assoc.
    + destruct (position t tickers) as [i|] eqn:Hi; [|reflexivity].
      assert (Hex : existsb (String.eqb t) tickers = true)
        by (apply position_In; eauto).
      congruence.
Qed.

End MatchedWeights.

(** X11.  When every listed ticker has a weight, [weights_matched] fails
    only if a ticker of the price table is not among the listed ones, with
    [ValueError]; otherwise it returns, for each ticker of the table, the
    weight that stands at the ticker's first position in the list, and
    these weights divided by their sum. *)
Theorem weights_matched_first_position :
  forall (F : Type) (PF : PyFloat F) (tickers : list string) (weights : list F)
         (final_tickers : list string),
    (length tickers <= length weights)%nat ->
    weights_matched tickers weights final_tickers
    = if forallb (fun t => existsb (String.eqb t) tickers) final_tickers
      then Returned (normalize (map (first_weight tickers weights) final_tickers))
      else Raised ValueError.
Proof.
  intros F PF tickers weights final_tickers Hlen. unfold weights_matched.
  rewrite weights_matched_loop by exact Hlen.
  destruct (forallb _ final_tickers); reflexivity.
Qed.

Lemma weights_matched_first_position_witness :
  weights_matched ["TCS.NS"; "INFY.NS"; "TCS.NS"] [1%float; 2%float; 5%float]
                  ["INFY.NS"; "TCS.NS"]
  = Returned [(2 / 3)%float; (1 / 3)%float]
  /\ weights_matched ["TCS.NS"; "INFY.NS"] [1%float; 3%float] ["SBIN.NS"]
     = Raised ValueError.
Proof.
  split.
  - rewrite (@weights_matched_first_position float binary64); [reflexivity | simpl; lia].
  - rewrite (@weights_matched_first_position float binary64); [reflexivity | simpl; lia].
Defined.

(** ** Normalization over the reals *)

Lemma Rsum_scale (c : R) (l : list R) :
  Rsum (map (fun x => (x / c)%R) l) = (Rsum l / c)%R.
Proof.
  induction l as [|x l IH]; simpl.
  - unfold Rsum. simpl. unfold Rdiv. ring.
  - rewrite !Rsum_cons, IH. unfold Rdiv. ring.
Qed.

Lemma Rsum_times (c : R) (l : list R) :
  Rsum (map (fun x => (c * x)%R) l) = (c * Rsum l)%R.
Proof.
  induction l as [|x l IH]; simpl.
  - unfold Rsum. simpl. ring.
  - rewrite !Rsum_cons, IH. ring.
Qed.

Lemma normalize_real (ws : list R) :
  Rsum ws <> 0%R ->
  normalize (map XR ws) = map XR (map (fun x => (x / Rsum ws)%R) ws).
Proof.
  intros Hsum. unfold normalize. rewrite ideal_np_sum, !map_map.
  apply map_ext. intros x. cbn [fdiv ideal]. now apply xdiv_real.
Qed.

Lemma normalize_real_zero (ws : list R) :
  Rsum ws = 0%R -> normalize (map XR ws) = map (fun _ => XNaN) ws.
Proof.
  intros Hsum. unfold normalize. rewrite ideal_np_sum, Hsum, map_map.
  apply map_ext. intros x. cbn [fdiv ideal]. apply xdiv_zero.
Qed.

(** X12.  Over the reals, normalization of weights whose sum is not zero
    yields weights that sum to one, as many as before; it is insensitive to
    the scale of the weights (1, 1, 2 and 25, 25, 50 normalize alike); and
    normalizing once more changes nothing. *)
Theorem normalize_sums_to_one :
  forall ws : list R,
    Rsum ws <> 0%R ->
    np_sum (normalize (map XR ws)) = XR 1
    /\ length (normalize (map XR ws)) = length ws
    /\ (forall c : R, c <> 0%R ->
          normalize (map XR (map (fun x => (c * x)%R) ws)) = normalize (map XR ws))
    /\ normalize (normalize (map XR ws)) = normalize (map XR ws).
Proof.
  intros ws Hsum.
  assert (Hone : Rsum (map (fun x => (x / Rsum ws)%R) ws) = 1%R)
    by (rewrite Rsum_scale; now field).
  split; [|split; [|split]].
  - rewrite normalize_real, ideal_np_sum by exact Hsum. now f_equal.
  - unfold normalize. now rewrite !length_map.
  - intros c Hc.
    rewrite normalize_real by (rewrite Rsum_times; now apply Rmult_integral_contrapositive).
    rewrite normalize_real by exact Hsum.
    f_equal. rewrite map_map, Rsum_times. apply map_ext. intros x. now field.
  - rewrite normalize_real by exact Hsum.
    rewrite normalize_real by (rewrite Hone; lra).
    f_equal. rewrite map_map, Hone. apply map_ext. intros x. now field.
Qed.

Lemma normalize_sums_to_one_witness :
  np_sum (normalize [XR 1; XR 1; XR 2]) = XR 1
  /\ normalize [XR (25 * 1); XR (25 * 1); XR (25 * 2)]
     = normalize [XR 1; XR 1; XR 2].
Proof.
  assert (Hsum : Rsum [1; 1; 2]%R <> 0%R) by (unfold Rsum; simpl; lra).
  destruct (@normalize_sums_to_one [1; 1; 2]%R Hsum) as (Hone & _ & Hscale & _).
  split; [exact Hone|].
  apply (Hscale 25%R). lra.
Defined.

Lemma first_weight_own (tickers : list string) (ws : list xreal) :
  NoDup tickers -> length ws = length tickers ->
  map (first_weight tickers ws) tickers = ws.
Proof.
  intros Hnd. revert ws. induction Hnd as [|t tickers Hnot Hnd IH]; intros ws Hlen.
  - destruct ws; [reflexivity | discriminate].
  - destruct ws as [|w ws]; [discriminate|]. simpl in Hlen.
    cbn [map]. unfold first_weight at 1. cbn [position].
    rewrite String.eqb_refl. cbn [nth]. f_equal.
    rewrite <- (IH ws) at 2 by lia.
    apply map_ext_in. intros t' Hin. unfold first_weight. cbn [position].
    destruct (String.eqb t t') eqn:E.
    + apply String.eqb_eq in E. subst. contradiction.
    + destruct (position t' tickers); reflexivity.
Qed.

(** X13.  The script normalizes the weights twice: all of them, and then
    those of the tickers that have prices.  Over the reals, when no ticker
    is dropped (and the tickers are distinct, with weights whose sum is not
    zero) the second normalization changes nothing. *)
Theorem weights_matched_keeps_normalized_weights :
  forall (tickers : list string) (ws : list R),
    NoDup tickers -> length ws = length tickers -> Rsum ws <> 0%R ->
    weights_matched tickers (normalize (map XR ws)) tickers
    = Returned (normalize (map XR ws)).
Proof.
  intros tickers ws Hnd Hlen Hsum.
  assert (Hone : Rsum (map (fun x => (x / Rsum ws)%R) ws) = 1%R)
    by (rewrite Rsum_scale; now field).
  unfold weights_matched.
  rewrite weights_matched_loop
    by (unfold normalize; rewrite !length_map; lia).
  assert (Hall : forallb (fun t => existsb (String.eqb t) tickers) tickers = true).
  { apply forallb_forall. intros t Ht. now apply existsb_eqb_In. }
  rewrite Hall. cbn [bind app]. f_equal.
  rewrite first_weight_own
    by (try assumption; unfold normalize; rewrite !length_map; exact Hlen).
  rewrite normalize_real by exact Hsum.
  rewrite normalize_real by (rewrite Hone; lra).
  f_equal. rewrite map_map, Hone. apply map_ext. intros x. now field.
Qed.

Lemma weights_matched_keeps_normalized_weights_witness :
  weights_matched ["TCS.NS"; "INFY.NS"] (normalize [XR 1; XR 3]) ["TCS.NS"; "INFY.NS"]
  = Returned (normalize [XR 1; XR 3]).
Proof.
  apply (@weights_matched_keeps_normalized_weights ["TCS.NS"; "INFY.NS"] [1; 3]%R).
  - repeat constructor; simpl; intuition discriminate.
  - reflexivity.
  - unfold Rsum. simpl. lra.
Defined.
(** ** Beta *)

Lemma combine_self {A : Type} (l : list A) : combine l l = map (fun a => (a, a)) l.
Proof. induction l as [|a l IH]; simpl; [reflexivity | now rewrite IH]. Qed.

Lemma ideal_np_mean (l : list R) :
  l <> [] -> np_mean (map XR l) = XR (Rsum l / INR (length l)).
Proof.
  intros Hl. unfold np_mean. rewrite ideal_np_sum, length_map.
  cbn [of_int ideal fdiv]. rewrite <- INR_IZR_INZ. apply xdiv_real.
  apply not_0_INR. destruct l; [congruence | discriminate].
Qed.

Lemma Rdeviations_few (l : list R) : (length l <= 1)%nat -> Rdeviations l = 0%R.
Proof.
  destruct l as [|x [|y l]]; simpl; intros Hlen; try lia.
  - reflexivity.
  - unfold Rdeviations, Rsum. simpl. field.
Qed.

Lemma ideal_np_cov01_self (l : list R) :
  (2 <= length l)%nat ->
  np_cov01 (map XR l) (map XR l)
  = Returned (XR (Rdeviations l * (1 / (INR (length l) - 1)))).
Proof.
  intros Hlen. unfold np_cov01. rewrite Nat.eqb_refl, length_map.
  assert (Hfew : (length l <=? 1)%nat = false) by (apply Nat.leb_gt; lia).
  rewrite Hfew.
  rewrite ideal_np_mean by (destruct l; [simpl in Hlen; lia | discriminate]).
  rewrite combine_self, !map_map. cbn [fst snd fsub fmul ideal xlift2].
  rewrite <- (map_map (fun x => ((x - Rsum l / INR (length l))
                                 * (x - Rsum l / INR (length l)))%R) XR).
  rewrite ideal_np_sum. fold (Rdeviations l).
  cbn [of_int ideal fdiv one]. rewrite minus_IZR, <- INR_IZR_INZ.
  assert (Hn : (2 <= INR (length l))%R).
  { change 2%R with (INR 2). apply le_INR. exact Hlen. }
  rewrite xdiv_real by lra. reflexivity.
Qed.

Lemma ideal_var0 (l : list R) :
  l <> [] ->
  var 0 (map XR l) = XR (Rdeviations l / INR (length l)).
Proof.
  intros Hl. unfold var. rewrite ideal_count.
  assert (Hpos : Nat.leb (length l) 0 = false)
    by (destruct l; [congruence | reflexivity]).
  rewrite Hpos. unfold nansum. rewrite ideal_fillna0, ideal_np_sum.
  rewrite Nat.sub_0_r. cbn [of_int ideal fdiv]. rewrite <- INR_IZR_INZ.
  assert (Hn : INR (length l) <> 0%R)
    by (apply not_0_INR; destruct l; [congruence | discriminate]).
  rewrite xdiv_real by exact Hn.
  rewrite map_map. cbn [isnan ideal xisnan fsub fmul xlift2].
  rewrite <- (map_map (fun x => ((Rsum l / INR (length l) - x)
                                 * (Rsum l / INR (length l) - x))%R) XR).
  rewrite ideal_np_sum, xdiv_real by exact Hn.
  f_equal. f_equal. unfold Rdeviations. f_equal.
  apply map_ext. intros x. ring.
Qed.

(** X14.  Beta is the sample covariance ([np.cov], divisor [n - 1]) of the
    portfolio's and the market's returns over the population variance
    ([np.var], divisor [n]) of the market's: over the reals, a portfolio
    whose daily returns are the market's own (one that holds SPY alone) has
    beta [n / (n - 1)] for [n] daily returns, not 1. *)
Theorem beta_of_the_market_itself :
  forall (price_data : DataFrame xreal) (column : Series xreal)
         (rets : list (Z * R)),
    df_col price_data "SPY" = Returned column ->
    daily_returns column = real_series rets ->
    Rdeviations (map snd rets) <> 0%R ->
    beta price_data (real_series rets)
    = Returned (Some (XR (INR (length rets) / (INR (length rets) - 1)))).
Proof.
  intros price_data column rets Hcol Hrets Hdev. unfold beta.
  destruct (position "SPY" (columns price_data)) eqn:Hpos;
    [|unfold df_col in Hcol; rewrite Hpos in Hcol; discriminate].
  rewrite Hcol. cbn [bind]. rewrite Hrets, values_real_series.
  set (xs := map snd rets) in *.
  assert (Hlen : (2 <= length xs)%nat).
  { destruct (Nat.le_gt_cases (length xs) 1) as [Hfew|Hmany]; [|lia].
    exfalso. apply Hdev. now apply Rdeviations_few. }
  assert (Hne : xs <> []) by (destruct xs; [simpl in Hlen; lia | discriminate]).
  rewrite ideal_np_cov01_self by exact Hlen. cbn [bind].
  rewrite ideal_var0 by exact Hne.
  assert (Hn : (2 <= INR (length xs))%R).
  { change 2%R with (INR 2). apply le_INR. exact Hlen. }
  cbn [fdiv ideal]. rewrite xdiv_real.
  - do 3 f_equal. subst xs. rewrite length_map in *. field. split; lra.
  - intros Hz. apply Hdev.
    apply (Rmult_eq_reg_r (/ INR (length xs))).
    + unfold Rdiv in Hz. lra.
    + apply Rinv_neq_0_compat. lra.
Qed.

Lemma beta_of_the_market_itself_witness :
  beta {| columns := ["SPY"];
          rows := [(0%Z, [XR 100]); (1%Z, [XR 110]); (2%Z, [XR 99])] |}
       (real_series [(1%Z, (110 / 100 - 1)%R); (2%Z, (99 / 110 - 1)%R)])
  = Returned (Some (XR (INR 2 / (INR 2 - 1)))).
Proof.
  apply (@beta_of_the_market_itself _
           (real_series [(0%Z, 100%R); (1%Z, 110%R); (2%Z, 99%R)])
           [(1%Z, (110 / 100 - 1)%R); (2%Z, (99 / 110 - 1)%R)]).
  - reflexivity.
  - rewrite daily_returns_real; [reflexivity | lra | repeat constructor; simpl; lra].
  - unfold Rdeviations, Rsum. simpl. lra.
Defined.
(** ** Stress test on a short table *)

(** X15.  [run_stress_test] raises [ValueError] when the number of weights
    is not the number of columns.  On a price table of fewer than two rows
    there is no daily return: it then raises nothing and reports NaN for
    the original average, the shocked average and the impact, whatever the
    scenario. *)
Theorem run_stress_test_short_table :
  forall (F : Type) (PF : PyFloat F) (price_data : DataFrame F) (weights : list F)
         (scenario : string),
    isnan nan = true -> fsub nan nan = nan ->
    (length weights <> length (columns price_data) ->
     run_stress_test price_data weights scenario = Raised ValueError)
    /\ ((length (rows price_data) < 2)%nat ->
        columns price_data <> [] -> well_formed price_data ->
        length weights = length (columns price_data) ->
        run_stress_test price_data weights scenario
        = Returned {| original_avg_return := nan;
                      shocked_avg_return := nan;
                      impact := nan |}).
Proof.
  intros F PF price_data weights scenario Hnan Hsub. split.
  - intros Hlen. unfold run_stress_test, portfolio_returns, df_mul.
    change (columns (df_dropna (df_pct_change price_data))) with (columns price_data).
    apply Nat.eqb_neq in Hlen. now rewrite Hlen.
  - intros Hrows Hcols Hwf Hlen. unfold run_stress_test.
    rewrite (portfolio_returns_short Hnan Hrows Hcols Hwf Hlen). cbn [bind].
    unfold apply_scenario.
    assert (Hshock : shocked_returns (F := F) [] scenario = []).
    { unfold shocked_returns.
      destruct (String.eqb scenario "Market Crash -10%"); [reflexivity|].
      destruct (String.eqb scenario "Interest Rate Hike +2%"); reflexivity. }
    rewrite Hshock. cbn [values map]. unfold mean. cbn [count filter length Nat.eqb].
    now rewrite Hsub.
Qed.

Lemma run_stress_test_short_table_witness :
  run_stress_test {| columns := ["TCS.NS"; "INFY.NS"];
                     rows := [(0%Z, [100%float; 50%float])] |}
                  [0.5%float] "Market Crash -10%"
  = Raised ValueError
  /\ run_stress_test {| columns := ["TCS.NS"; "INFY.NS"];
                        rows := [(0%Z, [100%float; 50%float])] |}
                     [0.5%float; 0.5%float] "Market Crash -10%"
     = Returned {| original_avg_return := PrimFloat.nan;
                   shocked_avg_return := PrimFloat.nan;
                   impact := PrimFloat.nan |}.
Proof.
  split.
  - apply (@run_stress_test_short_table float binary64); try reflexivity.
    simpl. lia.
  - apply (@run_stress_test_short_table float binary64); try reflexivity.
    + simpl. lia.
    + discriminate.
    + repeat constructor.
Defined.

(** ** The value of the portfolio *)

Lemma forallb_notna_real (r : list R) : forallb notna (map XR r) = true.
Proof. induction r as [|x r IH]; simpl; [reflexivity | exact IH]. Qed.

Lemma df_dropna_real (cols : list string) (prices : list (Z * list R)) :
  df_dropna (real_frame cols prices) = real_frame cols prices.
Proof.
  unfold df_dropna, real_frame. cbn [columns rows]. f_equal.
  induction prices as [|[d r] prices IH]; simpl; [reflexivity|].
  now rewrite forallb_notna_real, IH.
Qed.

Lemma ideal_nansum (l : list R) : nansum (map XR l) = XR (Rsum l).
Proof. unfold nansum. now rewrite ideal_fillna0, ideal_np_sum. Qed.

Lemma weighted_relatives_first (first ws : list R) :
  Forall (fun p => p <> 0%R) first -> length ws = length first ->
  map (fun xw => fmul (fst xw) (snd xw))
      (combine (map (fun pq => fdiv (fst pq) (snd pq))
                    (combine (map XR first) (map XR first)))
               (map XR ws))
  = map XR (map (fun pw => (fst pw / fst pw * snd pw)%R) (combine first ws)).
Proof.
  intros Hnz. revert ws. induction Hnz as [|p first Hp Hnz IH]; intros ws Hlen.
  - reflexivity.
  - destruct ws as [|w ws]; [discriminate|]. simpl in Hlen.
    cbn [map combine fst snd]. rewrite (IH ws) by lia.
    cbn [fdiv fmul ideal]. rewrite xdiv_real by exact Hp. reflexivity.
Qed.

Lemma Rsum_weighted_relatives (first ws : list R) :
  Forall (fun p => p <> 0%R) first -> length ws = length first ->
  Rsum (map (fun pw => (fst pw / fst pw * snd pw)%R) (combine first ws)) = Rsum ws.
Proof.
  intros Hnz. revert ws. induction Hnz as [|p first Hp Hnz IH]; intros ws Hlen.
  - destruct ws; [reflexivity | discriminate].
  - destruct ws as [|w ws]; [discriminate|]. simpl in Hlen.
    cbn [map combine fst snd]. rewrite !Rsum_cons, (IH ws) by lia. now field.
Qed.

(** X16.  [portfolio_analyzer.py] values the portfolio on prices taken
    relative to the first row: on a table without a (complete) row it
    raises [IndexError]; with a number of weights other than the number of
    columns, [ValueError]; and over the reals, for first prices that are
    not zero, the value at the first date is the sum of the weights (1 for
    weights that were normalized). *)
Theorem portfolio_value_starts_at_total_weight :
  (forall (F : Type) (PF : PyFloat F) (price_data : DataFrame F) (weights : list F),
      (rows (df_dropna price_data) = [] ->
       portfolio_value price_data weights = Raised IndexError)
      /\ (rows (df_dropna price_data) <> [] ->
          length weights <> length (columns price_data) ->
          portfolio_value price_data weights = Raised ValueError))
  /\ (forall (cols : list string) (d0 : Z) (first : list R)
             (later : list (Z * list R)) (ws : list R),
         Forall (fun p => p <> 0%R) first ->
         length first = length cols -> length ws = length cols ->
         exists rest,
           portfolio_value (real_frame cols ((d0, first) :: later)) (map XR ws)
           = Returned ((d0, XR (Rsum ws)) :: rest)).
Proof.
  split.
  - intros F PF price_data weights. unfold portfolio_value. split.
    + intros Hrows. now rewrite Hrows.
    + intros Hrows Hlen.
      destruct (rows (df_dropna price_data)) as [|r rs]; [congruence|].
      cbn [py_first bind]. unfold df_mul, df_div_row, df_dropna. cbn [columns].
      apply Nat.eqb_neq in Hlen. now rewrite Hlen.
  - intros cols d0 first later ws Hnz Hfirst Hws. unfold portfolio_value.
    rewrite df_dropna_real. cbn [real_frame rows map py_first bind fst snd].
    unfold df_mul, df_div_row. cbn [columns rows map fst snd].
    rewrite length_map, Hws, Nat.eqb_refl. cbn [bind].
    unfold df_sum_rows, real_frame. cbn [rows map fst snd].
    rewrite weighted_relatives_first by (try assumption; lia).
    rewrite ideal_nansum, Rsum_weighted_relatives by (try assumption; lia).
    eexists. reflexivity.
Qed.

Lemma portfolio_value_starts_at_total_weight_witness :
  exists rest,
    portfolio_value (real_frame ["TCS.NS"; "INFY.NS"]
                                [(0%Z, [100; 50]%R); (1%Z, [110; 45]%R)])
                    (map XR [6 / 10; 4 / 10]%R)
    = Returned ((0%Z, XR (Rsum [6 / 10; 4 / 10]%R)) :: rest).
Proof.
  apply (proj2 portfolio_value_starts_at_total_weight).
  - repeat constructor; lra.
  - reflexivity.
  - reflexivity.
Defined.
(** ** The analysis of the script on a table of positive prices *)

Lemma filter_all {A : Type} (p : A -> bool) (l : list A) :
  Forall (fun x => p x = true) l -> filter p l = l.
Proof.
  induction 1 as [|x l Hx Hl IH]; simpl; [reflexivity|].
  now rewrite Hx, IH.
Qed.

Lemma map_m_returns {A B : Type} (f : A -> outcome B) (l : list A) :
  (forall x, In x l -> exists y, f x = Returned y) ->
  exists r, map_m f l = Returned r.
Proof.
  induction l as [|x l IH]; intros Hall; simpl.
  - now exists [].
  - destruct (Hall x (or_introl eq_refl)) as [y Hy]. rewrite Hy. cbn [bind].
    destruct IH as [r Hr]; [intros z Hz; apply Hall; now right|].
    rewrite Hr. cbn [bind]. now exists (y :: r).
Qed.

Lemma row_pct_real (prev cur : list R) :
  Forall (fun p => p <> 0%R) prev ->
  forallb notna (row_pct (map XR prev) (map XR cur)) = true.
Proof.
  intros Hprev. revert cur. induction Hprev as [|p prev Hp Hprev IH]; intros cur.
  - reflexivity.
  - destruct cur as [|q cur]; [reflexivity|].
    unfold row_pct in *. cbn [map combine fst snd forallb].
    rewrite IH, andb_true_r. cbn [fdiv ideal]. rewrite xdiv_real by exact Hp.
    reflexivity.
Qed.

Lemma row_fill_real (prev cur : list R) :
  row_fill (map XR prev) (map XR cur) = map XR (map snd (combine prev cur)).
Proof.
  unfold row_fill. revert cur. induction prev as [|p prev IH]; intros cur.
  - reflexivity.
  - destruct cur as [|q cur]; [reflexivity|].
    cbn [map combine fst snd isnan ideal xisnan]. now rewrite IH.
Qed.

Lemma rows_pct_from_real (prev : list R) (prices : list (Z * list R)) :
  Forall (fun p => p <> 0%R) prev ->
  Forall (fun r => Forall (fun p => p <> 0%R) (snd r)) prices ->
  Forall (fun r => forallb notna (snd r) = true)
         (rows_pct_from (map XR prev) (map (fun r => (fst r, map XR (snd r))) prices))
  /\ map fst (rows_pct_from (map XR prev)
                            (map (fun r => (fst r, map XR (snd r))) prices))
     = map fst prices.
Proof.
  intros Hprev Hall. revert prev Hprev.
  induction Hall as [|[d r] prices Hr Hall IH]; intros prev Hprev.
  - split; [constructor | reflexivity].
  - cbn [map rows_pct_from fst snd]. simpl in Hr. rewrite row_fill_real.
    assert (Hfilled : Forall (fun p => p <> 0%R) (map snd (combine prev r))).
    { apply Forall_forall. intros x Hx. apply in_map_iff in Hx.
      destruct Hx as [[a b] [<- Hin]]. apply in_combine_r in Hin.
      rewrite Forall_forall in Hr. now apply Hr. }
    destruct (IH _ Hfilled) as [IH1 IH2]. split.
    + constructor; [now apply row_pct_real | exact IH1].
    + cbn [map fst]. now rewrite IH2.
Qed.

(** The daily returns of a table of prices that are not zero: one row per
    date but the first. *)
Lemma returns_index_real (cols : list string) (prices : list (Z * list R)) :
  cols <> [] ->
  Forall (fun r => length (snd r) = length cols
                   /\ Forall (fun p => (0 < p)%R) (snd r)) prices ->
  df_index (df_dropna (df_pct_change (real_frame cols prices)))
  = tl (map fst prices).
Proof.
  intros Hcols Hall. unfold df_index, df_dropna, df_pct_change, real_frame.
  cbn [rows columns].
  destruct prices as [|[d0 r0] prices]; [reflexivity|].
  inversion Hall as [|? ? [Hlen0 Hpos0] Hrest]; subst. simpl in Hlen0, Hpos0.
  cbn [map fst snd filter tl].
  assert (Hdrop : forallb notna (map (fun _ : xreal => @nan xreal _) (map XR r0)) = false).
  { destruct r0 as [|x r0]; [|reflexivity].
    destruct cols; [congruence | discriminate]. }
  rewrite Hdrop.
  assert (Hnz0 : Forall (fun p => p <> 0%R) r0).
  { eapply Forall_impl; [|exact Hpos0]. intros a Ha. lra. }
  assert (Hnz : Forall (fun r : Z * list R => Forall (fun p => p <> 0%R) (snd r)) prices).
  { eapply Forall_impl; [|exact Hrest]. intros a [_ Ha].
    eapply Forall_impl; [|exact Ha]. intros b Hb. lra. }
  destruct (rows_pct_from_real Hnz0 Hnz) as [Hkeep Hdates].
  now rewrite (filter_all Hkeep).
Qed.

Lemma df_col_real (cols : list string) (prices : list (Z * list R)) (t : string) :
  In t cols ->
  Forall (fun r => length (snd r) = length cols
                   /\ Forall (fun p => (0 < p)%R) (snd r)) prices ->
  exists column : list (Z * R),
    df_col (real_frame cols prices) t = Returned (real_series column)
    /\ map fst column = map fst prices
    /\ Forall (fun e => (0 < snd e)%R) column.
Proof.
  intros Hin Hall. unfold df_col. cbn [real_frame columns rows].
  assert (Hex : existsb (String.eqb t) cols = true) by now apply existsb_eqb_In.
  apply position_In in Hex. destruct Hex as [j Hj]. rewrite Hj.
  assert (Hjlt := position_bound Hj).
  exists (map (fun r => (fst r, nth j (snd r) 0%R)) prices).
  split; [|split].
  - unfold real_series. rewrite !map_map. cbn [fst snd]. apply f_equal.
    apply map_ext_in. intros [d r] Hr. cbn [fst snd]. f_equal.
    rewrite Forall_forall in Hall. destruct (Hall _ Hr) as [Hlen _]. simpl in Hlen.
    rewrite (nth_indep _ (@nan xreal _) (XR 0)) by (rewrite length_map; lia).
    apply map_nth.
  - rewrite map_map. reflexivity.
  - apply Forall_forall. intros e He. apply in_map_iff in He.
    destruct He as [[d r] [<- Hr]]. cbn [fst snd].
    rewrite Forall_forall in Hall. destruct (Hall _ Hr) as [Hlen Hpos].
    simpl in Hlen, Hpos. rewrite Forall_forall in Hpos. apply Hpos.
    apply nth_In. lia.
Qed.

Lemma years_real (days : Z) :
  days <> 0%Z ->
  py_div (F := xreal) one (fdiv (of_int days) c365_25)
  = Returned (XR (1 / (IZR days / (36525 / 100)))).
Proof.
  intros Hdays.
  assert (Hd : IZR days <> 0%R) by (apply not_0_IZR; exact Hdays).
  destruct ideal_constants as (Hzero & Hone & _ & _ & _ & H365 & _).
  assert (Hy : (IZR days / (36525 / 100))%R <> 0%R).
  { intros Heq. apply Hd.
    apply (Rmult_eq_reg_r (/ (36525 / 100))); [unfold Rdiv in Heq; lra|].
    apply Rinv_neq_0_compat. lra. }
  unfold py_div. rewrite H365, Hone, Hzero. cbn [of_int ideal fdiv].
  rewrite xdiv_real by lra. rewrite xeq_false by exact Hy.
  now rewrite xdiv_real by exact Hy.
Qed.

(** X17.  On a table of positive prices with at least one column and two
    rows, whose first and last dates differ, and whose tickers all have a
    weight, the analysis of the script runs to its end over the reals:
    nothing is raised, there is one portfolio return per date but the
    first, and one weight per column. *)
Theorem analyze_returns_on_positive_prices :
  forall (tickers : list string) (weights : list xreal)
         (cols : list string) (prices : list (Z * list R)),
    cols <> [] -> (2 <= length prices)%nat ->
    Forall (fun r => length (snd r) = length cols
                     /\ Forall (fun p => (0 < p)%R) (snd r)) prices ->
    span_days (map fst prices) <> 0%Z ->
    (forall t, In t cols -> In t tickers) ->
    (length tickers <= length weights)%nat ->
    exists a : analysis,
      analyze tickers weights (real_frame cols prices) = Returned a
      /\ index (a_returns a) = tl (map fst prices)
      /\ length (a_weights a) = length cols.
Proof.
  intros tickers weights cols prices Hcols Hrows Hall Hspan Hsub Hlen.
  unfold analyze. cbn [real_frame columns rows]. rewrite length_map.
  assert (Hgate : ((length cols =? 0)%nat || (length prices <? 2)%nat) = false).
  { apply orb_false_iff. split.
    - apply Nat.eqb_neq. destruct cols; [congruence | discriminate].
    - apply Nat.ltb_ge. exact Hrows. }
  rewrite Hgate.
  (* the weights *)
  unfold weights_matched. rewrite weights_matched_loop by exact Hlen.
  assert (Hknown : forallb (fun t => existsb (String.eqb t) tickers) cols = true).
  { apply forallb_forall. intros t Ht. apply existsb_eqb_In. now apply Hsub. }
  rewrite Hknown. cbn [bind app].
  set (w := normalize (map (first_weight tickers weights) cols)).
  assert (Hw : length w = length cols)
    by (unfold w, normalize; now rewrite !length_map).
  (* the portfolio's returns *)
  fold (real_frame cols prices).
  unfold portfolio_daily_returns, df_mul.
  change (columns (df_dropna (df_pct_change (real_frame cols prices)))) with cols.
  rewrite Hw, Nat.eqb_refl. cbn [bind].
  match goal with
  | |- context [df_sum_rows ?df] =>
      destruct (ideal_row_sums_real df) as [rets Hrets];
      assert (Hidx : index (df_sum_rows df) = tl (map fst prices))
  end.
  { unfold index, df_sum_rows. cbn [rows]. rewrite !map_map. cbn [fst].
    rewrite <- (returns_index_real Hcols Hall). unfold df_index. reflexivity. }
  rewrite Hrets in *.
  assert (Hne : rets <> []).
  { intros ->. destruct prices as [|r0 [|r1 prices]]; simpl in Hrows; try lia.
    discriminate. }
  (* the portfolio's CAGR *)
  unfold port_cagr. rewrite one_plus_real.
  assert (Hdates : df_index (real_frame cols prices) = map fst prices).
  { unfold df_index, real_frame. cbn [rows]. now rewrite map_map. }
  rewrite Hdates.
  assert (Hdne : map fst prices <> [])
    by (destruct prices; [simpl in Hrows; lia | discriminate]).
  rewrite (py_last_last 0%Z Hdne), (py_first_hd 0%Z Hdne). cbn [bind].
  rewrite cumprod_real_last
    by (destruct rets; [congruence | discriminate]).
  cbn [bind]. fold (span_days (map fst prices)).
  rewrite years_real by exact Hspan. cbn [bind].
  (* the underperformers *)
  rewrite underperformers_filter. unfold ticker_cagrs.
  cbn [real_frame columns].
  fold (real_frame cols prices).
  destruct (@map_m_returns _ _
              (fun t => column <- df_col (real_frame cols prices) t ;;
                        cagr <- calculate_cagr column ;;
                        Returned (t, cagr)) cols) as [cagrs Hcagrs].
  { intros t Ht. destruct (df_col_real Ht Hall) as [column [Hcol [Hd Hpos]]].
    rewrite Hcol. cbn [bind].
    rewrite calculate_cagr_real.
    - cbn [bind]. eauto.
    - rewrite <- (length_map fst), Hd, length_map. exact Hrows.
    - exact Hpos.
    - now rewrite Hd. }
  rewrite Hcagrs. cbn [bind].
  eexists. split; [reflexivity|]. cbn [a_returns a_weights].
  split; [exact Hidx | exact Hw].
Qed.

Lemma analyze_returns_on_positive_prices_witness :
  exists a : analysis,
    analyze ["TCS.NS"; "INFY.NS"] [XR 3; XR 1]
            (real_frame ["TCS.NS"; "INFY.NS"]
                        [(0%Z, [100; 50]%R); (1%Z, [110; 45]%R); (4%Z, [121; 45]%R)])
    = Returned a
    /\ index (a_returns a) = [1%Z; 4%Z]
    /\ length (a_weights a) = 2%nat.
Proof.
  apply (@analyze_returns_on_positive_prices
           ["TCS.NS"; "INFY.NS"] [XR 3; XR 1] ["TCS.NS"; "INFY.NS"]
           [(0%Z, [100; 50]%R); (1%Z, [110; 45]%R); (4%Z, [121; 45]%R)]).
  - discriminate.
  - simpl. lia.
  - repeat constructor; simpl; lra.
  - unfold span_days. simpl. lia.
  - intros t Ht. exact Ht.
  - simpl. lia.
Defined.
(** ** The outcome of [calculate_cagr] *)

Lemma calculate_cagr_zero_span (l : list (Z * R)) :
  (2 <= length l)%nat -> Forall (fun e => (0 < snd e)%R) l ->
  span_days (map fst l) = 0%Z ->
  calculate_cagr (real_series l) = Raised ZeroDivisionError.
Proof.
  intros Hlen Hpos Hspan.
  destruct l as [|[d0 p0] l]; [simpl in Hlen; lia|].
  destruct l as [|e1 l]; [simpl in Hlen; lia|].
  inversion Hpos as [|? ? Hp0 Hrest]; subst. simpl in Hp0.
  assert (Hnz : Forall (fun e => snd e <> 0%R) (e1 :: l)).
  { eapply Forall_impl; [|exact Hrest]. intros a Ha. simpl in Ha. lra. }
  unfold calculate_cagr.
  rewrite daily_returns_real by (try assumption; lra).
  rewrite one_plus_real, index_real_series.
  rewrite (py_last_last (l := map fst ((d0, p0) :: e1 :: l)) 0%Z) by discriminate.
  rewrite (py_first_hd (l := map fst ((d0, p0) :: e1 :: l)) 0%Z) by discriminate.
  cbn [bind].
  rewrite cumprod_real_last by (destruct e1; discriminate).
  cbn [bind]. fold (span_days (map fst ((d0, p0) :: e1 :: l))). rewrite Hspan.
  destruct ideal_constants as (Hzero & Hone & _ & _ & _ & H365 & _).
  unfold py_div. rewrite H365, Hone, Hzero. cbn [of_int ideal fdiv].
  rewrite xdiv_real by lra.
  rewrite xeq_decide_true by (unfold Rdiv; ring). reflexivity.
Qed.

(** X18.  What [calculate_cagr] does on a series of positive prices, over
    the reals: with no price or a single one it raises [IndexError]; with
    two or more prices whose first and last dates coincide it raises
    [ZeroDivisionError]; in every other case it returns the compound
    rate. *)
Theorem calculate_cagr_outcome :
  forall l : list (Z * R),
    Forall (fun e => (0 < snd e)%R) l ->
    calculate_cagr (real_series l)
    = match l with
      | [] | [_] => Raised IndexError
      | _ =>
          if (span_days (map fst l) =? 0)%Z then Raised ZeroDivisionError
          else Returned (XR (Rpower (cumulative_return_factor (map snd l))
                                    (36525 / 100 / IZR (span_days (map fst l))) - 1))
      end.
Proof.
  intros l Hpos. destruct l as [|[d0 p0] [|e1 l]].
  - reflexivity.
  - reflexivity.
  - destruct (Z.eqb_spec (span_days (map fst ((d0, p0) :: e1 :: l))) 0) as [Hz|Hnz].
    + apply calculate_cagr_zero_span; [simpl; lia | assumption | assumption].
    + apply calculate_cagr_real; [simpl; lia | assumption | assumption].
Qed.

Lemma calculate_cagr_outcome_witness :
  calculate_cagr (real_series [(7%Z, 100%R); (7%Z, 110%R)]) = Raised ZeroDivisionError.
Proof.
  rewrite calculate_cagr_outcome; [reflexivity|].
  repeat constructor; simpl; lra.
Defined.

(** ** A portfolio of one asset *)

Lemma single_asset_rows (prev : R) (l : list (Z * R)) :
  prev <> 0%R -> Forall (fun e => snd e <> 0%R) l ->
  map (fun r : Z * list xreal => (fst r, nansum (snd r)))
      (map (fun r : Z * list xreal =>
              (fst r, map (fun xw => fmul (fst xw) (snd xw)) (combine (snd r) [XR 1])))
           (filter (fun r : Z * list xreal => forallb notna (snd r))
                   (rows_pct_from [XR prev]
                      (map (fun e : Z * R => (fst e, [XR (snd e)])) l))))
  = real_series (real_pct_from prev l).
Proof.
  intros Hprev Hl. revert prev Hprev.
  induction Hl as [|[d p] l Hp Hl IH]; intros prev Hprev; [reflexivity|].
  simpl in Hp. cbn [map rows_pct_from fst snd real_pct_from real_series].
  change (row_fill [XR prev] [XR p]) with [XR p].
  unfold row_pct at 1. cbn [combine map fst snd fdiv fsub ideal one of_int].
  rewrite xdiv_real by exact Hprev. cbn [xlift2 filter forallb snd notna isnan ideal
                                         xisnan negb andb map fst combine fmul].
  f_equal; [|exact (IH p Hp)]. f_equal.
  unfold nansum, fillna0, np_sum. cbn [map isnan ideal xisnan fold_left zero of_int fadd xlift2].
  f_equal. ring.
Qed.

Lemma single_asset_returns (c : string) (d0 : Z) (p0 : R) (rest : list (Z * R)) :
  (0 < p0)%R -> Forall (fun e => (0 < snd e)%R) rest ->
  portfolio_returns
    {| columns := [c];
       rows := map (fun e : Z * R => (fst e, [XR (snd e)])) ((d0, p0) :: rest) |}
    [XR 1]
  = Returned (daily_returns (real_series ((d0, p0) :: rest))).
Proof.
  intros Hp0 Hrest.
  assert (Hnz : Forall (fun e => snd e <> 0%R) rest).
  { eapply Forall_impl; [|exact Hrest]. intros a Ha. simpl in Ha. lra. }
  rewrite daily_returns_real by (try assumption; lra).
  unfold portfolio_returns, df_mul, df_dropna, df_pct_change, df_sum_rows.
  cbn [columns rows map fst snd length Nat.eqb bind filter forallb notna isnan
               nan ideal xisnan negb andb].
  now rewrite single_asset_rows by (try assumption; lra).
Qed.

(** X19.  For a portfolio of one asset with weight 1, over the reals, the
    portfolio's daily returns are the asset's, and the series that
    [show_cumulative_returns] plots is the price of each date relative to
    the first price. *)
Theorem show_cumulative_returns_single_asset :
  forall (c : string) (d0 : Z) (p0 : R) (rest : list (Z * R)),
    (0 < p0)%R -> Forall (fun e => (0 < snd e)%R) rest ->
    let data : DataFrame xreal :=
      {| columns := [c];
         rows := map (fun e : Z * R => (fst e, [XR (snd e)])) ((d0, p0) :: rest) |} in
    portfolio_returns data [XR 1]
    = Returned (daily_returns (real_series ((d0, p0) :: rest)))
    /\ show_cumulative_returns data [XR 1]
       = Returned (real_series (map (fun e => (fst e, (snd e / p0)%R)) rest)).
Proof.
  intros c d0 p0 rest Hp0 Hrest data. subst data. split.
  - now apply single_asset_returns.
  - unfold show_cumulative_returns.
    rewrite single_asset_returns by assumption. cbn [bind].
    now rewrite cumprod_relatives.
Qed.

Lemma show_cumulative_returns_single_asset_witness :
  show_cumulative_returns
    {| columns := ["SPY"];
       rows := [(0%Z, [XR 100]); (1%Z, [XR 110]); (2%Z, [XR 99])] |}
    [XR 1]
  = Returned [(1%Z, XR (110 / 100)); (2%Z, XR (99 / 100))].
Proof.
  apply (@show_cumulative_returns_single_asset "SPY" 0%Z 100%R
           [(1%Z, 110%R); (2%Z, 99%R)]).
  - lra.
  - repeat constructor; simpl; lra.
Defined.

(** ** A single weight, in machine arithmetic *)

Lemma float_add_zero_l (w : float) :
  finite_nonzero w -> PrimFloat.add 0 w = w.
Proof.
  intros (s & m & e & Hw). apply Prim2SF_inj.
  rewrite FloatAxioms.add_spec, Hw. reflexivity.
Qed.

(** X20.  In binary64, the weight of a single ticker normalizes to exactly
    [1.0], whatever finite weight other than zero the file gives it, and
    the second normalization keeps it. *)
Theorem single_weight_normalizes_to_one :
  forall (t : string) (w : float),
    finite_nonzero w ->
    normalize [w] = [1%float]
    /\ weights_matched [t] (normalize [w]) [t] = Returned [1%float].
Proof.
  intros t w Hw.
  assert (Hn : normalize [w] = [1%float]).
  { unfold normalize, np_sum. cbn [fold_left map].
    change (fadd zero w) with (PrimFloat.add 0 w).
    rewrite float_add_zero_l by exact Hw.
    change (fdiv w w) with (PrimFloat.div w w).
    now rewrite float_div_self. }
  split; [exact Hn|]. rewrite Hn.
  unfold weights_matched. cbn [for_each list_index]. rewrite String.eqb_refl.
  reflexivity.
Qed.

Lemma single_weight_normalizes_to_one_witness :
  normalize [250%float] = [1%float]
  /\ weights_matched ["TCS.NS"] (normalize [250%float]) ["TCS.NS"] = Returned [1%float].
Proof.
  apply (@single_weight_normalizes_to_one "TCS.NS" 250%float).
  now exists false, 8796093022208000%positive, (-45)%Z.
Defined.
(** ** The tolerance of [portfolio_analyzer.py] *)

Lemma normalized_weight_real (ws : list R) :
  (1 / 100 < Rabs (Rsum ws - 1))%R -> Rsum ws <> 0%R ->
  np_sum (normalized_weight (map XR ws)) = XR 1.
Proof.
  intros Hout Hsum. unfold normalized_weight. rewrite ideal_nansum.
  assert (Hc : @dec xreal _ 1 100 = XR (1 / 100)).
  { unfold dec. cbn [of_int ideal fdiv]. apply xdiv_real. lra. }
  rewrite Hc. cbn [fsub ideal xlift2 one of_int fabs ideal_abs xabs flt].
  rewrite xlt_true by exact Hout.
  assert (Hn : map (fun x => fdiv x (XR (Rsum ws))) (map XR ws)
               = map XR (map (fun x => (x / Rsum ws)%R) ws)).
  { rewrite !map_map. apply map_ext. intros x. cbn [fdiv ideal].
    now apply xdiv_real. }
  rewrite Hn, ideal_np_sum, Rsum_scale. f_equal. now field.
Qed.

Lemma float_zero_cases (z : float) :
  PrimFloat.eqb z 0 = true -> z = 0%float \/ z = (-0)%float.
Proof.
  intros Hz. rewrite FloatAxioms.eqb_spec in Hz.
  change (Prim2SF 0) with (S754_zero false) in Hz.
  destruct (Prim2SF z) as [s|s| |s m e] eqn:E; simpl in Hz;
    try discriminate; try (destruct s; discriminate).
  destruct s; [right | left]; apply Prim2SF_inj; rewrite E; reflexivity.
Qed.

Lemma normalized_weight_sum_one (w : list float) :
  nansum w = 1%float -> normalized_weight w = w.
Proof. intros Hsum. unfold normalized_weight. now rewrite Hsum. Qed.

Lemma normalized_weight_sum_nan (w : list float) :
  PrimFloat.is_nan (nansum w) = true -> normalized_weight w = w.
Proof.
  intros Hsum. apply is_nan_true_eq in Hsum.
  unfold normalized_weight. now rewrite Hsum.
Qed.

Lemma normalized_weight_sum_zero (w : list float) :
  PrimFloat.eqb (nansum w) 0 = true ->
  Forall (fun x => PrimFloat.is_nan x = true \/ PrimFloat.is_infinity x = true)
         (normalized_weight w).
Proof.
  intros Hsum. unfold normalized_weight.
  assert (Hout : flt (dec 1 100) (fabs (fsub (nansum w) one)) = true).
  { destruct (float_zero_cases Hsum) as [-> | ->]; reflexivity. }
  rewrite Hout. apply Forall_forall. intros y Hy.
  apply in_map_iff in Hy. destruct Hy as [x [<- _]].
  now apply float_div_by_zero.
Qed.

(** X21.  [portfolio_analyzer.py] divides the weights by their sum only
    when [abs(sum - 1.0) > 0.01], as computed.  In binary64, weights whose
    sum is exactly 1.0, or NaN, are left as they are, and weights whose sum
    is zero all become NaN or infinite.  The tolerance is not the interval
    from 0.99 to 1.01: the weights 0.6 and 0.39 sum to 0.99,
    [abs(0.99 - 1.0)] is the float 0.010000000000000009, and they are
    divided by their sum.  Over the reals, weights that are divided by a
    sum other than zero add up to 1 afterwards. *)
Theorem normalized_weight_tolerance :
  (forall w : list float, nansum w = 1%float -> normalized_weight w = w)
  /\ (forall w : list float,
         PrimFloat.is_nan (nansum w) = true -> normalized_weight w = w)
  /\ (forall w : list float,
         PrimFloat.eqb (nansum w) 0 = true ->
         Forall (fun x => PrimFloat.is_nan x = true \/ PrimFloat.is_infinity x = true)
                (normalized_weight w))
  /\ (nansum [0.6%float; 0.39%float] = 0.99%float
      /\ PrimFloat.abs (PrimFloat.sub 0.99 1) = 0.010000000000000009%float
      /\ PrimFloat.ltb 0.01 0.010000000000000009 = true
      /\ normalized_weight [0.6%float; 0.39%float]
         = [PrimFloat.div 0.6 0.99; PrimFloat.div 0.39 0.99])
  /\ (forall ws : list R,
         (1 / 100 < Rabs (Rsum ws - 1))%R -> Rsum ws <> 0%R ->
         np_sum (normalized_weight (map XR ws)) = XR 1).
Proof.
  split; [|split; [|split; [|split]]].
  - apply normalized_weight_sum_one.
  - apply normalized_weight_sum_nan.
  - apply normalized_weight_sum_zero.
  - repeat split; reflexivity.
  - apply normalized_weight_real.
Qed.

Lemma normalized_weight_tolerance_witness :
  normalized_weight [0.5%float; 0.25%float; 0.25%float]
  = [0.5%float; 0.25%float; 0.25%float]
  /\ np_sum (normalized_weight (map XR [3; 1]%R)) = XR 1.
Proof.
  destruct normalized_weight_tolerance as (Hone & _ & _ & _ & Hreal).
  split.
  - apply Hone. reflexivity.
  - apply Hreal.
    + unfold Rsum. simpl. replace (0 + 3 + 1 - 1)%R with 3%R by lra.
      rewrite Rabs_pos_eq; lra.
    + unfold Rsum. simpl. lra.
Defined.

(** ** Volatility over the reals *)

Lemma Rsum_nonneg (l : list R) :
  Forall (fun x => (0 <= x)%R) l -> (0 <= Rsum l)%R.
Proof.
  induction 1 as [|x l Hx Hl IH].
  - unfold Rsum. simpl. lra.
  - rewrite Rsum_cons. lra.
Qed.

Lemma Rsum_zero_terms (l : list R) :
  Forall (fun x => (0 <= x)%R) l -> Rsum l = 0%R -> Forall (fun x => x = 0%R) l.
Proof.
  induction 1 as [|x l Hx Hl IH]; intros Hsum; [constructor|].
  rewrite Rsum_cons in Hsum. pose proof (Rsum_nonneg Hl) as Hnn.
  constructor; [lra | apply IH; lra].
Qed.

Lemma Rdeviations_nonneg (l : list R) : (0 <= Rdeviations l)%R.
Proof.
  unfold Rdeviations. apply Rsum_nonneg. apply Forall_forall.
  intros y Hy. apply in_map_iff in Hy. destruct Hy as [x [<- _]].
  apply Rle_0_sqr.
Qed.

Lemma Rsum_constant (a : R) (l : list R) :
  Forall (fun x => x = a) l -> Rsum l = (INR (length l) * a)%R.
Proof.
  induction 1 as [|x l Hx Hl IH].
  - unfold Rsum. simpl. ring.
  - rewrite Rsum_cons, IH. change (length (x :: l)) with (S (length l)).
    rewrite S_INR. subst x. ring.
Qed.

Lemma Rdeviations_zero (l : list R) :
  l <> [] ->
  (Rdeviations l = 0%R <-> forall x y, In x l -> In y l -> x = y).
Proof.
  intros Hl.
  assert (Hn : INR (length l) <> 0%R)
    by (apply not_0_INR; destruct l; [congruence | discriminate]).
  split.
  - intros Hz.
    assert (Hmean : forall x, In x l -> x = (Rsum l / INR (length l))%R).
    { unfold Rdeviations in Hz. apply Rsum_zero_terms in Hz.
      - intros x Hx. rewrite Forall_forall in Hz.
        assert (Hsq : ((x - Rsum l / INR (length l))
                       * (x - Rsum l / INR (length l)))%R = 0%R).
        { apply Hz. apply in_map_iff. now exists x. }
        apply Rmult_integral in Hsq. lra.
      - apply Forall_forall. intros y Hy. apply in_map_iff in Hy.
        destruct Hy as [x [<- _]]. apply Rle_0_sqr. }
    intros x y Hx Hy. rewrite (Hmean x Hx), (Hmean y Hy). reflexivity.
  - intros Heq. destruct l as [|a l]; [congruence|].
    assert (Hall : Forall (fun x => x = a) (a :: l)).
    { apply Forall_forall. intros x Hx. apply Heq; [exact Hx | now left]. }
    unfold Rdeviations. rewrite (Rsum_constant Hall).
    rewrite (@Rsum_constant 0%R).
    + ring.
    + apply Forall_forall. intros y Hy. apply in_map_iff in Hy.
      destruct Hy as [x [<- Hx]]. rewrite Forall_forall in Hall.
      rewrite (Hall x Hx). field. exact Hn.
Qed.

Lemma ideal_var (ddof : nat) (l : list R) :
  (ddof < length l)%nat ->
  var ddof (map XR l) = XR (Rdeviations l / INR (length l - ddof)).
Proof.
  intros Hlen. unfold var. rewrite ideal_count.
  assert (Hpos : Nat.leb (length l) ddof = false) by (apply Nat.leb_gt; exact Hlen).
  rewrite Hpos. unfold nansum. rewrite ideal_fillna0, ideal_np_sum.
  cbn [of_int ideal fdiv]. rewrite <- !INR_IZR_INZ.
  assert (Hn : INR (length l) <> 0%R) by (apply not_0_INR; lia).
  assert (Hd : INR (length l - ddof) <> 0%R) by (apply not_0_INR; lia).
  rewrite xdiv_real by exact Hn.
  rewrite map_map. cbn [isnan ideal xisnan fsub fmul xlift2].
  rewrite <- (map_map (fun x => ((Rsum l / INR (length l) - x)
                                 * (Rsum l / INR (length l) - x))%R) XR).
  rewrite ideal_np_sum, xdiv_real by exact Hd.
  f_equal. f_equal. unfold Rdeviations. f_equal.
  apply map_ext. intros x. ring.
Qed.

(** Over the reals: the volatility of two or more returns is a number
    that is not negative, zero exactly when all the returns are equal, and
    the Sharpe ratio is undefined exactly then. *)
Lemma port_volatility_real :
  forall rets : list (Z * R),
    (2 <= length rets)%nat ->
    exists v : R,
      port_volatility (real_series rets) = XR v
      /\ (0 <= v)%R
      /\ (v = 0%R <-> forall x y, In x (map snd rets) -> In y (map snd rets) -> x = y)
      /\ (forall cagr : R,
             xisnan (port_sharpe (XR cagr) (XR v)) = true <-> v = 0%R).
Proof.
  intros rets Hlen. unfold port_volatility, pd_std, std.
  rewrite values_real_series. set (xs := map snd rets).
  assert (Hxs : length xs = length rets) by (unfold xs; apply length_map).
  rewrite ideal_var by lia.
  assert (Hd : (0 < INR (length xs - 1))%R) by (apply lt_0_INR; lia).
  pose proof (Rdeviations_nonneg xs) as Hnn.
  assert (Hq : (0 <= Rdeviations xs / INR (length xs - 1))%R).
  { apply Rmult_le_pos; [exact Hnn|]. left. now apply Rinv_0_lt_compat. }
  cbn [fsqrt ideal]. rewrite xsqrt_real by exact Hq.
  unfold c252. cbn [of_int ideal]. rewrite xsqrt_real by lra.
  cbn [fmul ideal xlift2].
  assert (H252 : (0 < sqrt 252)%R) by (apply sqrt_lt_R0; lra).
  set (v := (sqrt (Rdeviations xs / INR (length xs - 1)) * sqrt 252)%R).
  assert (Hv : (0 <= v)%R).
  { unfold v. apply Rmult_le_pos; [apply sqrt_pos | lra]. }
  assert (Hzero : v = 0%R <-> Rdeviations xs = 0%R).
  { unfold v. split.
    - intros Hz. apply Rmult_integral in Hz. destruct Hz as [Hz|Hz]; [|lra].
      apply sqrt_eq_0 in Hz; [|exact Hq].
      apply (Rmult_eq_reg_r (/ INR (length xs - 1))).
      + unfold Rdiv in Hz. lra.
      + apply Rinv_neq_0_compat. lra.
    - intros Hz. rewrite Hz. unfold Rdiv. rewrite Rmult_0_l, sqrt_0. ring. }
  exists v. split; [reflexivity|]. split; [exact Hv|]. split.
  - rewrite Hzero. apply Rdeviations_zero.
    destruct xs; [simpl in Hxs; lia | discriminate].
  - intros cagr. unfold port_sharpe.
    change (@zero xreal _) with (XR 0). cbn [flt ideal].
    destruct (Rle_lt_or_eq_dec 0 v Hv) as [Hpos|Heq].
    + rewrite xlt_true by exact Hpos. cbn [fdiv ideal].
      rewrite xdiv_real by lra. cbn [xisnan].
      split; [discriminate | intros Hz; lra].
    + rewrite xlt_false by lra. cbn [nan ideal xisnan].
      split; [intros _; lra | reflexivity].
Qed.

Lemma binary_round_aux_sign (m e : Z) (l : location) :
  match binary_round_aux prec emax false m e l with
  | S754_infinity s | S754_finite s _ _ => s = false
  | _ => True
  end.
Proof.
  unfold binary_round_aux.
  destruct (shr_fexp prec emax m e l) as [mrs' e'].
  destruct (shr_fexp prec emax _ e' loc_Exact) as [mrs'' e''].
  destruct (shr_m mrs''); try exact I.
  destruct (e'' <=? emax - prec)%Z; reflexivity.
Qed.

Lemma SFsqrt_sign (x : spec_float) :
  match SF64sqrt x with
  | S754_infinity s | S754_finite s _ _ => s = false
  | _ => True
  end.
Proof.
  unfold SF64sqrt, SFsqrt. destruct x as [s|s| |s m e]; try exact I.
  - destruct s; [exact I | reflexivity].
  - destruct s; [exact I|].
    destruct (SFsqrt_core_binary prec emax (Z.pos m) e) as [[mz ez] lz].
    apply binary_round_aux_sign.
Qed.

Lemma SFmul_sign (x : spec_float) (m : positive) (e : Z) :
  match x with
  | S754_infinity s | S754_finite s _ _ => s = false
  | _ => True
  end ->
  SFltb (SF64mul x (S754_finite false m e)) (S754_zero false) = false.
Proof.
  unfold SF64mul, SFmul, SFltb. destruct x as [s|s| |s mx ex]; intros Hx.
  - reflexivity.
  - subst s. reflexivity.
  - reflexivity.
  - subst s. cbn [xorb].
    pose proof (binary_round_aux_sign (Z.pos (mx * m)) (ex + e) loc_Exact) as Hs.
    destruct (binary_round_aux prec emax false _ _ _) as [s|s| |s m' e'];
      try reflexivity; subst s; reflexivity.
Qed.

Lemma port_volatility_not_negative (returns : Series float) :
  PrimFloat.ltb (port_volatility returns) 0 = false.
Proof.
  unfold port_volatility, pd_std, std.
  change (fmul (fsqrt (var 1 (values returns))) (fsqrt c252))
    with (PrimFloat.mul (PrimFloat.sqrt (var 1 (values returns)))
                        (PrimFloat.sqrt 252)).
  rewrite FloatAxioms.ltb_spec, FloatAxioms.mul_spec, FloatAxioms.sqrt_spec.
  change (Prim2SF 0) with (S754_zero false).
  change (Prim2SF (PrimFloat.sqrt 252))
    with (S754_finite false 8936553463969119%positive (-49)%Z).
  apply SFmul_sign. apply SFsqrt_sign.
Qed.


(** X22.  The annualized volatility of the script is never negative: in
    binary64 it is not below 0.0 for any series of returns (it may be NaN).
    Over the reals, for two or more returns, it is zero exactly when all
    the returns are equal, and the Sharpe ratio is undefined exactly then.
    That does not carry over to binary64: three returns of 0.1 have the
    volatility 2.6981503274991466e-16, and with a CAGR of 0.05 the Sharpe
    ratio 185312135837679.03, not NaN. *)
Theorem port_volatility_never_negative :
  (forall returns : Series float,
      PrimFloat.ltb (port_volatility returns) 0 = false)
  /\ (forall rets : list (Z * R),
         (2 <= length rets)%nat ->
         exists v : R,
           port_volatility (real_series rets) = XR v
           /\ (0 <= v)%R
           /\ (v = 0%R <-> forall x y, In x (map snd rets) -> In y (map snd rets) -> x = y)
           /\ (forall cagr : R,
                  xisnan (port_sharpe (XR cagr) (XR v)) = true <-> v = 0%R))
  /\ (let returns : Series float :=
        [(1%Z, 0.1%float); (2%Z, 0.1%float); (3%Z, 0.1%float)] in
      port_volatility returns = 2.6981503274991466e-16%float
      /\ PrimFloat.ltb 0 (port_volatility returns) = true
      /\ port_sharpe 0.05%float (port_volatility returns) = 185312135837679.03%float
      /\ PrimFloat.is_nan (port_sharpe 0.05%float (port_volatility returns)) = false).
Proof.
  split; [|split].
  - apply port_volatility_not_negative.
  - apply port_volatility_real.
  - cbv zeta. repeat split; reflexivity.
Qed.

Lemma port_volatility_never_negative_witness :
  exists v : R,
    port_volatility (real_series [(1%Z, (1 / 100)%R); (2%Z, (1 / 100)%R)]) = XR v
    /\ (0 <= v)%R
    /\ (v = 0%R <-> forall x y, In x [(1 / 100)%R; (1 / 100)%R] ->
                                In y [(1 / 100)%R; (1 / 100)%R] -> x = y)
    /\ (forall cagr : R, xisnan (port_sharpe (XR cagr) (XR v)) = true <-> v = 0%R).
Proof.
  apply (proj1 (proj2 port_volatility_never_negative)
               [(1%Z, (1 / 100)%R); (2%Z, (1 / 100)%R)]).
  simpl. lia.
Defined.

(** ** The scale of the prices *)

Lemma real_pct_from_scale (c prev : R) (l : list (Z * R)) :
  c <> 0%R -> prev <> 0%R -> Forall (fun e => snd e <> 0%R) l ->
  real_pct_from (c * prev) (map (fun e => (fst e, (c * snd e)%R)) l)
  = real_pct_from prev l.
Proof.
  intros Hc Hprev Hl. revert prev Hprev.
  induction Hl as [|[d p] l Hp Hl IH]; intros prev Hprev; [reflexivity|].
  simpl in Hp. cbn [map real_pct_from fst snd]. rewrite (IH p Hp).
  f_equal. f_equal. field. split; assumption.
Qed.

(** X23.  Over the reals, multiplying every price of a series by the same
    factor (another currency, a split) changes neither its daily returns
    nor what [calculate_cagr] makes of it. *)
Theorem daily_returns_scale_invariant :
  forall (c : R) (l : list (Z * R)),
    c <> 0%R -> Forall (fun e => snd e <> 0%R) l ->
    let scaled := map (fun e => (fst e, (c * snd e)%R)) l in
    daily_returns (real_series scaled) = daily_returns (real_series l)
    /\ calculate_cagr (real_series scaled) = calculate_cagr (real_series l).
Proof.
  intros c l Hc Hl scaled. subst scaled.
  assert (Hret : daily_returns (real_series (map (fun e => (fst e, (c * snd e)%R)) l))
                 = daily_returns (real_series l)).
  { destruct l as [|[d0 p0] l]; [reflexivity|].
    inversion Hl as [|? ? Hp0 Hrest]; subst. simpl in Hp0.
    cbn [map fst snd].
    assert (Hcp : (c * p0)%R <> 0%R) by now apply Rmult_integral_contrapositive.
    assert (Hscaled : Forall (fun e : Z * R => snd e <> 0%R)
                             (map (fun e : Z * R => (fst e, (c * snd e)%R)) l)).
    { apply Forall_forall. intros e He. apply in_map_iff in He.
      destruct He as [[d p] [<- Hin]]. cbn [snd].
      rewrite Forall_forall in Hrest. specialize (Hrest _ Hin). simpl in Hrest.
      now apply Rmult_integral_contrapositive. }
    rewrite (daily_returns_real d0 Hcp Hscaled), (daily_returns_real d0 Hp0 Hrest).
    now rewrite real_pct_from_scale. }
  split; [exact Hret|].
  unfold calculate_cagr. rewrite Hret, !index_real_series, map_map. reflexivity.
Qed.

Lemma daily_returns_scale_invariant_witness :
  calculate_cagr (real_series [(0%Z, (83 * 100)%R); (365%Z, (83 * 121)%R)])
  = calculate_cagr (real_series [(0%Z, 100%R); (365%Z, 121%R)]).
Proof.
  apply (@daily_returns_scale_invariant 83%R [(0%Z, 100%R); (365%Z, 121%R)]).
  - lra.
  - repeat constructor; simpl; lra.
Defined.
(** ** The tickers that have prices *)

Lemma collect_adj_close_keys {F : Type} (data : dict (Series F)) (tickers : list string) :
  forall acc : dict (Series F),
    dict_keys (fold_left (fun adj_close t =>
                            match dict_get data t with
                            | Some close => dict_set adj_close t close
                            | None => adj_close
                            end) tickers acc)
    = fold_left add_key
        (filter (fun t => existsb (String.eqb t) (dict_keys data)) tickers)
        (dict_keys acc).
Proof.
  induction tickers as [|t tickers IH]; intros acc; simpl; [reflexivity|].
  destruct (existsb (String.eqb t) (dict_keys data)) eqn:E.
  - apply existsb_eqb_In in E. destruct (proj1 (dict_get_keys data t) E) as [close Hc].
    rewrite Hc, IH, dict_keys_set. reflexivity.
  - assert (Hn : ~ In t (dict_keys data)).
    { intros Hin. apply existsb_eqb_In in Hin. congruence. }
    rewrite (proj2 (dict_get_keys data t) Hn). apply IH.
Qed.

(** X24.  The columns of the price table of the script are the tickers of
    the portfolio that have prices, each once, in the order of their first
    occurrence.  The loop that matches the weights to them therefore finds
    every one of them: it raises nothing and yields one weight per
    column. *)
Theorem final_tickers_are_portfolio_tickers :
  forall (F : Type) (PF : PyFloat F) (data : dict (Series F))
         (tickers : list string) (weights : list F),
    final_tickers data tickers
    = first_occurrences
        (filter (fun t => existsb (String.eqb t) (dict_keys data)) tickers)
    /\ NoDup (final_tickers data tickers)
    /\ incl (final_tickers data tickers) tickers
    /\ ((length tickers <= length weights)%nat ->
        weights_matched tickers weights (final_tickers data tickers)
        = Returned (normalize (map (first_weight tickers weights)
                                   (final_tickers data tickers)))).
Proof.
  intros F PF data tickers weights.
  assert (Hkeys : final_tickers data tickers
                  = first_occurrences
                      (filter (fun t => existsb (String.eqb t) (dict_keys data)) tickers)).
  { unfold final_tickers, collect_adj_close. now rewrite collect_adj_close_keys. }
  destruct (@fold_add_key_spec
              (filter (fun t => existsb (String.eqb t) (dict_keys data)) tickers) []
              (NoDup_nil _)) as [Hnd Hin].
  assert (Hincl : incl (final_tickers data tickers) tickers).
  { rewrite Hkeys. intros t Ht. apply Hin in Ht. destruct Ht as [[]|Ht].
    now apply filter_In in Ht. }
  split; [exact Hkeys|]. split; [rewrite Hkeys; exact Hnd|]. split; [exact Hincl|].
  intros Hlen. unfold weights_matched. rewrite weights_matched_loop by exact Hlen.
  assert (Hall : forallb (fun t => existsb (String.eqb t) tickers)
                         (final_tickers data tickers) = true).
  { apply forallb_forall. intros t Ht. apply existsb_eqb_In. now apply Hincl. }
  now rewrite Hall.
Qed.

Lemma final_tickers_are_portfolio_tickers_witness :
  weights_matched ["TCS.NS"; "SBIN.NS"; "INFY.NS"; "TCS.NS"]
                  [0.25%float; 0.25%float; 0.25%float; 0.25%float]
                  (final_tickers [("INFY.NS", [(0%Z, 50%float)]);
                                  ("TCS.NS", [(0%Z, 100%float)])]
                                 ["TCS.NS"; "SBIN.NS"; "INFY.NS"; "TCS.NS"])
  = Returned [0.5%float; 0.5%float].
Proof.
  rewrite (proj2 (proj2 (proj2 (@final_tickers_are_portfolio_tickers float binary64
                                  _ _ _)))).
  - reflexivity.
  - simpl. lia.
Defined.
(** ** NaN among the compound rates *)

Lemma float_ltb_not_nan (x y : float) :
  PrimFloat.ltb x y = true ->
  PrimFloat.is_nan x = false /\ PrimFloat.is_nan y = false.
Proof.
  rewrite FloatAxioms.ltb_spec. intros Hlt.
  split; apply is_nan_false_iff; intros Hn; rewrite Hn in Hlt.
  - discriminate.
  - destruct (Prim2SF x) as [s|s| |s m e]; try discriminate;
      destruct s; discriminate.
Qed.

Lemma float_mul_not_nan (x y : float) :
  PrimFloat.is_nan (PrimFloat.mul x y) = false -> PrimFloat.is_nan y = false.
Proof.
  intros Hxy. destruct (PrimFloat.is_nan y) eqn:Hy; [|reflexivity].
  apply is_nan_true_eq in Hy. subst y. rewrite float_mul_nan in Hxy. discriminate.
Qed.

(** X25.  In binary64, a comparison with NaN is false: a ticker whose CAGR
    is NaN is never flagged as an underperformer, and when the CAGR of the
    portfolio is NaN no ticker is flagged at all. *)
Theorem nan_cagr_is_never_flagged :
  forall (PP : PyPow float) (adj_close : DataFrame float) (portfolio_cagr : float)
         (unders : list (string * float)),
    underperformers adj_close portfolio_cagr = Returned unders ->
    Forall (fun u => PrimFloat.is_nan (snd u) = false) unders
    /\ (PrimFloat.is_nan portfolio_cagr = true -> unders = []).
Proof.
  intros PP adj_close port unders Hrun.
  rewrite underperformers_filter in Hrun.
  apply bind_returned in Hrun. destruct Hrun as [cagrs [_ Hu]].
  inversion Hu; subst unders. clear Hu.
  assert (Hflag : forall u, In u (find_underperformers cagrs port) ->
                            PrimFloat.is_nan (snd u) = false
                            /\ PrimFloat.is_nan port = false).
  { intros u Hu. unfold find_underperformers in Hu. apply filter_In in Hu.
    destruct Hu as [_ Hu]. unfold flagged in Hu.
    change (flt (snd u) (fmul c0_3 port))
      with (PrimFloat.ltb (snd u) (PrimFloat.mul c0_3 port)) in Hu.
    apply float_ltb_not_nan in Hu. destruct Hu as [Hc Hp].
    split; [exact Hc | now apply float_mul_not_nan in Hp]. }
  split.
  - apply Forall_forall. intros u Hu. now apply Hflag.
  - intros Hnan. destruct (find_underperformers cagrs port) as [|u l]; [reflexivity|].
    destruct (Hflag u (or_introl eq_refl)) as [_ Hp]. congruence.
Qed.

(** The witness takes for [**] a function that is right at base 1, the
    only base of its example. *)
Lemma nan_cagr_is_never_flagged_witness :
  Forall (fun u : string * float => PrimFloat.is_nan (snd u) = false)
         [("TCS.NS", 0%float)]
  /\ (PrimFloat.is_nan 1%float = true -> [("TCS.NS", 0%float)] = []).
Proof.
  apply (@nan_cagr_is_never_flagged {| fpow := fun x _ => x |}
           {| columns := ["TCS.NS"];
              rows := [(0%Z, [100%float]); (365%Z, [100%float])] |}
           1%float [("TCS.NS", 0%float)]).
  reflexivity.
Defined.

(** ** A scenario that is not known, in machine arithmetic *)

Lemma float_sub_self (x : float) :
  Prim2SF (PrimFloat.sub x x)
  = match Prim2SF x with
    | S754_zero _ | S754_finite _ _ _ => S754_zero false
    | _ => S754_nan
    end.
Proof.
  rewrite FloatAxioms.sub_spec.
  destruct (Prim2SF x) as [s|s| |s m e]; simpl.
  - now destruct s.
  - now destruct s.
  - reflexivity.
  - unfold SFsub. now rewrite Z.sub_diag.
Qed.

Lemma float_is_infinity_false (x : float) :
  PrimFloat.is_infinity x = false <-> (forall s, Prim2SF x <> S754_infinity s).
Proof.
  unfold PrimFloat.is_infinity.
  rewrite FloatAxioms.eqb_spec, FloatAxioms.abs_spec.
  change (Prim2SF infinity) with (S754_infinity false).
  destruct (Prim2SF x) as [s|s| |s m e]; simpl.
  - split; [intros _ s'; discriminate | reflexivity].
  - split; [discriminate | intros Hn; exfalso; now apply (Hn s)].
  - split; [intros _ s'; discriminate | reflexivity].
  - split; [intros _ s'; discriminate | reflexivity].
Qed.

(** X26.  In binary64, under a scenario that [run_stress_test] does not
    know, the shocked average is the original average, and the impact is
    exactly [0.0] when that average is finite; when the average is NaN or
    infinite the impact is NaN. *)
Theorem unknown_scenario_has_no_impact :
  forall (price_data : DataFrame float) (weights : list float) (scenario : string)
         (s : summary),
    String.eqb scenario "Market Crash -10%" = false ->
    String.eqb scenario "Interest Rate Hike +2%" = false ->
    run_stress_test price_data weights scenario = Returned s ->
    shocked_avg_return s = original_avg_return s
    /\ (PrimFloat.is_nan (original_avg_return s) = false ->
        PrimFloat.is_infinity (original_avg_return s) = false ->
        impact s = 0%float)
    /\ (PrimFloat.is_nan (original_avg_return s) = true
        \/ PrimFloat.is_infinity (original_avg_return s) = true ->
        PrimFloat.is_nan (impact s) = true).
Proof.
  intros price_data weights scenario s Hcrash Hhike Hrun.
  unfold run_stress_test in Hrun.
  apply bind_returned in Hrun. destruct Hrun as [base [_ Hs]].
  inversion Hs; subst s. clear Hs.
  unfold apply_scenario, shocked_returns. rewrite Hcrash, Hhike.
  cbn [original_avg_return shocked_avg_return impact].
  set (m := mean (values base)).
  change (fsub m m) with (PrimFloat.sub m m).
  pose proof (float_sub_self m) as Hsub.
  split; [reflexivity|]. split.
  - intros Hnan Hinf. apply Prim2SF_inj. rewrite Hsub.
    apply is_nan_false_iff in Hnan.
    pose proof (proj1 (float_is_infinity_false m) Hinf) as Hfin.
    destruct (Prim2SF m) as [sg|sg| |sg mm e]; try reflexivity.
    + exfalso. now apply (Hfin sg).
    + congruence.
  - intros Hbad.
    destruct (PrimFloat.is_nan (PrimFloat.sub m m)) eqn:E; [reflexivity|].
    exfalso. apply is_nan_false_iff in E. apply E. rewrite Hsub.
    destruct Hbad as [Hnan|Hinf].
    + apply is_nan_true_eq in Hnan. now rewrite Hnan.
    + destruct (Prim2SF m) as [sg|sg| |sg mm e] eqn:Em; try reflexivity.
      * assert (Hf : PrimFloat.is_infinity m = false)
          by (apply float_is_infinity_false; intros s'; rewrite Em; discriminate).
        congruence.
      * assert (Hf : PrimFloat.is_infinity m = false)
          by (apply float_is_infinity_false; intros s'; rewrite Em; discriminate).
        congruence.
Qed.

Lemma unknown_scenario_has_no_impact_witness :
  impact {| original_avg_return := 0.5%float;
            shocked_avg_return := 0.5%float;
            impact := 0%float |} = 0%float.
Proof.
  apply (proj1 (proj2 (@unknown_scenario_has_no_impact
                         {| columns := ["TCS.NS"];
                            rows := [(0%Z, [100%float]); (1%Z, [200%float]);
                                     (2%Z, [200%float])] |}
                         [1%float] "Recession"
                         {| original_avg_return := 0.5%float;
                            shocked_avg_return := 0.5%float;
                            impact := 0%float |}
                         eq_refl eq_refl eq_refl))); reflexivity.
Defined.

(** ** What [calculate_risk_metrics] raises *)

(** X27.  [calculate_risk_metrics] raises [ValueError] when the number of
    weights is not the number of columns, and [IndexError] on a price table
    of fewer than two rows: there is then no daily return, and the
    percentile of line 8 is taken of an empty array.  ([run_stress_test]
    returns NaN values on the same table.) *)
Theorem calculate_risk_metrics_short_table :
  forall (F : Type) (PF : PyFloat F) (price_data : DataFrame F) (weights : list F),
    isnan nan = true ->
    (length weights <> length (columns price_data) ->
     calculate_risk_metrics price_data weights = Raised ValueError)
    /\ ((length (rows price_data) < 2)%nat ->
        columns price_data <> [] -> well_formed price_data ->
        length weights = length (columns price_data) ->
        calculate_risk_metrics price_data weights = Raised IndexError).
Proof.
  intros F PF price_data weights Hnan. split.
  - intros Hlen. unfold calculate_risk_metrics, portfolio_returns, df_mul.
    change (columns (df_dropna (df_pct_change price_data))) with (columns price_data).
    apply Nat.eqb_neq in Hlen. now rewrite Hlen.
  - intros Hrows Hcols Hwf Hlen. unfold calculate_risk_metrics.
    now rewrite (portfolio_returns_short Hnan Hrows Hcols Hwf Hlen).
Qed.

Lemma calculate_risk_metrics_short_table_witness :
  calculate_risk_metrics {| columns := ["TCS.NS"; "INFY.NS"];
                            rows := [(0%Z, [100%float; 50%float])] |}
                         [0.5%float]
  = Raised ValueError
  /\ calculate_risk_metrics {| columns := ["TCS.NS"; "INFY.NS"];
                               rows := [(0%Z, [100%float; 50%float])] |}
                            [0.5%float; 0.5%float]
     = Raised IndexError.
Proof.
  split.
  - apply (@calculate_risk_metrics_short_table float binary64); try reflexivity.
    simpl. lia.
  - apply (@calculate_risk_metrics_short_table float binary64); try reflexivity.
    + simpl. lia.
    + discriminate.
    + repeat constructor.
Defined.
